(** * The pi adapter: Codex app-server protocol bridged to the pi agent's RPC

    A shallow embedding of the adapter process (the TypeScript program that
    reads JSON-RPC requests on stdin, owns a child [pi] process and turns
    the child's event stream into Codex notifications), and the properties
    of its request router, command correlator, event translator, model
    registry and diff accumulator.

    Modelling conventions.
    - The module-level [let] variables of the program are the fields of
      [State]; every function that touches them takes and returns a state.
    - [console.log] appends a JSON value to [stdout]; a write to the
      child's stdin appends a command to [piStdin].
    - An [async] handler that reaches an [await] on something not yet
      settled is parked: on a timer or file/network operation in [parked],
      on a correlated command in [pendingRequests] (the stored
      resolve/reject pair is the rest of the handler, written as a [Sink]).
      Everything a handler does between two suspensions is one step.
    - Values read from the wire are given the shapes the program's [as]
      casts give them; a field that may be missing is an [option].
    - [uuidv4()], [new Date().toISOString()] and [process.cwd()] belong to
      the environment: they are the fields of [World].
    - [piProcess.kill()] is only called on the way to [process.exit], so no
      step sets [killed]; the field is kept for the test in
      [ensurePiProcess].
    - The usage query and the read of the credentials file end with the
      value the handler then sends ([Completion]). How that value is
      computed from the files and the HTTP answer is modelled apart
      ([fetchClaudeRateLimits], [authStatus]), for files and answers of
      the shapes the program's interfaces declare.
    - Strings are sequences of bytes, UTF-8 where a character is not
      ASCII. *)

From stdpp Require Import gmap strings list fin_maps pretty.
From Stdlib Require Import String Ascii ZArith Lia.

Open Scope string_scope.
Open Scope list_scope.

(** ** JavaScript string and truthiness primitives used by the adapter *)

Module Js.

(** [s.split(c)] for a one-character separator. *)
Fixpoint split (c : ascii) (s : string) : list string :=
  match s with
  | EmptyString => [""]
  | String a r =>
      if Ascii.eqb a c then "" :: split c r
      else match split c r with
           | [] => [String a ""]
           | h :: t => String a h :: t
           end
  end.

(** [l.join(sep)] on an array of strings. *)
Definition join (sep : string) (l : list string) : string :=
  String.concat sep l.

(** [s.startsWith(p)]. *)
Definition startsWith (s p : string) : bool := String.prefix p s.

(** [s.includes(sub)]. *)
Fixpoint includes (s sub : string) : bool :=
  String.prefix sub s ||
  match s with
  | EmptyString => false
  | String _ r => includes r sub
  end.

Definition lower_ascii (a : ascii) : ascii :=
  let n := nat_of_ascii a in
  if (65 <=? n)%nat && (n <=? 90)%nat then ascii_of_nat (n + 32) else a.

(** [s.toLowerCase()] on the ASCII letters. *)
Fixpoint toLowerCase (s : string) : string :=
  match s with
  | EmptyString => EmptyString
  | String a r => String (lower_ascii a) (toLowerCase r)
  end.

(** Truthiness of a possibly-missing string: [undefined] and [''] are
    falsy. *)
Definition truthy (o : option string) : bool :=
  match o with
  | Some s => negb (String.eqb s "")
  | None => false
  end.

(** [a || b] on possibly-missing strings. *)
Definition or (a b : option string) : option string :=
  if truthy a then a else b.

(** [a || d] where [d] is a string literal. *)
Definition or_else (a : option string) (d : string) : string :=
  match a with
  | Some s => if String.eqb s "" then d else s
  | None => d
  end.

(** [x === y] where [x] may be missing and [y] is a string. *)
Definition eqs (x : option string) (y : string) : bool :=
  match x with
  | Some s => String.eqb s y
  | None => false
  end.

Definition nl : string := String (ascii_of_nat 10) "".
Definition nl_char : ascii := ascii_of_nat 10.
Definition slash : ascii := "/"%char.

(** The double quote character, as a string. *)
Definition dquote : string := String (ascii_of_nat 34) "".

End Js.

(** ** JSON values, as built by the program before [JSON.stringify] *)

#[local] Set Warnings "-register-all".

Inductive json : Type :=
| JUndef
| JNull
| JBool (b : bool)
| JNum (n : Z)
| JStr (s : string)
| JArr (l : list json)
| JObj (fields : list (string * json)).

Definition jstr_opt (o : option string) : json :=
  match o with Some s => JStr s | None => JUndef end.

Definition jnum_opt (o : option Z) : json :=
  match o with Some n => JNum n | None => JUndef end.

(** Property read [o.k]: the first field named [k]; [undefined] when the
    value is not an object or has no such field. *)
Fixpoint assoc (k : string) (fs : list (string * json)) : json :=
  match fs with
  | [] => JUndef
  | (k', v) :: r => if String.eqb k k' then v else assoc k r
  end.

Definition jget (k : string) (j : json) : json :=
  match j with
  | JObj fs => assoc k fs
  | _ => JUndef
  end.

(** [k in o], for what [JSON.stringify] prints: a field whose value is
    [undefined] is not printed. *)
Definition jhas (k : string) (j : json) : bool :=
  match jget k j with
  | JUndef => false
  | _ => true
  end.

(** ** Wire types *)

(** *** The outer (Codex) dialect *)

Inductive ReqId : Type :=
| IdNum (n : Z)
| IdStr (s : string).

Definition jid (i : ReqId) : json :=
  match i with IdNum n => JNum n | IdStr s => JStr s end.

#[global] Instance ReqId_eq_dec : EqDecision ReqId.
Proof. solve_decision. Defined.

(** One entry of [params.input]. *)
Record InputBlock : Type := {
  in_type : option string;
  in_text : option string;
}.

(** The fields of [params] the handlers read. *)
Record Params : Type := {
  p_threadId : option string;
  p_input : option (list InputBlock);
  p_model : option string;
  p_cwd : option string;
  p_provider : option string;
  p_decision : option string;
}.

Record CodexRequest : Type := {
  req_id : ReqId;
  req_method : string;
  req_params : option Params;
}.

(** *** The inner (pi) dialect *)

Inductive PiCommandBody : Type :=
| set_model (provider modelId : string)
| new_session
| prompt (message : string)
| abort
| get_available_models.

Record PiCommand : Type := {
  cmd_id : string;
  cmd_body : PiCommandBody;
}.

Record ModelInfo : Type := {
  m_provider : string;
  m_id : string;
  m_name : option string;
  m_reasoning : bool;
}.

(** [response.data]; only [get_available_models] returns something the
    adapter reads. *)
Record PiData : Type := {
  d_models : option (list ModelInfo);
}.

Record PiResponse : Type := {
  resp_id : option string;
  resp_success : bool;
  resp_data : option PiData;
  resp_error : option string;
}.

Record ContentBlock : Type := {
  c_type : string;
  c_text : option string;
}.

Record Usage : Type := {
  u_input : option Z;
  u_output : option Z;
  u_cacheRead : option Z;
  u_cacheWrite : option Z;
}.

Record Message : Type := {
  msg_role : option string;
  msg_content : option (list ContentBlock);
  msg_usage : option Usage;
}.

Record ToolCall : Type := {
  tc_id : string;
  tc_name : string;
  tc_arguments : json;
}.

Record AssistantMessageEvent : Type := {
  ame_type : string;
  ame_delta : option string;
  ame_content : option string;
  ame_toolCall : option ToolCall;
}.

(** The fields of a tool's [args] the translator reads. *)
Record ToolArgs : Type := {
  a_command : option string;
  a_cmd : option string;
  a_path : option string;
  a_file_path : option string;
  a_file : option string;
  a_filename : option string;
  a_pattern : option string;
}.

Definition no_args : ToolArgs :=
  {| a_command := None; a_cmd := None; a_path := None; a_file_path := None;
     a_file := None; a_filename := None; a_pattern := None |}.

Record ToolDetails : Type := {
  det_diff : option string;
}.

Record ToolResult : Type := {
  r_content : option (list ContentBlock);
  r_details : option ToolDetails;
}.

Inductive PiEvent : Type :=
| agent_start
| agent_end
| message_start (message : option Message)
| message_update (assistantMessageEvent : option AssistantMessageEvent)
| message_end (message : option Message)
| tool_execution_start (toolName toolCallId : string) (args : option ToolArgs)
| tool_execution_update (toolCallId : string) (partialResult : option ToolResult)
| tool_execution_end (toolName toolCallId : string) (result : option ToolResult)
    (isError : bool) (args : option ToolArgs)
| auto_retry_start (errorMessage : option string)
| auto_retry_end (success : bool) (finalError : option string)
| hook_error (hookPath error : option string)
| other_event (type : string).

(** A line of the child's stdout, once parsed. *)
Inductive PiMessage : Type :=
| PiResp (r : PiResponse)
| PiEv (e : PiEvent).

(** ** The bridge state *)

(** What the process gets from its environment. *)
Record World : Type := {
  uuidv4 : nat -> string;       (* the n-th identifier the generator returns *)
  toISOString : nat -> string;  (* the n-th reading of the clock *)
  process_cwd : string;
}.

Record ChildProcess : Type := {
  killed : bool;
}.

(** The rest of a handler waiting for the answer to a command. *)
Inductive Sink : Type :=
| SinkStartup (req : CodexRequest)   (* ensurePiProcess: await set_model *)
| SinkIgnored                        (* only a .catch attached: new_session, prompt *)
| SinkSetModel (id : ReqId) (message : string)  (* turn/start: await set_model *)
| SinkAbort (id : ReqId)             (* turn/interrupt: await abort *)
| SinkModels (id : ReqId).           (* model/list: await get_available_models *)

(** The rest of a handler waiting on a timer, a file or the network. *)
Inductive Await : Type :=
| AwaitStartup (req : CodexRequest)  (* ensurePiProcess: setTimeout 100 *)
| AwaitRateLimits (id : ReqId)       (* fetchClaudeRateLimits() *)
| AwaitAuthFile (id : ReqId).        (* readFile(auth.json) *)

Record CachedTool : Type := {
  ct_toolName : string;
  ct_args : option ToolArgs;
}.

Record State : Type := {
  world : World;
  uuids : nat;                                   (* identifiers drawn so far *)
  clock : nat;                                   (* clock readings so far *)
  piProcess : option ChildProcess;
  piReader : bool;
  currentThreadId : option string;
  currentTurnId : option string;
  currentMessageId : option string;
  isProcessing : bool;
  pendingRequests : gmap string Sink;
  currentModel : string;
  currentProvider : string;
  cwd : string;
  toolArgsCache : gmap string CachedTool;
  accumulatedDiff : list string;
  modelProviderMap : gmap string string;
  parked : gmap nat Await;
  parks : nat;                                   (* suspensions created so far *)
  stdout : list json;                            (* lines written to the client *)
  piStdin : list PiCommand;                      (* lines written to the child *)
  spawns : nat;                                  (* children spawned so far *)
}.

Definition initial (w : World) : State :=
  {| world := w; uuids := 0; clock := 0;
     piProcess := None; piReader := false;
     currentThreadId := None; currentTurnId := None; currentMessageId := None;
     isProcessing := false; pendingRequests := ∅;
     currentModel := "claude-sonnet-4-20250514"; currentProvider := "anthropic";
     cwd := process_cwd w;
     toolArgsCache := ∅; accumulatedDiff := []; modelProviderMap := ∅;
     parked := ∅; parks := 0; stdout := []; piStdin := []; spawns := 0 |}.

(** Assignment to one variable. *)
Definition set_uuids (v : nat) (s : State) : State :=
  {| world := world s; uuids := v; clock := clock s; piProcess := piProcess s; piReader := piReader s; currentThreadId := currentThreadId s; currentTurnId := currentTurnId s; currentMessageId := currentMessageId s; isProcessing := isProcessing s; pendingRequests := pendingRequests s; currentModel := currentModel s; currentProvider := currentProvider s; cwd := cwd s; toolArgsCache := toolArgsCache s; accumulatedDiff := accumulatedDiff s; modelProviderMap := modelProviderMap s; parked := parked s; parks := parks s; stdout := stdout s; piStdin := piStdin s; spawns := spawns s |}.
Definition set_clock (v : nat) (s : State) : State :=
  {| world := world s; uuids := uuids s; clock := v; piProcess := piProcess s; piReader := piReader s; currentThreadId := currentThreadId s; currentTurnId := currentTurnId s; currentMessageId := currentMessageId s; isProcessing := isProcessing s; pendingRequests := pendingRequests s; currentModel := currentModel s; currentProvider := currentProvider s; cwd := cwd s; toolArgsCache := toolArgsCache s; accumulatedDiff := accumulatedDiff s; modelProviderMap := modelProviderMap s; parked := parked s; parks := parks s; stdout := stdout s; piStdin := piStdin s; spawns := spawns s |}.
Definition set_piProcess (v : option ChildProcess) (s : State) : State :=
  {| world := world s; uuids := uuids s; clock := clock s; piProcess := v; piReader := piReader s; currentThreadId := currentThreadId s; currentTurnId := currentTurnId s; currentMessageId := currentMessageId s; isProcessing := isProcessing s; pendingRequests := pendingRequests s; currentModel := currentModel s; currentProvider := currentProvider s; cwd := cwd s; toolArgsCache := toolArgsCache s; accumulatedDiff := accumulatedDiff s; modelProviderMap := modelProviderMap s; parked := parked s; parks := parks s; stdout := stdout s; piStdin := piStdin s; spawns := spawns s |}.
Definition set_piReader (v : bool) (s : State) : State :=
  {| world := world s; uuids := uuids s; clock := clock s; piProcess := piProcess s; piReader := v; currentThreadId := currentThreadId s; currentTurnId := currentTurnId s; currentMessageId := currentMessageId s; isProcessing := isProcessing s; pendingRequests := pendingRequests s; currentModel := currentModel s; currentProvider := currentProvider s; cwd := cwd s; toolArgsCache := toolArgsCache s; accumulatedDiff := accumulatedDiff s; modelProviderMap := modelProviderMap s; parked := parked s; parks := parks s; stdout := stdout s; piStdin := piStdin s; spawns := spawns s |}.
Definition set_currentThreadId (v : option string) (s : State) : State :=
  {| world := world s; uuids := uuids s; clock := clock s; piProcess := piProcess s; piReader := piReader s; currentThreadId := v; currentTurnId := currentTurnId s; currentMessageId := currentMessageId s; isProcessing := isProcessing s; pendingRequests := pendingRequests s; currentModel := currentModel s; currentProvider := currentProvider s; cwd := cwd s; toolArgsCache := toolArgsCache s; accumulatedDiff := accumulatedDiff s; modelProviderMap := modelProviderMap s; parked := parked s; parks := parks s; stdout := stdout s; piStdin := piStdin s; spawns := spawns s |}.
Definition set_currentTurnId (v : option string) (s : State) : State :=
  {| world := world s; uuids := uuids s; clock := clock s; piProcess := piProcess s; piReader := piReader s; currentThreadId := currentThreadId s; currentTurnId := v; currentMessageId := currentMessageId s; isProcessing := isProcessing s; pendingRequests := pendingRequests s; currentModel := currentModel s; currentProvider := currentProvider s; cwd := cwd s; toolArgsCache := toolArgsCache s; accumulatedDiff := accumulatedDiff s; modelProviderMap := modelProviderMap s; parked := parked s; parks := parks s; stdout := stdout s; piStdin := piStdin s; spawns := spawns s |}.
Definition set_currentMessageId (v : option string) (s : State) : State :=
  {| world := world s; uuids := uuids s; clock := clock s; piProcess := piProcess s; piReader := piReader s; currentThreadId := currentThreadId s; currentTurnId := currentTurnId s; currentMessageId := v; isProcessing := isProcessing s; pendingRequests := pendingRequests s; currentModel := currentModel s; currentProvider := currentProvider s; cwd := cwd s; toolArgsCache := toolArgsCache s; accumulatedDiff := accumulatedDiff s; modelProviderMap := modelProviderMap s; parked := parked s; parks := parks s; stdout := stdout s; piStdin := piStdin s; spawns := spawns s |}.
Definition set_isProcessing (v : bool) (s : State) : State :=
  {| world := world s; uuids := uuids s; clock := clock s; piProcess := piProcess s; piReader := piReader s; currentThreadId := currentThreadId s; currentTurnId := currentTurnId s; currentMessageId := currentMessageId s; isProcessing := v; pendingRequests := pendingRequests s; currentModel := currentModel s; currentProvider := currentProvider s; cwd := cwd s; toolArgsCache := toolArgsCache s; accumulatedDiff := accumulatedDiff s; modelProviderMap := modelProviderMap s; parked := parked s; parks := parks s; stdout := stdout s; piStdin := piStdin s; spawns := spawns s |}.
Definition set_pendingRequests (v : gmap string Sink) (s : State) : State :=
  {| world := world s; uuids := uuids s; clock := clock s; piProcess := piProcess s; piReader := piReader s; currentThreadId := currentThreadId s; currentTurnId := currentTurnId s; currentMessageId := currentMessageId s; isProcessing := isProcessing s; pendingRequests := v; currentModel := currentModel s; currentProvider := currentProvider s; cwd := cwd s; toolArgsCache := toolArgsCache s; accumulatedDiff := accumulatedDiff s; modelProviderMap := modelProviderMap s; parked := parked s; parks := parks s; stdout := stdout s; piStdin := piStdin s; spawns := spawns s |}.
Definition set_currentModel (v : string) (s : State) : State :=
  {| world := world s; uuids := uuids s; clock := clock s; piProcess := piProcess s; piReader := piReader s; currentThreadId := currentThreadId s; currentTurnId := currentTurnId s; currentMessageId := currentMessageId s; isProcessing := isProcessing s; pendingRequests := pendingRequests s; currentModel := v; currentProvider := currentProvider s; cwd := cwd s; toolArgsCache := toolArgsCache s; accumulatedDiff := accumulatedDiff s; modelProviderMap := modelProviderMap s; parked := parked s; parks := parks s; stdout := stdout s; piStdin := piStdin s; spawns := spawns s |}.
Definition set_currentProvider (v : string) (s : State) : State :=
  {| world := world s; uuids := uuids s; clock := clock s; piProcess := piProcess s; piReader := piReader s; currentThreadId := currentThreadId s; currentTurnId := currentTurnId s; currentMessageId := currentMessageId s; isProcessing := isProcessing s; pendingRequests := pendingRequests s; currentModel := currentModel s; currentProvider := v; cwd := cwd s; toolArgsCache := toolArgsCache s; accumulatedDiff := accumulatedDiff s; modelProviderMap := modelProviderMap s; parked := parked s; parks := parks s; stdout := stdout s; piStdin := piStdin s; spawns := spawns s |}.
Definition set_cwd (v : string) (s : State) : State :=
  {| world := world s; uuids := uuids s; clock := clock s; piProcess := piProcess s; piReader := piReader s; currentThreadId := currentThreadId s; currentTurnId := currentTurnId s; currentMessageId := currentMessageId s; isProcessing := isProcessing s; pendingRequests := pendingRequests s; currentModel := currentModel s; currentProvider := currentProvider s; cwd := v; toolArgsCache := toolArgsCache s; accumulatedDiff := accumulatedDiff s; modelProviderMap := modelProviderMap s; parked := parked s; parks := parks s; stdout := stdout s; piStdin := piStdin s; spawns := spawns s |}.
Definition set_toolArgsCache (v : gmap string CachedTool) (s : State) : State :=
  {| world := world s; uuids := uuids s; clock := clock s; piProcess := piProcess s; piReader := piReader s; currentThreadId := currentThreadId s; currentTurnId := currentTurnId s; currentMessageId := currentMessageId s; isProcessing := isProcessing s; pendingRequests := pendingRequests s; currentModel := currentModel s; currentProvider := currentProvider s; cwd := cwd s; toolArgsCache := v; accumulatedDiff := accumulatedDiff s; modelProviderMap := modelProviderMap s; parked := parked s; parks := parks s; stdout := stdout s; piStdin := piStdin s; spawns := spawns s |}.
Definition set_accumulatedDiff (v : list string) (s : State) : State :=
  {| world := world s; uuids := uuids s; clock := clock s; piProcess := piProcess s; piReader := piReader s; currentThreadId := currentThreadId s; currentTurnId := currentTurnId s; currentMessageId := currentMessageId s; isProcessing := isProcessing s; pendingRequests := pendingRequests s; currentModel := currentModel s; currentProvider := currentProvider s; cwd := cwd s; toolArgsCache := toolArgsCache s; accumulatedDiff := v; modelProviderMap := modelProviderMap s; parked := parked s; parks := parks s; stdout := stdout s; piStdin := piStdin s; spawns := spawns s |}.
Definition set_modelProviderMap (v : gmap string string) (s : State) : State :=
  {| world := world s; uuids := uuids s; clock := clock s; piProcess := piProcess s; piReader := piReader s; currentThreadId := currentThreadId s; currentTurnId := currentTurnId s; currentMessageId := currentMessageId s; isProcessing := isProcessing s; pendingRequests := pendingRequests s; currentModel := currentModel s; currentProvider := currentProvider s; cwd := cwd s; toolArgsCache := toolArgsCache s; accumulatedDiff := accumulatedDiff s; modelProviderMap := v; parked := parked s; parks := parks s; stdout := stdout s; piStdin := piStdin s; spawns := spawns s |}.
Definition set_parked (v : gmap nat Await) (s : State) : State :=
  {| world := world s; uuids := uuids s; clock := clock s; piProcess := piProcess s; piReader := piReader s; currentThreadId := currentThreadId s; currentTurnId := currentTurnId s; currentMessageId := currentMessageId s; isProcessing := isProcessing s; pendingRequests := pendingRequests s; currentModel := currentModel s; currentProvider := currentProvider s; cwd := cwd s; toolArgsCache := toolArgsCache s; accumulatedDiff := accumulatedDiff s; modelProviderMap := modelProviderMap s; parked := v; parks := parks s; stdout := stdout s; piStdin := piStdin s; spawns := spawns s |}.
Definition set_parks (v : nat) (s : State) : State :=
  {| world := world s; uuids := uuids s; clock := clock s; piProcess := piProcess s; piReader := piReader s; currentThreadId := currentThreadId s; currentTurnId := currentTurnId s; currentMessageId := currentMessageId s; isProcessing := isProcessing s; pendingRequests := pendingRequests s; currentModel := currentModel s; currentProvider := currentProvider s; cwd := cwd s; toolArgsCache := toolArgsCache s; accumulatedDiff := accumulatedDiff s; modelProviderMap := modelProviderMap s; parked := parked s; parks := v; stdout := stdout s; piStdin := piStdin s; spawns := spawns s |}.
Definition set_stdout (v : list json) (s : State) : State :=
  {| world := world s; uuids := uuids s; clock := clock s; piProcess := piProcess s; piReader := piReader s; currentThreadId := currentThreadId s; currentTurnId := currentTurnId s; currentMessageId := currentMessageId s; isProcessing := isProcessing s; pendingRequests := pendingRequests s; currentModel := currentModel s; currentProvider := currentProvider s; cwd := cwd s; toolArgsCache := toolArgsCache s; accumulatedDiff := accumulatedDiff s; modelProviderMap := modelProviderMap s; parked := parked s; parks := parks s; stdout := v; piStdin := piStdin s; spawns := spawns s |}.
Definition set_piStdin (v : list PiCommand) (s : State) : State :=
  {| world := world s; uuids := uuids s; clock := clock s; piProcess := piProcess s; piReader := piReader s; currentThreadId := currentThreadId s; currentTurnId := currentTurnId s; currentMessageId := currentMessageId s; isProcessing := isProcessing s; pendingRequests := pendingRequests s; currentModel := currentModel s; currentProvider := currentProvider s; cwd := cwd s; toolArgsCache := toolArgsCache s; accumulatedDiff := accumulatedDiff s; modelProviderMap := modelProviderMap s; parked := parked s; parks := parks s; stdout := stdout s; piStdin := v; spawns := spawns s |}.
Definition set_spawns (v : nat) (s : State) : State :=
  {| world := world s; uuids := uuids s; clock := clock s; piProcess := piProcess s; piReader := piReader s; currentThreadId := currentThreadId s; currentTurnId := currentTurnId s; currentMessageId := currentMessageId s; isProcessing := isProcessing s; pendingRequests := pendingRequests s; currentModel := currentModel s; currentProvider := currentProvider s; cwd := cwd s; toolArgsCache := toolArgsCache s; accumulatedDiff := accumulatedDiff s; modelProviderMap := modelProviderMap s; parked := parked s; parks := parks s; stdout := stdout s; piStdin := piStdin s; spawns := v |}.

(** ** Output helpers *)

(** The object [sendCodexResponse] prints. *)
Definition responseValue (id : ReqId) (result : json)
    (error : option (Z * string)) : json :=
  match error with
  | Some (code, message) =>
      JObj [("jsonrpc", JStr "2.0"); ("id", jid id);
            ("error", JObj [("code", JNum code); ("message", JStr message)])]
  | None =>
      JObj [("jsonrpc", JStr "2.0"); ("id", jid id); ("result", result)]
  end.

Definition sendCodexResponse (id : ReqId) (result : json)
    (error : option (Z * string)) (s : State) : State :=
  set_stdout (stdout s ++ [responseValue id result error]) s.

(** The object [sendCodexNotification] prints. *)
Definition notificationValue (method : string) (params : option json) : json :=
  match params with
  | Some p => JObj [("jsonrpc", JStr "2.0"); ("method", JStr method); ("params", p)]
  | None => JObj [("jsonrpc", JStr "2.0"); ("method", JStr method)]
  end.

Definition sendCodexNotification (method : string) (params : option json)
    (s : State) : State :=
  set_stdout (stdout s ++ [notificationValue method params]) s.

(** [uuidv4()] and [new Date().toISOString()]. *)
Definition draw (s : State) : string * State :=
  (uuidv4 (world s) (uuids s), set_uuids (S (uuids s)) s).

Definition now (s : State) : string * State :=
  (toISOString (world s) (clock s), set_clock (S (clock s)) s).

(** ** Command correlator: sending *)

(** [sendPiCommand]: [None] is the promise rejected at once with
    'Pi process not running'; otherwise the sink is stored under a fresh
    identifier and the line is written to the child. *)
Definition sendPiCommand (body : PiCommandBody) (k : Sink) (s : State)
    : option State :=
  match piProcess s with
  | None => None
  | Some _ =>
      let (id, s1) := draw s in
      let s2 := set_pendingRequests (<[id := k]> (pendingRequests s1)) s1 in
      Some (set_piStdin (piStdin s2 ++ [{| cmd_id := id; cmd_body := body |}]) s2)
  end.

(** A command whose promise only has a [.catch] that logs. *)
Definition sendPiCommand_detached (body : PiCommandBody) (s : State) : State :=
  match sendPiCommand body SinkIgnored s with
  | Some s' => s'
  | None => s
  end.

(** ** Event translator *)

Definition isCommand (toolName : string) : bool :=
  String.eqb toolName "bash" || String.eqb toolName "Bash".

Definition isFileChange (toolName : string) : bool :=
  existsb (String.eqb toolName) ["edit"; "Edit"; "write"; "Write"].

Definition argCommand (args : option ToolArgs) : string :=
  Js.or_else (Js.or (args ≫= a_command) (args ≫= a_cmd)) "".

Definition argFilePath (args : option ToolArgs) : string :=
  Js.or_else
    (Js.or (Js.or (Js.or (args ≫= a_path) (args ≫= a_file_path)) (args ≫= a_file))
       (args ≫= a_filename)) "".

Definition argPattern (args : option ToolArgs) : string :=
  Js.or_else (args ≫= a_pattern) "".

Definition orDot (p : string) : string := Js.or_else (Some p) ".".

(** The display string of a read-like tool. *)
Definition displayCmd (toolName filePath pattern : string) : string :=
  if String.eqb toolName "read" || String.eqb toolName "Read" then
    "read " +:+ filePath
  else if String.eqb toolName "ls" then
    "ls " +:+ orDot filePath
  else if String.eqb toolName "find" then
    "find " +:+ Js.dquote +:+ pattern +:+ Js.dquote +:+ " in " +:+ orDot filePath
  else if String.eqb toolName "grep" then
    "grep /" +:+ pattern +:+ "/ in " +:+ orDot filePath
  else if String.eqb filePath "" then toolName
  else toolName +:+ " " +:+ filePath.

Definition toolType (toolName : string) : string :=
  if isCommand toolName then "commandExecution"
  else if isFileChange toolName then "fileChange"
  else "commandExecution".

Definition toolDetail (toolName : string) (args : option ToolArgs) : string :=
  if isCommand toolName then argCommand args
  else if isFileChange toolName then argFilePath args
  else displayCmd toolName (argFilePath args) (argPattern args).

(** The [command] field of a tool item. *)
Definition toolCommandField (toolName : string) (args : option ToolArgs) : json :=
  if negb (isFileChange toolName) then
    JStr (if isCommand toolName then argCommand args else toolDetail toolName args)
  else JUndef.

Definition changeKind (toolName : string) : string :=
  if String.eqb (Js.toLowerCase toolName) "write" then "create" else "edit".

(** [content?.find(c => c.type === 'text')]. *)
Definition findText (content : option (list ContentBlock)) : option ContentBlock :=
  content ≫= List.find (fun c => String.eqb (c_type c) "text").

(** The header and body of a full-addition diff for [fileContent]. *)
Definition additionDiff (filePath fileContent : string) : string :=
  let lines :=
    Js.join Js.nl (map (fun l => "+" +:+ l) (Js.split Js.nl_char fileContent)) in
  let header :=
    "--- /dev/null" +:+ Js.nl +:+ "+++ b/" +:+ filePath +:+ Js.nl +:+
    "@@ -0,0 +1," +:+ pretty (List.length (Js.split Js.nl_char fileContent)) +:+
    " @@" +:+ Js.nl in
  header +:+ lines.

Definition suppliedDiff (filePath diff : string) : string :=
  let header :=
    "--- a/" +:+ filePath +:+ Js.nl +:+ "+++ b/" +:+ filePath +:+ Js.nl in
  header +:+ diff.

(** The push onto [accumulatedDiff] at tool_execution_end of a file
    change. *)
Definition accumulate (filePath : string) (diff : option string)
    (text : option ContentBlock) (acc : list string) : list string :=
  if Js.truthy diff then
    acc ++ [suppliedDiff filePath (default "" diff)]
  else
    let fileContent := Js.or_else (text ≫= c_text) "" in
    if negb (String.eqb fileContent "") then
      acc ++ [additionDiff filePath fileContent]
    else acc.

Definition diffSeparator : string := Js.nl +:+ Js.nl.

Definition errorNotification (threadId turnId message : string)
    (willRetry : bool) : State -> State :=
  sendCodexNotification "error"
    (Some (JObj [("threadId", JStr threadId); ("turnId", JStr turnId);
                 ("error", JObj [("message", JStr message)]);
                 ("willRetry", JBool willRetry)])).

(** [currentTurnId || uuidv4()]: a fresh identifier is drawn only when no
    turn is current. *)
Definition turnIdOrFresh (s : State) : string * State :=
  if Js.truthy (currentTurnId s) then (default "" (currentTurnId s), s)
  else draw s.

Definition toolItem (toolName toolCallId : string) (args : option ToolArgs)
    (cwd : string) (tail : list (string * json)) : json :=
  JObj ([("id", JStr toolCallId);
         ("type", JStr (toolType toolName));
         ("toolType", JStr (toolType toolName));
         ("command", toolCommandField toolName args);
         ("cwd", JStr cwd)] ++ tail).

Definition translate_message_update (threadId : string)
    (ev : AssistantMessageEvent) (s : State) : State :=
  let eventType := ame_type ev in
  if String.eqb eventType "text_delta" then
    sendCodexNotification "item/agentMessage/delta"
      (Some (JObj [("threadId", JStr threadId);
                   ("itemId", JStr (Js.or_else (currentMessageId s) "msg-0"));
                   ("delta", jstr_opt (ame_delta ev))])) s
  else if String.eqb eventType "thinking_start" then
    sendCodexNotification "item/started"
      (Some (JObj [("threadId", JStr threadId);
                   ("item", JObj [("id", JStr "thinking");
                                  ("type", JStr "reasoning");
                                  ("status", JStr "inProgress")])])) s
  else if String.eqb eventType "thinking_delta" then
    sendCodexNotification "item/reasoning/textDelta"
      (Some (JObj [("threadId", JStr threadId);
                   ("itemId", JStr "thinking");
                   ("delta", jstr_opt (ame_delta ev))])) s
  else if String.eqb eventType "thinking_end" then
    let content := Js.or_else (ame_content ev) "" in
    sendCodexNotification "item/completed"
      (Some (JObj [("threadId", JStr threadId);
                   ("item", JObj [("id", JStr "thinking");
                                  ("type", JStr "reasoning");
                                  ("status", JStr "completed");
                                  ("content", JStr content);
                                  ("summary", JStr content)])])) s
  else if String.eqb eventType "toolcall_end" then
    match ame_toolCall ev with
    | Some toolCall =>
        sendCodexNotification "item/started"
          (Some (JObj [("threadId", JStr threadId);
                       ("item", JObj [("id", JStr (tc_id toolCall));
                                      ("type", JStr "commandExecution");
                                      ("name", JStr (tc_name toolCall));
                                      ("arguments", tc_arguments toolCall);
                                      ("status", JStr "inProgress")])])) s
    | None => s
    end
  else s.

Definition translate_message_end (threadId : string) (message : Message)
    (s : State) : State :=
  let textBlocks :=
    match msg_content message with
    | Some content => List.filter (fun b => String.eqb (c_type b) "text") content
    | None => []
    end in
  let text := Js.join Js.nl (map (fun b => default "" (c_text b)) textBlocks) in
  let (messageId, s1) :=
    if Js.truthy (currentMessageId s) then (default "" (currentMessageId s), s)
    else draw s in
  let s2 := set_currentMessageId None s1 in
  let s3 :=
    sendCodexNotification "item/completed"
      (Some (JObj [("threadId", JStr threadId);
                   ("item", JObj [("id", JStr messageId);
                                  ("type", JStr "agentMessage");
                                  ("text", JStr text);
                                  ("status", JStr "completed")])])) s2 in
  match msg_usage message with
  | Some usage =>
      sendCodexNotification "thread/tokenUsage/updated"
        (Some (JObj [("threadId", JStr threadId);
                     ("tokenUsage",
                      JObj [("inputTokens", jnum_opt (u_input usage));
                            ("outputTokens", jnum_opt (u_output usage));
                            ("cacheReadTokens", jnum_opt (u_cacheRead usage));
                            ("cacheWriteTokens", jnum_opt (u_cacheWrite usage))])])) s3
  | None => s3
  end.

Definition translate_tool_start (threadId toolName toolCallId : string)
    (args : option ToolArgs) (s : State) : State :=
  let s1 :=
    set_toolArgsCache
      (<[toolCallId := {| ct_toolName := toolName; ct_args := args |}]>
         (toolArgsCache s)) s in
  let filePath := argFilePath args in
  sendCodexNotification "item/started"
    (Some (JObj [("threadId", JStr threadId);
                 ("item",
                  toolItem toolName toolCallId args (cwd s1)
                    [("status", JStr "inProgress");
                     ("changes",
                      if isFileChange toolName then
                        JArr [JObj [("path", JStr filePath);
                                    ("kind", JStr (changeKind toolName))]]
                      else JUndef)])])) s1.

(** The arguments [tool_execution_end] translates with:
    [cached?.args || event.args || {}]. *)
Definition resolvedArgs (s : State) (toolCallId : string)
    (evArgs : option ToolArgs) : option ToolArgs :=
  match (toolArgsCache s !! toolCallId) ≫= ct_args with
  | Some a => Some a
  | None => evArgs
  end.

Definition translate_tool_end (threadId toolName toolCallId : string)
    (result : option ToolResult) (isError : bool) (evArgs : option ToolArgs)
    (s : State) : State :=
  let args := resolvedArgs s toolCallId evArgs in
  let s1 := set_toolArgsCache (delete toolCallId (toolArgsCache s)) s in
  let text := findText (result ≫= r_content) in
  let diff := (result ≫= r_details) ≫= det_diff in
  let filePath := argFilePath args in
  let s2 :=
    sendCodexNotification "item/completed"
      (Some (JObj [("threadId", JStr threadId);
                   ("item",
                    toolItem toolName toolCallId args (cwd s1)
                      [("aggregatedOutput", JStr (Js.or_else (text ≫= c_text) ""));
                       ("exitCode", JNum (if isError then 1 else 0));
                       ("status", JStr (if isError then "error" else "completed"));
                       ("changes",
                        if isFileChange toolName then
                          JArr [JObj [("path", JStr filePath);
                                      ("kind", JStr (changeKind toolName));
                                      ("diff", jstr_opt diff)]]
                        else JUndef)])])) s1 in
  if isFileChange toolName then
    let s3 := set_accumulatedDiff (accumulate filePath diff text (accumulatedDiff s2)) s2 in
    if (0 <? List.length (accumulatedDiff s3))%nat then
      sendCodexNotification "turn/diff/updated"
        (Some (JObj [("threadId", JStr threadId);
                     ("diff", JStr (Js.join diffSeparator (accumulatedDiff s3)))])) s3
    else s3
  else s2.

Definition translatePiEventToCodex (event : PiEvent) (s0 : State) : State :=
  let threadId := Js.or_else (currentThreadId s0) "default" in
  let (turnId, s) := turnIdOrFresh s0 in
  let turn status :=
    JObj [("turn", JObj [("id", JStr turnId); ("threadId", JStr threadId);
                         ("status", JStr status)])] in
  match event with
  | agent_start =>
      let s1 := set_isProcessing true s in
      let s2 := set_accumulatedDiff [] s1 in
      sendCodexNotification "turn/started" (Some (turn "inProgress")) s2
  | agent_end =>
      let s1 := set_isProcessing false s in
      let s2 := sendCodexNotification "turn/completed" (Some (turn "completed")) s1 in
      set_currentTurnId None s2
  | message_start message =>
      if Js.eqs (message ≫= msg_role) "assistant" then
        let (id, s1) := draw s in
        let s2 := set_currentMessageId (Some id) s1 in
        sendCodexNotification "item/started"
          (Some (JObj [("threadId", JStr threadId);
                       ("item", JObj [("id", JStr id);
                                      ("type", JStr "agentMessage");
                                      ("status", JStr "inProgress")])])) s2
      else s
  | message_update assistantEvent =>
      match assistantEvent with
      | Some ev => translate_message_update threadId ev s
      | None => s
      end
  | message_end message =>
      match message with
      | Some m =>
          if Js.eqs (msg_role m) "assistant" then translate_message_end threadId m s
          else s
      | None => s
      end
  | tool_execution_start toolName toolCallId args =>
      translate_tool_start threadId toolName toolCallId args s
  | tool_execution_update toolCallId partialResult =>
      match findText (partialResult ≫= r_content) with
      | Some text =>
          sendCodexNotification "item/commandExecution/outputDelta"
            (Some (JObj [("threadId", JStr threadId);
                         ("itemId", JStr toolCallId);
                         ("delta", jstr_opt (c_text text))])) s
      | None => s
      end
  | tool_execution_end toolName toolCallId result isError args =>
      translate_tool_end threadId toolName toolCallId result isError args s
  | auto_retry_start errorMessage =>
      errorNotification threadId turnId
        ("Retrying: " +:+ Js.or_else errorMessage "Transient error") true s
  | auto_retry_end success finalError =>
      if negb success && Js.truthy finalError then
        errorNotification threadId turnId (default "" finalError) false s
      else s
  | hook_error hookPath error =>
      errorNotification threadId turnId
        ("Hook error (" +:+ Js.or_else hookPath "" +:+ "): " +:+
         Js.or_else error "Hook error") false s
  | other_event _ => s
  end.

(** ** Model registry *)

(** The composite identifier advertised for a model. *)
Definition compositeId (m : ModelInfo) : string :=
  m_provider m +:+ "/" +:+ m_id m.

(** The provider guessed from a legacy model name. *)
Definition guessProvider (model : string) : string :=
  if Js.startsWith model "claude" then "anthropic"
  else if Js.startsWith model "gpt" || Js.startsWith model "o1"
          || Js.startsWith model "o3" then "openai"
  else if Js.startsWith model "gemini" then "google"
  else if Js.startsWith model "mistral" || Js.startsWith model "codestral"
          || Js.startsWith model "devstral" then "mistral"
  else if Js.startsWith model "grok" || Js.includes model "pickle"
          || Js.includes model "glm" || Js.includes model "minimax" then "opencode"
  else "anthropic".

(** The [(provider, modelId)] that turn/start derives from its [model]
    parameter. *)
Definition resolveModel (registry : gmap string string) (model : string)
    : string * string :=
  if Js.includes model "/" then
    let parts := Js.split Js.slash model in
    (default "" (head parts), Js.join "/" (tail parts))
  else
    let provider := Js.or_else (registry !! model) "" in
    (if String.eqb provider "" then guessProvider model else provider, model).

(** The loop of model/list that fills the registry. *)
Definition recordModels (models : list ModelInfo) (registry : gmap string string)
    : gmap string string :=
  foldl (fun reg m => <[compositeId m := m_provider m]> reg) registry models.

Definition effort (name description : string) : json :=
  JObj [("reasoningEffort", JStr name); ("description", JStr description)].

Definition modelEntry (currentModel : string) (m : ModelInfo) : json :=
  JObj [("id", JStr (compositeId m));
        ("model", JStr (m_id m));
        ("provider", JStr (m_provider m));
        ("displayName", JStr (Js.or_else (m_name m) (m_id m)));
        ("description", JStr (m_provider m +:+ " model"));
        ("supportedReasoningEfforts",
         if m_reasoning m then
           JArr [effort "low" "Light reasoning"; effort "medium" "Balanced";
                 effort "high" "Deep reasoning"]
         else JArr [effort "default" "Standard"]);
        ("defaultReasoningEffort",
         JStr (if m_reasoning m then "medium" else "default"));
        ("isDefault", JBool (String.eqb (compositeId m) currentModel));
        ("backend", JStr "pi")].

Definition fallbackEntry (id displayName : string) (isDefault : bool) : json :=
  JObj [("id", JStr id); ("model", JStr id); ("displayName", JStr displayName);
        ("supportedReasoningEfforts", JArr [effort "default" "Standard"]);
        ("defaultReasoningEffort", JStr "default");
        ("isDefault", JBool isDefault);
        ("backend", JStr "claude")].

Definition fallbackModels : json :=
  JObj [("data",
         JArr [fallbackEntry "claude-opus-4-20250514" "Claude Opus 4" false;
               fallbackEntry "claude-sonnet-4-20250514" "Claude Sonnet 4" true;
               fallbackEntry "claude-3-5-sonnet-20241022" "Claude 3.5 Sonnet" false])].

(** ** Request router *)

(** The error response of the outer [catch] of [handleCodexRequest]. *)
Definition respondThrown (id : ReqId) (message : string) : State -> State :=
  sendCodexResponse id JUndef (Some ((-32000)%Z, message)).

Definition notRunning : string := "Pi process not running".

Definition successResult : json := JObj [("success", JBool true)].

Definition jstr_or_null (o : option string) : json :=
  match o with Some s => JStr s | None => JNull end.

(** [textInputs.map(i => i.text).join('\n')]. *)
Definition textOfInput (input : option (list InputBlock)) : string :=
  let textInputs :=
    match input with
    | Some l => List.filter (fun i => Js.eqs (in_type i) "text") l
    | None => []
    end in
  Js.join Js.nl (map (fun i => default "" (in_text i)) textInputs).

(** turn/start from "Send response immediately" on. *)
Definition turnStart_reply (id : ReqId) (message : string) (s : State) : State :=
  let s1 :=
    sendCodexResponse id
      (JObj [("turn", JObj [("id", jstr_or_null (currentTurnId s));
                            ("items", JArr []);
                            ("status", JStr "inProgress")])]) None s in
  sendPiCommand_detached (prompt message) s1.

Definition turnStart (id : ReqId) (params : option Params) (s : State) : State :=
  let threadId := params ≫= p_threadId in
  let input := params ≫= p_input in
  let model := params ≫= p_model in
  let (thread, s1) :=
    let known := Js.or threadId (currentThreadId s) in
    if Js.truthy known then (default "" known, s) else draw s in
  let s2 := set_currentThreadId (Some thread) s1 in
  let (turn, s3) := draw s2 in
  let s4 := set_currentTurnId (Some turn) s3 in
  let message := textOfInput input in
  if String.eqb message "" then
    sendCodexResponse id JUndef (Some ((-32000)%Z, "No text input provided")) s4
  else if Js.truthy model && negb (String.eqb (default "" model) (currentModel s4)) then
    let s5 := set_currentModel (default "" model) s4 in
    let '(provider, modelId) := resolveModel (modelProviderMap s5) (default "" model) in
    let s6 := set_currentProvider provider s5 in
    match sendPiCommand (set_model provider modelId) (SinkSetModel id message) s6 with
    | Some s7 => s7
    | None => respondThrown id notRunning s6
    end
  else turnStart_reply id message s4.

Definition modelList_reply (id : ReqId) (data : option PiData) (s : State) : State :=
  let models := default [] (data ≫= d_models) in
  let s1 := set_modelProviderMap (recordModels models (modelProviderMap s)) s in
  sendCodexResponse id
    (JObj [("data", JArr (map (modelEntry (currentModel s1)) models))]) None s1.

Definition park (a : Await) (s : State) : State :=
  set_parks (S (parks s)) (set_parked (<[parks s := a]> (parked s)) s).

(** The [switch (method)] of [handleCodexRequest]. *)
Definition dispatch (req : CodexRequest) (s : State) : State :=
  let id := req_id req in
  let params := req_params req in
  let method := req_method req in
  if String.eqb method "initialize" then
    sendCodexResponse id
      (JObj [("protocolVersion", JStr "2.0");
             ("capabilities", JObj [("threads", JBool true);
                                    ("turns", JBool true);
                                    ("models", JBool true)])]) None s
  else if String.eqb method "thread/start" then
    let (thread, s1) := draw s in
    let s2 := set_currentThreadId (Some thread) s1 in
    let s3 := set_cwd (Js.or_else (params ≫= p_cwd) (process_cwd (world s2))) s2 in
    let s4 := sendPiCommand_detached new_session s3 in
    let (createdAt, s5) := now s4 in
    sendCodexResponse id
      (JObj [("thread", JObj [("id", jstr_or_null (currentThreadId s5));
                              ("name", JStr "New Thread");
                              ("createdAt", JStr createdAt)])]) None s5
  else if String.eqb method "thread/resume" then
    let (thread, s1) :=
      if Js.truthy (params ≫= p_threadId) then (default "" (params ≫= p_threadId), s)
      else draw s in
    let s2 := set_currentThreadId (Some thread) s1 in
    sendCodexResponse id
      (JObj [("thread", JObj [("id", JStr thread); ("items", JArr []);
                              ("status", JStr "ready")])]) None s2
  else if String.eqb method "thread/list" then
    if Js.truthy (currentThreadId s) then
      let (createdAt, s1) := now s in
      sendCodexResponse id
        (JObj [("threads",
                JArr [JObj [("id", jstr_or_null (currentThreadId s1));
                            ("name", JStr "Current Session");
                            ("createdAt", JStr createdAt)]])]) None s1
    else sendCodexResponse id (JObj [("threads", JArr [])]) None s
  else if String.eqb method "thread/archive" then
    sendCodexResponse id successResult None (set_currentThreadId None s)
  else if String.eqb method "turn/start" then
    turnStart id params s
  else if String.eqb method "turn/interrupt" || String.eqb method "thread/interrupt" then
    match sendPiCommand abort (SinkAbort id) s with
    | Some s1 => s1
    | None => respondThrown id notRunning s
    end
  else if String.eqb method "model/list" then
    match sendPiCommand get_available_models (SinkModels id) s with
    | Some s1 => s1
    | None => sendCodexResponse id fallbackModels None s
    end
  else if String.eqb method "skills/list" then
    sendCodexResponse id (JObj [("skills", JArr [])]) None s
  else if String.eqb method "account/rateLimits"
          || String.eqb method "account/rateLimits/read" then
    park (AwaitRateLimits id) s
  else if String.eqb method "codex/respondToRequest" then
    sendCodexResponse id successResult None s
  else if String.eqb method "auth/status" then
    park (AwaitAuthFile id) s
  else if String.eqb method "auth/login" then
    if negb (Js.truthy (params ≫= p_provider)) then
      sendCodexResponse id JUndef (Some ((-32602)%Z, "provider parameter required")) s
    else
      let provider := default "" (params ≫= p_provider) in
      sendCodexResponse id
        (JObj [("success", JBool false);
               ("message",
                JStr ("To authenticate with " +:+ provider +:+ ", run: pi --provider "
                      +:+ provider));
               ("instructions",
                JArr [JStr "1. Open Terminal";
                      JStr ("2. Run: pi --provider " +:+ provider);
                      JStr "3. Follow the OAuth flow in your browser";
                      JStr "4. Return to CodexMonitor and reconnect the workspace"])])
        None s
  else
    sendCodexResponse id JUndef
      (Some ((-32601)%Z, "Method not found: " +:+ method)) s.

(** ** Agent supervisor *)

Definition alive (s : State) : bool :=
  match piProcess s with
  | Some p => negb (killed p)
  | None => false
  end.

(** [spawn(...)] and the wiring of the child's pipes. *)
Definition spawn (s : State) : State :=
  let s1 := set_piProcess (Some {| killed := false |}) s in
  let s2 := set_spawns (S (spawns s1)) s1 in
  set_piReader true s2.

(** [handleCodexRequest]: [await ensurePiProcess()] returns at once when a
    child is running; otherwise a child is spawned and the handler waits
    for the start-up timer. *)
Definition handleCodexRequest (req : CodexRequest) (s : State) : State :=
  if alive s then dispatch req s
  else park (AwaitStartup req) (spawn s).

(** [ensurePiProcess] after the timer: "Set the model". *)
Definition startup_setModel (req : CodexRequest) (s : State) : State :=
  match sendPiCommand (set_model "anthropic" (currentModel s)) (SinkStartup req) s with
  | Some s1 => s1
  | None => respondThrown (req_id req) notRunning s
  end.

(** [piProcess.on('exit')]. *)
Definition onPiExit (s : State) : State :=
  set_piReader false (set_piProcess None s).

(** ** Command correlator: settling *)

Definition resolve (k : Sink) (data : option PiData) (s : State) : State :=
  match k with
  | SinkStartup req => dispatch req s
  | SinkIgnored => s
  | SinkSetModel id message => turnStart_reply id message s
  | SinkAbort id =>
      sendCodexResponse id successResult None (set_isProcessing false s)
  | SinkModels id => modelList_reply id data s
  end.

Definition reject (k : Sink) (message : string) (s : State) : State :=
  match k with
  | SinkStartup req => respondThrown (req_id req) message s
  | SinkIgnored => s
  | SinkSetModel id _ => respondThrown id message s
  | SinkAbort id => respondThrown id message s
  | SinkModels id => sendCodexResponse id fallbackModels None s
  end.

Definition handlePiMessage (msg : PiMessage) (s : State) : State :=
  match msg with
  | PiResp response =>
      if Js.truthy (resp_id response) then
        let id := default "" (resp_id response) in
        match pendingRequests s !! id with
        | Some k =>
            let s1 := set_pendingRequests (delete id (pendingRequests s)) s in
            if resp_success response then resolve k (resp_data response) s1
            else reject k (Js.or_else (resp_error response) "Unknown error") s1
        | None => s
        end
      else s
  | PiEv event => translatePiEventToCodex event s
  end.

(** ** The event loop *)

(** How a timer, the usage query or the credentials read ends. The value
    of a successful query or read is what the handler then sends. *)
Inductive Completion : Type :=
| TimerFired
| RateLimitsDone (r : string + json)
| AuthFileDone (r : string + json).

Definition complete (a : Await) (c : Completion) (s : State) : option State :=
  match a, c with
  | AwaitStartup req, TimerFired => Some (startup_setModel req s)
  | AwaitRateLimits id, RateLimitsDone (inr rateLimits) =>
      Some (sendCodexResponse id (JObj [("rateLimits", rateLimits)]) None s)
  | AwaitRateLimits id, RateLimitsDone (inl _) =>
      Some (sendCodexResponse id
              (JObj [("primary", JNull); ("secondary", JNull); ("credits", JNull)])
              None s)
  | AwaitAuthFile id, AuthFileDone (inr providers) =>
      Some (sendCodexResponse id (JObj [("providers", providers)]) None s)
  | AwaitAuthFile id, AuthFileDone (inl _) =>
      Some (sendCodexResponse id (JObj [("providers", JArr [])]) None s)
  | _, _ => None
  end.

Inductive Input : Type :=
| InClient (req : CodexRequest)        (* a line of stdin that parsed *)
| InPi (msg : PiMessage)               (* a line of the child's stdout that parsed *)
| InPiExit                             (* the child's 'exit' event *)
| InDone (k : nat) (c : Completion).   (* the k-th suspension settles *)

Definition step (s : State) (i : Input) : State :=
  match i with
  | InClient req =>
      if String.eqb (req_method req) "" then s
      else handleCodexRequest req s
  | InPi msg => handlePiMessage msg s
  | InPiExit => onPiExit s
  | InDone k c =>
      match parked s !! k with
      | Some a =>
          match complete a c (set_parked (delete k (parked s)) s) with
          | Some s' => s'
          | None => s
          end
      | None => s
      end
  end.

Definition run (s : State) (tr : list Input) : State := foldl step s tr.

(** [main]: the connected notification, then the loop. *)
Definition boot (w : World) : State :=
  sendCodexNotification "codex/connected" (Some (JObj [])) (initial w).

(** ** Reading the client's side of the wire *)

Definition isResponse (j : json) : bool :=
  jhas "id" j && (jhas "result" j || jhas "error" j).

Definition isNotification (j : json) : bool :=
  jhas "method" j && negb (jhas "id" j).

Definition methodOf (j : json) : option string :=
  match jget "method" j with JStr m => Some m | _ => None end.

(** The [diff] payload of a turn/diff/updated notification. *)
Definition diffPayload (j : json) : option string :=
  match methodOf j with
  | Some m =>
      if String.eqb m "turn/diff/updated" then
        match jget "diff" (jget "params" j) with
        | JStr d => Some d
        | _ => None
        end
      else None
  | None => None
  end.

(** The item identifier of an item/started or item/completed
    notification. *)
Definition itemLifecycleId (j : json) : option json :=
  match methodOf j with
  | Some m =>
      if String.eqb m "item/started" || String.eqb m "item/completed" then
        Some (jget "id" (jget "item" (jget "params" j)))
      else None
  | None => None
  end.

(** What a run wrote to the client after [s]. *)
Definition emitted (s s' : State) : list json :=
  drop (List.length (stdout s)) (stdout s').

Definition payloads (out : list json) : list string := omap diffPayload out.



Definition isAgentStart (i : Input) : bool :=
  match i with
  | InPi (PiEv agent_start) => true
  | _ => false
  end.

(** ** A concrete environment and concrete messages *)

Module Sample.

Definition w : World :=
  {| uuidv4 := λ n, "uuid-" +:+ pretty n;
     toISOString := λ n, "2026-01-01T00:00:0" +:+ pretty n +:+ "Z";
     process_cwd := "/work" |}.

Definition request (id : Z) (method : string) (params : option Params)
    : CodexRequest :=
  {| req_id := IdNum id; req_method := method; req_params := params |}.

Definition turnParams (text : string) (model : option string) : Params :=
  {| p_threadId := None;
     p_input := Some [{| in_type := Some "text"; in_text := Some text |}];
     p_model := model; p_cwd := None; p_provider := None; p_decision := None |}.

Definition ok (id : string) (data : option PiData) : Input :=
  InPi (PiResp {| resp_id := Some id; resp_success := true;
                  resp_data := data; resp_error := None |}).

(** The bridge once its child runs and has acknowledged the first
    set_model. *)
Definition running : State :=
  run (boot w)
    [InClient (request 0 "initialize" None); InDone 0 TimerFired; ok "uuid-0" None].


Definition textResult (text : string) (diff : option string) : ToolResult :=
  {| r_content := Some [{| c_type := "text"; c_text := Some text |}];
     r_details := option_map (λ d, {| det_diff := Some d |}) diff |}.

Definition textDelta (delta : string) : PiEvent :=
  message_update (Some {| ame_type := "text_delta"; ame_delta := Some delta;
                          ame_content := None; ame_toolCall := None |}).

(** The bridge waiting for the answer to get_available_models, sent for
    request 8 under the identifier uuid-1. *)
Definition listing : State :=
  step running (InClient (request 8 "model/list" None)).

Definition model (provider id : string) : ModelInfo :=
  {| m_provider := provider; m_id := id; m_name := None; m_reasoning := false |}.

Definition answerModels (models : list ModelInfo) : Input :=
  InPi (PiResp {| resp_id := Some "uuid-1"; resp_success := true;
                  resp_data := Some {| d_models := Some models |};
                  resp_error := None |}).

End Sample.

(** ** Relations and observations on runs *)

(** What a request handler, a settled command or an exit may do to the
    translator's variables and to the client: nothing to the former, and
    only values without a method (responses) to the latter. *)
Definition handlerStep (s s' : State) : Prop :=
  world s' = world s ∧ toolArgsCache s' = toolArgsCache s ∧
  accumulatedDiff s' = accumulatedDiff s ∧
  currentMessageId s' = currentMessageId s ∧
  ∃ out, stdout s' = stdout s ++ out ∧ Forall (λ j, methodOf j = None) out.

(** Tool events of the call [id]. *)
Definition startsTool (id : string) (i : Input) : bool :=
  match i with
  | InPi (PiEv (tool_execution_start _ id' _)) => String.eqb id' id
  | _ => false
  end.

Definition endsTool (id : string) (i : Input) : bool :=
  match i with
  | InPi (PiEv (tool_execution_end _ id' _ _ _)) => String.eqb id' id
  | _ => false
  end.

(** No tool_execution_end of the call [id] occurs in [tr]. *)
Definition noEnd (id : string) (tr : list Input) : Prop :=
  Forall (λ i, endsTool id i = false) tr.

(** The tool-args cache after one input. *)
Definition cacheAfter (i : Input) (cache : gmap string CachedTool)
    : gmap string CachedTool :=
  match i with
  | InPi (PiEv (tool_execution_start name id args)) =>
      <[id := {| ct_toolName := name; ct_args := args |}]> cache
  | InPi (PiEv (tool_execution_end _ id _ _ _)) => delete id cache
  | _ => cache
  end.


(** The accumulator as it is sent in turn/diff/updated. *)
Definition joined (acc : list string) : string := Js.join diffSeparator acc.

(** What one step may do to the accumulator and to the diff payloads sent:
    the accumulator only grows, and at most one payload is sent, the
    accumulator joined. *)
Definition diffStep (s s' : State) : Prop :=
  ∃ out, stdout s' = stdout s ++ out ∧
         accumulatedDiff s `prefix_of` accumulatedDiff s' ∧
         (payloads out = [] ∨
          (accumulatedDiff s' ≠ [] ∧ payloads out = [joined (accumulatedDiff s')])).

(** The input carries [id] as a tool-call identifier that the translator
    echoes as an item identifier. *)
Definition usesToolId (id : string) (i : Input) : bool :=
  match i with
  | InPi (PiEv (tool_execution_start _ id' _)) => String.eqb id' id
  | InPi (PiEv (tool_execution_end _ id' _ _ _)) => String.eqb id' id
  | InPi (PiEv (message_update (Some ev))) =>
      String.eqb (ame_type ev) "toolcall_end" &&
      match ame_toolCall ev with
      | Some toolCall => String.eqb (tc_id toolCall) id
      | None => false
      end
  | _ => false
  end.

(** [j] is not an item/started or item/completed of the item [id]. *)
Definition notItem (id : string) (j : json) : Prop :=
  itemLifecycleId j ≠ Some (JStr id).

(** The delta notification sent while no assistant message is open. *)
Definition orphanDelta (threadId : string) (delta : option string) : json :=
  JObj [("jsonrpc", JStr "2.0"); ("method", JStr "item/agentMessage/delta");
        ("params", JObj [("threadId", JStr threadId); ("itemId", JStr "msg-0");
                         ("delta", jstr_opt delta)])].

(** What one step may do to the open message and to the item lifecycle
    notifications sent. *)
Definition lifecycleStep (s s' : State) : Prop :=
  world s' = world s ∧ currentMessageId s' ≠ Some "msg-0" ∧
  ∃ out, stdout s' = stdout s ++ out ∧ Forall (notItem "msg-0") out.

(** ** Accounting of requests and responses *)

(** The identifier a value written to the client carries, if any. *)
Definition idOf (j : json) : option ReqId :=
  match jget "id" j with
  | JNum n => Some (IdNum n)
  | JStr s => Some (IdStr s)
  | _ => None
  end.

(** The request a stored sink, or a parked handler, will answer. *)
Definition sinkOwner (k : Sink) : option ReqId :=
  match k with
  | SinkStartup req => Some (req_id req)
  | SinkIgnored => None
  | SinkSetModel id _ => Some id
  | SinkAbort id => Some id
  | SinkModels id => Some id
  end.

(** The request a parked handler will answer. *)
Definition awaitOwner (a : Await) : ReqId :=
  match a with
  | AwaitStartup req => req_id req
  | AwaitRateLimits id => id
  | AwaitAuthFile id => id
  end.

(** Values written to the client that carry the identifier [R]. *)
Definition answers (R : ReqId) (out : list json) : nat :=
  List.length (filter (λ j, idOf j = Some R) out).

(** Handlers of requests with identifier [R] that are still waiting. *)
Definition waitingSinks (R : ReqId) (m : gmap string Sink) : nat :=
  size (filter (λ kv, sinkOwner kv.2 = Some R) m).

(** The same for the handlers parked on a timer, the network or a file. *)
Definition waitingParked (R : ReqId) (m : gmap nat Await) : nat :=
  size (filter (λ kv, awaitOwner kv.2 = R) m).

(** All handlers of requests with identifier [R] that are waiting. *)
Definition waiting (R : ReqId) (s : State) : nat :=
  waitingSinks R (pendingRequests s) + waitingParked R (parked s).

(** The input is a request with identifier [R] that the line handler
    passes on. *)
Definition asks (R : ReqId) (i : Input) : bool :=
  match i with
  | InClient req =>
      bool_decide (req_id req = R) && negb (String.eqb (req_method req) "")
  | _ => false
  end.

(** The number of such requests in a trace. *)
Definition asked (R : ReqId) (tr : list Input) : nat :=
  List.length (filter (λ i, asks R i) tr).

(** Keys of the two tables are identifiers and tickets already handed
    out. *)
Definition wellKeyed (s : State) : Prop :=
  (∀ k sink, pendingRequests s !! k = Some sink →
             ∃ n, (n < uuids s)%nat ∧ k = uuidv4 (world s) n) ∧
  (∀ k a, parked s !! k = Some a → (k < parks s)%nat).

(** A value is well-formed for the outer dialect: a response, or a
    notification without an identifier. *)
Definition wellFormed (j : json) : Prop :=
  (isResponse j = true ∧ methodOf j = None) ∨
  (isNotification j = true ∧ idOf j = None).

(** A truth value as a count. *)
Definition unit_of (b : bool) : nat := if b then 1%nat else 0%nat.

(** The response has a result or an error. *)
Definition answerOk (result : json) (error : option (Z * string)) : bool :=
  match error, result with
  | Some _, _ => true
  | None, JUndef => false
  | None, _ => true
  end.

(** What handling the request [id] up to its next suspension, or to its
    end, does: it answers once (possibly leaving a detached command
    behind), or it waits for a command, or for a timer, the network or a
    file. *)
Inductive handled (id : ReqId) (s s' : State) : Prop :=
| handled_answer (result : json) (error : option (Z * string)) (extra : option nat) :
    world s' = world s → (uuids s ≤ uuids s')%nat →
    parks s' = parks s → parked s' = parked s →
    stdout s' = stdout s ++ [responseValue id result error] →
    answerOk result error = true →
    pendingRequests s' =
      match extra with
      | Some n => <[uuidv4 (world s) n := SinkIgnored]> (pendingRequests s)
      | None => pendingRequests s
      end →
    match extra with
    | Some n => (uuids s ≤ n < uuids s')%nat
    | None => True
    end →
    handled id s s'
| handled_command (n : nat) (k : Sink) :
    world s' = world s → parks s' = parks s → parked s' = parked s →
    stdout s' = stdout s →
    pendingRequests s' = <[uuidv4 (world s) n := k]> (pendingRequests s) →
    sinkOwner k = Some id →
    (uuids s ≤ n < uuids s')%nat →
    handled id s s'
| handled_io (a : Await) :
    world s' = world s → (uuids s ≤ uuids s')%nat →
    stdout s' = stdout s → pendingRequests s' = pendingRequests s →
    parked s' = <[parks s := a]> (parked s) → awaitOwner a = id →
    parks s' = S (parks s) →
    handled id s s'.

(** What an event of the agent, or its exit, does: notifications only. *)
Definition passive (s s' : State) : Prop :=
  world s' = world s ∧ (uuids s ≤ uuids s')%nat ∧
  parks s' = parks s ∧ parked s' = parked s ∧
  pendingRequests s' = pendingRequests s ∧
  ∃ out, stdout s' = stdout s ++ out ∧
         Forall (λ j, ∃ method params, j = notificationValue method params) out.

(** Values that carry [R] plus handlers of [R] that wait. *)
Definition balance (R : ReqId) (s : State) : nat :=
  (answers R (stdout s) + waiting R s)%nat.

(** The effect of one step on that count, [d R] being what the step adds
    for the identifier [R]. *)
Definition accounted (d : ReqId → nat) (s s' : State) : Prop :=
  wellKeyed s' ∧ world s' = world s ∧
  (∀ R, balance R s' = (balance R s + d R)%nat) ∧
  ∃ out, stdout s' = stdout s ++ out ∧ Forall wellFormed out.


(** Every key of the registry is a composite identifier. *)
Definition compositeKeys (registry : gmap string string) : Prop :=
  ∀ k p, registry !! k = Some p → Js.includes k "/" = true.

(** What one step may do to the registry. *)
Definition registryStep (s s' : State) : Prop :=
  modelProviderMap s' = modelProviderMap s ∨
  ∃ models, modelProviderMap s' = recordModels models (modelProviderMap s).

(** The values the statements below name. *)

Definition initializeResult : json :=
  JObj [("protocolVersion", JStr "2.0");
        ("capabilities", JObj [("threads", JBool true); ("turns", JBool true);
                               ("models", JBool true)])].

Definition noTextError (id : ReqId) : json :=
  JObj [("jsonrpc", JStr "2.0"); ("id", jid id);
        ("error", JObj [("code", JNum (-32000));
                        ("message", JStr "No text input provided")])].

(** ** Inputs and outputs the later statements name *)

(** An answer of the agent to the command [id]. *)
Definition answer (id : string) (success : bool) (data : option PiData)
    (error : option string) : Input :=
  InPi (PiResp {| resp_id := Some id; resp_success := success;
                  resp_data := data; resp_error := error |}).

(** An event of the agent. *)
Definition event (e : PiEvent) : Input := InPi (PiEv e).

(** A line written to the agent. *)
Definition command (id : string) (body : PiCommandBody) : PiCommand :=
  {| cmd_id := id; cmd_body := body |}.

(** The error response of the outer [catch]. *)
Definition thrown (id : ReqId) (message : string) : json :=
  responseValue id JUndef (Some ((-32000)%Z, message)).

(** The result of turn/start. *)
Definition turnValue (turn : string) : json :=
  JObj [("turn", JObj [("id", JStr turn); ("items", JArr []);
                       ("status", JStr "inProgress")])].

(** turn/started and turn/completed. *)
Definition turnEvent (method turn thread status : string) : json :=
  notificationValue method
    (Some (JObj [("turn", JObj [("id", JStr turn); ("threadId", JStr thread);
                                ("status", JStr status)])])).

(** The result of thread/list while a thread is current. *)
Definition threadListed (id createdAt : string) : json :=
  JObj [("threads",
         JArr [JObj [("id", JStr id); ("name", JStr "Current Session");
                     ("createdAt", JStr createdAt)]])].

(** The [case] labels of the [switch] of [handleCodexRequest]. *)
Definition routedMethods : list string :=
  ["initialize"; "thread/start"; "thread/resume"; "thread/list"; "thread/archive";
   "turn/start"; "turn/interrupt"; "thread/interrupt"; "model/list"; "skills/list";
   "account/rateLimits"; "account/rateLimits/read"; "codex/respondToRequest";
   "auth/status"; "auth/login"].

(** The methods answered without the agent, a file or the network. *)
Definition localMethods : list string :=
  ["initialize"; "thread/resume"; "thread/list"; "thread/archive"; "skills/list";
   "codex/respondToRequest"; "auth/login"].

(** A message of the assistant. *)
Definition assistant (content : option (list ContentBlock)) (usage : option Usage)
    : option Message :=
  Some {| msg_role := Some "assistant"; msg_content := content; msg_usage := usage |}.

Definition textDeltaEvent (delta : option string) : PiEvent :=
  message_update (Some {| ame_type := "text_delta"; ame_delta := delta;
                          ame_content := None; ame_toolCall := None |}).

(** item/started and item/completed of an assistant message. *)
Definition messageItem (method thread id : string) (rest : list (string * json))
    : json :=
  notificationValue method
    (Some (JObj [("threadId", JStr thread);
                 ("item", JObj ([("id", JStr id); ("type", JStr "agentMessage")]
                                ++ rest))])).

(** The text of the completed item: the text blocks joined by line feeds. *)
Definition messageText (content : option (list ContentBlock)) : string :=
  Js.join Js.nl
    (map (λ b, default "" (c_text b))
       (List.filter (λ b, String.eqb (c_type b) "text") (default [] content))).


(** The item a notification carries. *)
Definition itemOf (j : json) : json := jget "item" (jget "params" j).

(** The model entries of a model/list answer. *)
Definition modelEntries (s : State) (data : option PiData) : list json :=
  map (modelEntry (currentModel s)) (default [] (data ≫= d_models)).

(** What one step may write to the agent: nothing, or one command under an
    identifier drawn during the step; a sink is only stored together with
    such a command. *)
Definition writeStep (s s' : State) : Prop :=
  world s' = world s ∧ (uuids s ≤ uuids s')%nat ∧
  ((piStdin s' = piStdin s ∧
    ∀ k, pendingRequests s' !! k ≠ None → pendingRequests s !! k ≠ None) ∨
   ∃ n body,
     (uuids s ≤ n < uuids s')%nat ∧
     piStdin s' = piStdin s ++ [{| cmd_id := uuidv4 (world s) n; cmd_body := body |}] ∧
     ∀ k, pendingRequests s' !! k ≠ None →
          pendingRequests s !! k ≠ None ∨ k = uuidv4 (world s) n).

(** Identifiers of the commands written so far. *)
Definition commandIds (s : State) : list string := map cmd_id (piStdin s).

(** ** The turn diff panel: [parseSimpleDiff] *)

Module Panel.

Inductive LineType : Type := add | del | context | header | hunk.

Record SimpleDiffLine : Type := {
  type : LineType;
  text : string;
}.

(** [line.slice(1)]. *)
Definition slice1 (line : string) : string :=
  match line with
  | EmptyString => EmptyString
  | String _ r => r
  end.

(** [!line.trim()]: the line consists of white space and line terminators
    only. Strings being byte sequences, the characters beyond ASCII are
    recognised by their UTF-8 encodings (U+00A0, U+1680, U+2000 to U+200A,
    U+2028, U+2029, U+202F, U+205F, U+3000, U+FEFF). *)
Fixpoint blank (line : string) : bool :=
  match line with
  | EmptyString => true
  | String a r =>
      let n := nat_of_ascii a in
      if ((9 <=? n) && (n <=? 13) || (n =? 32))%nat then blank r
      else
        match r with
        | String b r1 =>
            let m := nat_of_ascii b in
            if (n =? 194)%nat then (m =? 160)%nat && blank r1
            else
              match r1 with
              | String c r2 =>
                  let k := nat_of_ascii c in
                  (((n =? 225) && (m =? 154) && (k =? 128))
                   || ((n =? 226) && (m =? 128)
                       && ((128 <=? k) && (k <=? 138) || (k =? 168) || (k =? 169)
                           || (k =? 175)))
                   || ((n =? 226) && (m =? 129) && (k =? 159))
                   || ((n =? 227) && (m =? 128) && (k =? 128))
                   || ((n =? 239) && (m =? 187) && (k =? 191)))%nat
                  && blank r2
              | EmptyString => false
              end
        | EmptyString => false
        end
  end.

(** One round of the loop of [parseSimpleDiff]: what is pushed for a line. *)
Definition parseLine (line : string) : option SimpleDiffLine :=
  if Js.startsWith line "--- " || Js.startsWith line "+++ " then
    Some {| type := header; text := line |}
  else if Js.startsWith line "@@" then Some {| type := hunk; text := line |}
  else if Js.startsWith line "+" then Some {| type := add; text := slice1 line |}
  else if Js.startsWith line "-" then Some {| type := del; text := slice1 line |}
  else if Js.startsWith line " " then Some {| type := context; text := slice1 line |}
  else if negb (blank line) then Some {| type := context; text := line |}
  else None.

Definition parseSimpleDiff (diff : string) : list SimpleDiffLine :=
  omap parseLine (Js.split Js.nl_char diff).

End Panel.

(** ** Claude usage limits *)

(** The [anthropic] entry of pi's auth.json and the [claudeAiOauth] entry
    of Claude's credentials file, with the fields the program reads. *)
Record PiAnthropic : Type := {
  pa_access : option string;
  pa_refresh : option string;
  pa_expires : option Z;
}.

Record ClaudeAiOauth : Type := {
  accessToken : option string;
  refreshToken : option string;
  expiresAt : option Z;
}.

Record ClaudeOAuthCredentials : Type := {
  access : string;
  refresh : option string;
  expires : option Z;
}.

Record OAuthUsageWindow : Type := {
  utilization : option Z;
  resets_at : option string;
}.

Record ExtraUsage : Type := {
  is_enabled : option bool;
  monthly_limit : option Z;
  used_credits : option Z;
}.

Record OAuthUsageResponse : Type := {
  five_hour : option OAuthUsageWindow;
  seven_day : option OAuthUsageWindow;
  extra_usage : option ExtraUsage;
}.

(** What [fetch] resolves to; [body] is [response.json()], [inl] when
    that, or reading a field of its value, throws. *)
Record Response : Type := {
  ok : bool;
  status : Z;
  body : string + OAuthUsageResponse;
}.

(** What the usage query finds outside the process. A file is [None] when
    reading or parsing it throws, an entry is [None] when the parsed
    object has none; [fetchUsage] takes the Authorization header and is
    [inl] when [fetch] throws; [balanceText limit used] is the text of
    [((limit - used) / 100).toFixed(2)]. *)
Record Host : Type := {
  piAuthFile : option (option PiAnthropic);
  claudeCredFile : option (option ClaudeAiOauth);
  dateNow : Z;
  fetchUsage : string → string + Response;
  balanceText : Z → Z → string;
}.

(** Truthiness of a possibly-missing number. *)
Definition truthyNum (o : option Z) : bool :=
  match o with
  | Some n => negb (n =? 0)%Z
  | None => false
  end.

Definition loadClaudeCredentials (h : Host) : option ClaudeOAuthCredentials :=
  let fromClaude :=
    match mjoin (claudeCredFile h) with
    | Some c =>
        if Js.truthy (accessToken c) then
          Some {| access := default "" (accessToken c);
                  refresh := refreshToken c; expires := expiresAt c |}
        else None
    | None => None
    end in
  match mjoin (piAuthFile h) with
  | Some a =>
      if Js.truthy (pa_access a) then
        Some {| access := default "" (pa_access a);
                refresh := pa_refresh a; expires := pa_expires a |}
      else fromClaude
  | None => fromClaude
  end.

Definition usageWindow (w : option OAuthUsageWindow) (windowMinutes : Z) : json :=
  match w with
  | Some w =>
      JObj [("usedPercent", JNum (default 0%Z (utilization w)));
            ("resetsAt", jstr_opt (resets_at w));
            ("windowMinutes", JNum windowMinutes)]
  | None => JNull
  end.

Definition usageCredits (h : Host) (e : option ExtraUsage) : json :=
  if default false (e ≫= is_enabled) then
    JObj [("hasCredits", JBool true); ("unlimited", JBool false);
          ("balance",
           match e ≫= used_credits, e ≫= monthly_limit with
           | Some used, Some limit => JStr (balanceText h limit used)
           | _, _ => JNull
           end)]
  else
    JObj [("hasCredits", JBool false); ("unlimited", JBool false);
          ("balance", JNull)].

(** [fetchClaudeRateLimits]: [inl] is the message of the error thrown. *)
Definition fetchClaudeRateLimits (h : Host) : string + json :=
  match loadClaudeCredentials h with
  | None => inl "No Claude OAuth credentials found"
  | Some creds =>
      if truthyNum (expires creds) && (default 0 (expires creds) <? dateNow h)%Z then
        inl "Claude OAuth token expired"
      else
        match fetchUsage h ("Bearer " +:+ access creds) with
        | inl message => inl message
        | inr response =>
            if negb (ok response) then
              inl ("OAuth API error: " +:+ pretty (status response))
            else
              match body response with
              | inl message => inl message
              | inr usage =>
                  inr (JObj [("primary", usageWindow (five_hour usage) (5 * 60));
                             ("secondary",
                              usageWindow (seven_day usage) (7 * 24 * 60));
                             ("credits", usageCredits h (extra_usage usage))])
              end
        end
  end.

(** How the suspension of account/rateLimits ends on this host. *)
Definition usageDone (h : Host) : Completion :=
  RateLimitsDone (fetchClaudeRateLimits h).

Definition with_claudeCredFile (v : option (option ClaudeAiOauth)) (h : Host) : Host :=
  {| piAuthFile := piAuthFile h; claudeCredFile := v; dateNow := dateNow h;
     fetchUsage := fetchUsage h; balanceText := balanceText h |}.

Definition with_fetchUsage (v : string → string + Response) (h : Host) : Host :=
  {| piAuthFile := piAuthFile h; claudeCredFile := claudeCredFile h;
     dateNow := dateNow h; fetchUsage := v; balanceText := balanceText h |}.

Definition noLimits : json :=
  JObj [("primary", JNull); ("secondary", JNull); ("credits", JNull)].

(** ** auth/status *)

(** A credential of pi's auth.json, with the fields the program reads. *)
Record StoredCredential : Type := {
  cred_type : option string;
  cred_expires : option Z;
}.

(** What auth/status finds outside the process: [Object.entries] of the
    parsed auth.json ([inl] when reading or parsing the file throws), what
    the successive calls of [Date.now()] return, and the text
    [new Date(ms).toISOString()] gives for a time value in range. *)
Record AuthHost : Type := {
  authEntries : string + list (string * StoredCredential);
  authNow : nat → Z;
  isoOfMillis : Z → string;
}.

Record Provider : Type := {
  pr_name : string;
  pr_type : string;
  pr_authenticated : bool;
  pr_expired : bool;
  pr_expiresAt : option string;
}.

(** The largest time value of a [Date], in milliseconds. *)
Definition maxTime : Z := 8640000000000000.

Definition validTime (ms : Z) : bool := (Z.abs ms <=? maxTime)%Z.

(** The callback of [Object.entries(auth).map], [k] calls of [Date.now()]
    having been made: [inl] when [toISOString] throws. *)
Definition providerOf (h : AuthHost) (k : nat) (entry : string * StoredCredential)
    : string + Provider :=
  let '(name, cred) := entry in
  let expired :=
    if truthyNum (cred_expires cred)
    then (default 0 (cred_expires cred) <? authNow h k)%Z else false in
  if truthyNum (cred_expires cred) then
    if validTime (default 0%Z (cred_expires cred)) then
      inr {| pr_name := name; pr_type := Js.or_else (cred_type cred) "unknown";
             pr_authenticated := true; pr_expired := expired;
             pr_expiresAt := Some (isoOfMillis h (default 0%Z (cred_expires cred))) |}
    else inl "Invalid time value"
  else
    inr {| pr_name := name; pr_type := Js.or_else (cred_type cred) "unknown";
           pr_authenticated := true; pr_expired := expired; pr_expiresAt := None |}.

Fixpoint providersOf (h : AuthHost) (k : nat)
    (entries : list (string * StoredCredential)) : string + list Provider :=
  match entries with
  | [] => inr []
  | e :: r =>
      match providerOf h k e with
      | inl m => inl m
      | inr p =>
          match providersOf h (if truthyNum (cred_expires e.2) then S k else k) r with
          | inl m => inl m
          | inr ps => inr (p :: ps)
          end
      end
  end.

Definition knownProviders : list string :=
  ["anthropic"; "openai-codex"; "github-copilot"; "google-gemini-cli";
   "google-antigravity"].

Definition unauthenticated (p : string) : Provider :=
  {| pr_name := p; pr_type := "oauth"; pr_authenticated := false;
     pr_expired := false; pr_expiresAt := None |}.

(** The loop over [knownProviders]. *)
Definition addKnown (known : list string) (providers : list Provider)
    : list Provider :=
  foldl (λ acc p,
           if existsb (λ pr, String.eqb (pr_name pr) p) acc then acc
           else acc ++ [unauthenticated p])
        providers known.

Definition providerJson (p : Provider) : json :=
  JObj [("name", JStr (pr_name p)); ("type", JStr (pr_type p));
        ("authenticated", JBool (pr_authenticated p));
        ("expired", JBool (pr_expired p));
        ("expiresAt", match pr_expiresAt p with Some t => JStr t | None => JNull end)].

(** The body of the [try] of auth/status: the value of [providers]. *)
Definition authStatus (h : AuthHost) : string + json :=
  match authEntries h with
  | inl m => inl m
  | inr entries =>
      match providersOf h 0 entries with
      | inl m => inl m
      | inr providers => inr (JArr (map providerJson (addKnown knownProviders providers)))
      end
  end.

Definition authDone (h : AuthHost) : Completion := AuthFileDone (authStatus h).

(** ** Concrete inputs for the later statements *)

Module Examples.

(** The trace that leads to [Sample.running]. *)
Definition started : list Input :=
  [InClient (Sample.request 0 "initialize" None); InDone 0 TimerFired;
   Sample.ok "uuid-0" None].

Definition turnRequest (id : Z) (text : string) (model : option string)
    : CodexRequest :=
  Sample.request id "turn/start" (Some (Sample.turnParams text model)).

(** The bridge within a turn. *)
Definition inTurn : State :=
  step Sample.running (InClient (turnRequest 2 "hi" None)).

Definition threadParams (thread : string) : Params :=
  {| p_threadId := Some thread; p_input := None; p_model := None; p_cwd := None;
     p_provider := None; p_decision := None |}.

Definition noInput : Params :=
  {| p_threadId := None; p_input := Some []; p_model := None; p_cwd := None;
     p_provider := None; p_decision := None |}.

(** A host with a token in pi's auth.json that expired at 5, asked at 9. *)
Definition expiredHost : Host :=
  {| piAuthFile :=
       Some (Some {| pa_access := Some "tok"; pa_refresh := None;
                     pa_expires := Some 5%Z |});
     claudeCredFile := None; dateNow := 9%Z;
     fetchUsage := λ _, inl "offline";
     balanceText := λ _ _, "0.00" |}.

(** An auth.json with one credential, of a provider that is not a known
    one. *)
Definition authHost : AuthHost :=
  {| authEntries := inr [("openrouter", {| cred_type := Some "api_key";
                                           cred_expires := None |})];
     authNow := λ _, 9%Z;
     isoOfMillis := λ _, "1970-01-01T00:00:00.000Z" |}.

End Examples.

(** * Properties *)

(** ** Basic facts about the primitives *)

Lemma alive_process (s : State) :
  alive s = true → ∃ p, piProcess s = Some p.
Proof. unfold alive. destruct (piProcess s); [eauto | discriminate]. Qed.

Lemma step_client (s : State) (req : CodexRequest) :
  req_method req ≠ "" →
  step s (InClient req) = handleCodexRequest req s.
Proof.
  intros Hm. simpl. destruct (String.eqb_spec (req_method req) ""); congruence.
Qed.

Lemma handle_alive (s : State) (req : CodexRequest) :
  alive s = true → handleCodexRequest req s = dispatch req s.
Proof. intros H. unfold handleCodexRequest. by rewrite H. Qed.

Lemma handle_not_alive (s : State) (req : CodexRequest) :
  alive s = false →
  handleCodexRequest req s = park (AwaitStartup req) (spawn s).
Proof. intros H. unfold handleCodexRequest. by rewrite H. Qed.

(** A request that finds no running child: the child is spawned, the
    handler waits for the start-up timer, and when it fires the adapter
    writes set_model and waits for the answer. Nothing has been written to
    the client by then. *)
Lemma startup_traffic (s : State) (req : CodexRequest) :
  req_method req ≠ "" → alive s = false →
  let s1 := step s (InClient req) in
  let s2 := step s1 (InDone (parks s) TimerFired) in
  let id := uuidv4 (world s) (uuids s) in
  spawns s1 = S (spawns s) ∧ stdout s1 = stdout s ∧ piStdin s1 = piStdin s ∧
  parked s1 !! parks s = Some (AwaitStartup req) ∧
  stdout s2 = stdout s ∧
  piStdin s2 =
    piStdin s ++ [{| cmd_id := id;
                     cmd_body := set_model "anthropic" (currentModel s) |}] ∧
  pendingRequests s2 !! id = Some (SinkStartup req).
Proof.
  intros Hm Hdead. cbv zeta.
  rewrite step_client, handle_not_alive by done.
  assert (Hp : parked (park (AwaitStartup req) (spawn s)) !! parks s
               = Some (AwaitStartup req)).
  { simpl. apply lookup_insert_eq. }
  repeat split; try done.
  all: unfold step; rewrite Hp; simpl; try done.
  apply lookup_insert_eq.
Qed.

(** ** Frame of the request handlers *)

Ltac split_branches :=
  repeat match goal with
         | |- context [if ?b then _ else _] => destruct b
         | |- context [match ?x with _ => _ end] => destruct x
         end.

Ltac handler_step :=
  split_branches; simpl;
  repeat (split; [reflexivity |]);
  first [ exists []; split; [by rewrite app_nil_r | constructor]
        | eexists [_]; split; [reflexivity | by repeat constructor] ].

Ltac unfold_handlers :=
  unfold handlerStep, dispatch, turnStart, turnStart_reply, modelList_reply,
    sendPiCommand_detached, sendPiCommand, draw, now, park, respondThrown,
    sendCodexResponse, resolveModel.

Lemma handlerStep_dispatch req s : handlerStep s (dispatch req s).
Proof. unfold_handlers. simpl. handler_step. Qed.

Lemma handlerStep_trans s1 s2 s3 :
  handlerStep s1 s2 → handlerStep s2 s3 → handlerStep s1 s3.
Proof.
  intros (A1 & A2 & A3 & A4 & o1 & A5 & A6) (B1 & B2 & B3 & B4 & o2 & B5 & B6).
  repeat (split; [congruence |]).
  exists (o1 ++ o2). split; [by rewrite B5, A5, app_assoc | by apply Forall_app].
Qed.

Lemma handlerStep_resolve k data s : handlerStep s (resolve k data s).
Proof.
  destruct k; simpl; try apply handlerStep_dispatch;
    unfold_handlers; simpl; handler_step.
Qed.

Lemma handlerStep_reject k msg s : handlerStep s (reject k msg s).
Proof. destruct k; simpl; unfold_handlers; simpl; handler_step. Qed.

Lemma handlerStep_step s i :
  (∀ e, i ≠ InPi (PiEv e)) → handlerStep s (step s i).
Proof.
  intros Hi. destruct i as [req | [r | e] | | k c]; simpl.
  - destruct (String.eqb _ _); [unfold handlerStep; handler_step |].
    unfold handleCodexRequest. destruct (alive s); [apply handlerStep_dispatch |].
    unfold_handlers. simpl. handler_step.
  - destruct (Js.truthy _); [| unfold handlerStep; handler_step].
    destruct (pendingRequests s !! _) as [k |]; [| unfold handlerStep; handler_step].
    eapply handlerStep_trans; [| destruct (resp_success r);
      [apply handlerStep_resolve | apply handlerStep_reject]].
    unfold handlerStep; handler_step.
  - by destruct (Hi e).
  - unfold handlerStep; handler_step.
  - destruct (parked s !! k) as [a |]; [| unfold handlerStep; handler_step].
    destruct a, c as [| [|] | [|]]; simpl; unfold startup_setModel;
      unfold_handlers; simpl; handler_step.
Qed.

Lemma step_cache s i : toolArgsCache (step s i) = cacheAfter i (toolArgsCache s).
Proof.
  destruct i as [req | [r | e] | | k c];
    try (apply (handlerStep_step s); intros e; discriminate).
  simpl. unfold translatePiEventToCodex, turnIdOrFresh, draw.
  destruct e; simpl;
    unfold translate_message_update, translate_message_end, translate_tool_start,
      translate_tool_end, errorNotification, draw;
    split_branches; reflexivity.
Qed.

Lemma running_alive : alive Sample.running = true.
Proof. vm_compute. reflexivity. Qed.

(** ** initialize *)

(** C2, as the program behaves: with a child running, initialize writes
    one response (protocol version 2.0, the three capability flags) and
    changes nothing else. With no child running it first spawns one, and
    after the start-up timer writes set_model to it; the client has no
    response until that command is answered. *)
Theorem C2_initialize (s : State) (req : CodexRequest) :
  req_method req = "initialize" →
  (alive s = true →
   step s (InClient req) =
     set_stdout
       (stdout s ++ [JObj [("jsonrpc", JStr "2.0"); ("id", jid (req_id req));
                           ("result", initializeResult)]]) s) ∧
  (alive s = false →
   let s1 := step s (InClient req) in
   let s2 := step s1 (InDone (parks s) TimerFired) in
   spawns s1 = S (spawns s) ∧ stdout s2 = stdout s ∧
   piStdin s2 =
     piStdin s ++ [{| cmd_id := uuidv4 (world s) (uuids s);
                      cmd_body := set_model "anthropic" (currentModel s) |}]).
Proof.
  intros Hm. split; intros Ha.
  - rewrite step_client, handle_alive by (done || by rewrite Hm).
    unfold dispatch. by rewrite Hm.
  - pose proof (startup_traffic s req) as H. cbv zeta in *.
    destruct H as (? & ? & ? & ? & ? & ? & ?); [by rewrite Hm | done | done].
Qed.

Lemma C2_initialize_witness :
  let req := Sample.request 1 "initialize" None in
  req_method req = "initialize" ∧ alive Sample.running = true ∧
  stdout (step Sample.running (InClient req)) =
    stdout Sample.running ++
      [JObj [("jsonrpc", JStr "2.0"); ("id", JNum 1); ("result", initializeResult)]].
Proof.
  cbv zeta. split; [reflexivity | split; [apply running_alive |]].
  destruct (C2_initialize Sample.running (Sample.request 1 "initialize" None)
              eq_refl) as [H _].
  rewrite (H running_alive). reflexivity.
Defined.

(** C2 fails as stated: the first initialize of a session finds no child,
    so it spawns one and a set_model command is written to it. *)
Lemma C2_counterexample :
  let req := Sample.request 1 "initialize" None in
  let s := run (boot Sample.w) [InClient req; InDone 0 TimerFired] in
  piProcess (boot Sample.w) = None ∧
  piProcess s = Some {| killed := false |} ∧
  spawns s = 1 ∧
  piStdin s = [{| cmd_id := "uuid-0";
                  cmd_body := set_model "anthropic" "claude-sonnet-4-20250514" |}] ∧
  emitted (boot Sample.w) s = [].
Proof. cbv zeta. repeat (split; [vm_compute; reflexivity |]). vm_compute. reflexivity. Qed.

(** ** turn/start without text *)




(** ** Legacy model identifiers at turn/start *)


Lemma eqb_false_of_ne (a b : string) : a ≠ b → String.eqb a b = false.
Proof. intros H. by apply String.eqb_neq. Qed.

Lemma truthy_some (s : string) : s ≠ "" → Js.truthy (Some s) = true.
Proof. intros H. simpl. by rewrite eqb_false_of_ne. Qed.






(** ** The diff fragment of a file change *)

Lemma append_assoc (a b c : string) : (a +:+ b) +:+ c = a +:+ b +:+ c.
Proof.
  induction a as [| x a IH]; [done |].
  change (String x ((a +:+ b) +:+ c) = String x (a +:+ b +:+ c)). by rewrite IH.
Qed.


Lemma suppliedDiff_flat (path body : string) :
  suppliedDiff path body =
  "--- a/" +:+ path +:+ Js.nl +:+ "+++ b/" +:+ path +:+ Js.nl +:+ body.
Proof. unfold suppliedDiff. cbv zeta. by rewrite !append_assoc. Qed.

Lemma additionDiff_flat (path text : string) :
  additionDiff path text =
  "--- /dev/null" +:+ Js.nl +:+ "+++ b/" +:+ path +:+ Js.nl +:+
  "@@ -0,0 +1," +:+ pretty (List.length (Js.split Js.nl_char text)) +:+ " @@" +:+
  Js.nl +:+ Js.join Js.nl (map (String.append "+") (Js.split Js.nl_char text)).
Proof. unfold additionDiff. cbv zeta. by rewrite !append_assoc. Qed.

(** What tool_execution_end does to the accumulator and writes last. *)
Lemma tool_end_file_change (s : State) (toolName toolCallId : string)
    (result : option ToolResult) (isError : bool) (args : option ToolArgs) :
  isFileChange toolName = true →
  let s' := step s (InPi (PiEv (tool_execution_end toolName toolCallId result
                                  isError args))) in
  accumulatedDiff s' =
    accumulate (argFilePath (resolvedArgs s toolCallId args))
      ((result ≫= r_details) ≫= det_diff) (findText (result ≫= r_content))
      (accumulatedDiff s) ∧
  (accumulatedDiff s' ≠ [] →
   last (stdout s') =
     Some (JObj [("jsonrpc", JStr "2.0"); ("method", JStr "turn/diff/updated");
                 ("params",
                  JObj [("threadId", JStr (Js.or_else (currentThreadId s) "default"));
                        ("diff", JStr (Js.join diffSeparator (accumulatedDiff s')))])])).
Proof.
  intros Hfc. cbv zeta. unfold step, handlePiMessage, translatePiEventToCodex.
  unfold turnIdOrFresh.
  destruct (Js.truthy (currentTurnId s)); simpl;
    unfold translate_tool_end; rewrite Hfc; unfold resolvedArgs; simpl;
    (match goal with
     | |- context [accumulate ?p ?d ?t ?a] => destruct (accumulate p d t a) as [| f l]
     end; simpl; (split; [done |]); intros Hn;
     first [done | by rewrite last_snoc]).
Qed.



(** ** The tool-args cache *)

Lemma run_snoc s tr i : run s (tr ++ [i]) = step (run s tr) i.
Proof. unfold run. by rewrite foldl_app. Qed.

Lemma cacheAfter_lookup (i : Input) (cache : gmap string CachedTool) (id : string) :
  is_Some (cacheAfter i cache !! id) ↔
  startsTool id i = true ∨ (endsTool id i = false ∧ is_Some (cache !! id)).
Proof.
  destruct i as [req | [r | e] | | k c]; simpl; try (intuition congruence).
  destruct e; simpl; try (intuition congruence).
  - destruct (String.eqb_spec toolCallId id) as [-> | Hne].
    + rewrite lookup_insert_eq. split; [by left | by eexists].
    + rewrite lookup_insert_ne by done. intuition congruence.
  - destruct (String.eqb_spec toolCallId id) as [-> | Hne].
    + rewrite lookup_delete_eq. split; [by intros [? ?] | intuition congruence].
    + rewrite lookup_delete_ne by done. intuition congruence.
Qed.

(** C9, as the program behaves: the tool-args cache holds exactly the
    tool calls that were started and have not had their
    tool_execution_end since (together with what it held before, under
    the same condition). Nothing else removes an entry: agent_end leaves
    the cache as it is. So the cache is empty at the end of a turn only
    for the calls whose end event arrived. *)
Theorem C9_cache_holds_open_tools (s : State) (tr : list Input) (id : string) :
  (is_Some (toolArgsCache (run s tr) !! id) ↔
   (∃ pre i post, tr = pre ++ i :: post ∧ startsTool id i = true ∧ noEnd id post)
   ∨ (is_Some (toolArgsCache s !! id) ∧ noEnd id tr)) ∧
  toolArgsCache (step s (InPi (PiEv agent_end))) = toolArgsCache s.
Proof.
  split; [| by rewrite step_cache].
  induction tr as [| i tr IH] using rev_ind.
  - simpl. split.
    + intros H. right. split; [done | constructor].
    + intros [(pre & i & post & H & _) | [H _]]; [by destruct pre | done].
  - rewrite run_snoc, step_cache, cacheAfter_lookup, IH. unfold noEnd. split.
    + intros [Hs | [He [(pre & j & post & -> & Hj & Hpost) | [H0 Htr]]]].
      * left. exists tr, i, []. by repeat split.
      * left. exists pre, j, (post ++ [i]). rewrite <- app_assoc. simpl.
        repeat split; [done |]. apply Forall_app. by split; [| constructor].
      * right. split; [done |]. apply Forall_app. by split; [| constructor].
    + intros [(pre & j & post & Heq & Hj & Hpost) | [H0 Htr]].
      * destruct post as [| x post _] using rev_ind.
        -- apply app_inj_tail in Heq as [-> ->]. by left.
        -- rewrite app_comm_cons, app_assoc in Heq.
           apply app_inj_tail in Heq as [-> ->].
           apply Forall_app in Hpost as [Hpost Hx]. inversion_clear Hx.
           right. split; [done |]. left. by exists pre, j, post.
      * apply Forall_app in Htr as [Htr Hi]. inversion_clear Hi.
        right. split; [done |]. right. by split.
Qed.

(** C9 fails as stated: a turn in which a tool starts and never ends
    leaves its entry in the cache after agent_end. *)
Lemma C9_counterexample :
  let tr := [InPi (PiEv agent_start);
             InPi (PiEv (tool_execution_start "bash" "t1" None));
             InPi (PiEv agent_end)] in
  toolArgsCache (run Sample.running tr) !! "t1" =
    Some {| ct_toolName := "bash"; ct_args := None |} ∧
  toolArgsCache (run Sample.running tr) ≠ ∅.
Proof.
  cbv zeta. split; [vm_compute; reflexivity |].
  intros H. apply (f_equal (λ m : gmap string CachedTool, m !! "t1")) in H.
  vm_compute in H. discriminate.
Qed.

(** ** Composite model identifiers *)

Lemma prefix_empty (s : string) : String.prefix "" s = true.
Proof. by destruct s. Qed.

Lemma includes_slash_cons (a : ascii) (r : string) :
  Js.includes (String a r) "/" = Ascii.eqb a Js.slash || Js.includes r "/".
Proof.
  change (Js.includes (String a r) "/")
    with ((if Ascii.ascii_dec "/" a then String.prefix "" r else false)
          || Js.includes r "/").
  destruct (Ascii.ascii_dec "/" a) as [<- | Hne].
  - by rewrite prefix_empty.
  - destruct (Ascii.eqb_spec a Js.slash) as [-> | _]; [by destruct Hne | done].
Qed.

Lemma includes_composite (p r : string) :
  Js.includes (p +:+ "/" +:+ r) "/" = true.
Proof.
  induction p as [| a p IH].
  - change ("" +:+ "/" +:+ r) with (String Js.slash r).
    by rewrite includes_slash_cons, Ascii.eqb_refl.
  - change (String a p +:+ "/" +:+ r) with (String a (p +:+ "/" +:+ r)).
    rewrite includes_slash_cons, IH. apply orb_true_r.
Qed.

Lemma split_cons (c a : ascii) (r : string) :
  Js.split c (String a r) =
  if Ascii.eqb a c then "" :: Js.split c r
  else match Js.split c r with
       | [] => [String a ""]
       | h :: t => String a h :: t
       end.
Proof. reflexivity. Qed.

Lemma split_nonempty (c : ascii) (s : string) : Js.split c s ≠ [].
Proof.
  destruct s as [| a r]; [done |]. rewrite split_cons.
  by destruct (Ascii.eqb a c), (Js.split c r).
Qed.

Lemma split_composite (p r : string) :
  Js.includes p "/" = false →
  Js.split Js.slash (p +:+ "/" +:+ r) = p :: Js.split Js.slash r.
Proof.
  induction p as [| a p IH]; intros Hp.
  - change ("" +:+ "/" +:+ r) with (String Js.slash r).
    by rewrite split_cons, Ascii.eqb_refl.
  - rewrite includes_slash_cons in Hp. apply orb_false_iff in Hp as [Ha Hp].
    change (String a p +:+ "/" +:+ r) with (String a (p +:+ "/" +:+ r)).
    by rewrite split_cons, Ha, (IH Hp).
Qed.

Lemma join_cons (sep h : string) (t : list string) :
  t ≠ [] → Js.join sep (h :: t) = h +:+ sep +:+ Js.join sep t.
Proof. by destruct t. Qed.

Lemma join_split (s : string) : Js.join "/" (Js.split Js.slash s) = s.
Proof.
  induction s as [| a s IH]; [done |].
  rewrite split_cons. destruct (Ascii.eqb_spec a Js.slash) as [-> | Hne].
  - rewrite join_cons by apply split_nonempty. by rewrite IH.
  - destruct (Js.split Js.slash s) as [| h t] eqn:E;
      [by destruct (split_nonempty Js.slash s) |].
    destruct t as [| h' t].
    + simpl in *. by rewrite IH.
    + rewrite join_cons in * by done.
      change (String a h +:+ "/" +:+ Js.join "/" (h' :: t))
        with (String a (h +:+ "/" +:+ Js.join "/" (h' :: t))).
      by rewrite IH.
Qed.

(** Parsing a composite identifier gives back its two parts, provided the
    provider has no separator in it. *)
Lemma resolveModel_composite (registry : gmap string string) (p r : string) :
  Js.includes p "/" = false →
  resolveModel registry (p +:+ "/" +:+ r) = (p, r).
Proof.
  intros Hp. unfold resolveModel.
  rewrite includes_composite, (split_composite _ _ Hp). simpl.
  by rewrite join_split.
Qed.

Lemma recordModels_snoc (ms : list ModelInfo) (m : ModelInfo)
    (registry : gmap string string) :
  recordModels (ms ++ [m]) registry =
  <[compositeId m := m_provider m]> (recordModels ms registry).
Proof. unfold recordModels. by rewrite foldl_app. Qed.

Lemma recordModels_lookup (models : list ModelInfo) (registry : gmap string string) :
  (∀ m, m ∈ models → Js.includes (m_provider m) "/" = false) →
  ∀ m, m ∈ models →
    recordModels models registry !! compositeId m = Some (m_provider m).
Proof.
  induction models as [| x models IH] using rev_ind; intros Hall m Hm.
  - by apply elem_of_nil in Hm.
  - rewrite recordModels_snoc.
    assert (Hx : x ∈ models ++ [x])
      by (apply elem_of_app; right; by apply list_elem_of_singleton).
    destruct (decide (compositeId x = compositeId m)) as [Heq | Hne].
    + rewrite Heq, lookup_insert_eq. f_equal.
      pose proof (resolveModel_composite ∅ _ (m_id x) (Hall x Hx)) as Rx.
      pose proof (resolveModel_composite ∅ _ (m_id m) (Hall m Hm)) as Rm.
      unfold compositeId in Heq. rewrite Heq in Rx. congruence.
    + rewrite lookup_insert_ne by done.
      apply elem_of_app in Hm as [Hm | Hm];
        [| apply list_elem_of_singleton in Hm; by subst].
      apply IH; [| done]. intros m' Hm'. apply Hall, elem_of_app. by left.
Qed.

(** C8, as the program behaves: when the answer to get_available_models
    arrives, every model whose provider name has no separator in it is
    advertised under a composite identifier that parses back (with the
    code turn/start uses) to its provider and inner model id, whatever
    separators the inner id has, and the registry maps that identifier to
    that provider. The condition is on all the providers of the list. *)
Theorem C8_composite_round_trip (s : State) (cid : string) (id : ReqId)
    (models : list ModelInfo) :
  cid ≠ "" →
  pendingRequests s !! cid = Some (SinkModels id) →
  (∀ m, m ∈ models → Js.includes (m_provider m) "/" = false) →
  let answer :=
    InPi (PiResp {| resp_id := Some cid; resp_success := true;
                    resp_data := Some {| d_models := Some models |};
                    resp_error := None |}) in
  let s' := step s answer in
  stdout s' =
    stdout s ++
      [JObj [("jsonrpc", JStr "2.0"); ("id", jid id);
             ("result",
              JObj [("data", JArr (map (modelEntry (currentModel s)) models))])]] ∧
  ∀ m, m ∈ models →
    jget "id" (modelEntry (currentModel s) m) = JStr (compositeId m) ∧
    resolveModel (modelProviderMap s') (compositeId m) = (m_provider m, m_id m) ∧
    modelProviderMap s' !! compositeId m = Some (m_provider m).
Proof.
  intros Hcid Hpending Hall. cbv zeta. simpl.
  rewrite (eqb_false_of_ne _ _ Hcid). simpl. rewrite Hpending. simpl.
  split; [done |]. intros m Hm. split; [done |]. split.
  - apply resolveModel_composite. by apply Hall.
  - by apply recordModels_lookup.
Qed.

Lemma C8_composite_round_trip_witness :
  let m := Sample.model "openrouter" "anthropic/claude-3.5" in
  let s' := step Sample.listing (Sample.answerModels [m]) in
  "uuid-1" ≠ "" ∧
  pendingRequests Sample.listing !! "uuid-1" = Some (SinkModels (IdNum 8)) ∧
  (∀ m', m' ∈ [m] → Js.includes (m_provider m') "/" = false) ∧
  resolveModel (modelProviderMap s') "openrouter/anthropic/claude-3.5" =
    ("openrouter", "anthropic/claude-3.5") ∧
  modelProviderMap s' !! "openrouter/anthropic/claude-3.5" = Some "openrouter".
Proof.
  cbv zeta.
  assert (H1 : "uuid-1" ≠ "") by discriminate.
  assert (H2 : pendingRequests Sample.listing !! "uuid-1" = Some (SinkModels (IdNum 8)))
    by (vm_compute; reflexivity).
  assert (H3 : ∀ m', m' ∈ [Sample.model "openrouter" "anthropic/claude-3.5"] →
               Js.includes (m_provider m') "/" = false).
  { intros m' Hm'. apply list_elem_of_singleton in Hm'. subst m'.
    vm_compute. reflexivity. }
  destruct (C8_composite_round_trip Sample.listing "uuid-1" (IdNum 8)
              [Sample.model "openrouter" "anthropic/claude-3.5"] H1 H2 H3)
    as [_ H].
  destruct (H (Sample.model "openrouter" "anthropic/claude-3.5"))
    as (_ & R1 & R2); [by apply list_elem_of_singleton |].
  split; [exact H1 |]. split; [exact H2 |]. split; [exact H3 |].
  split; [exact R1 | exact R2].
Defined.

(** C8 fails as stated: a model whose provider name contains the
    separator is advertised as a/b/c, which parses back to provider a and
    inner id b/c. *)
Lemma C8_counterexample :
  let m := Sample.model "a/b" "c" in
  let s' := step Sample.listing (Sample.answerModels [m]) in
  jget "id" (modelEntry (currentModel Sample.listing) m) = JStr "a/b/c" ∧
  resolveModel (modelProviderMap s') "a/b/c" = ("a", "b/c") ∧
  resolveModel (modelProviderMap s') (compositeId m) ≠ (m_provider m, m_id m).
Proof.
  cbv zeta. split; [vm_compute; reflexivity |].
  split; [vm_compute; reflexivity |].
  vm_compute. discriminate.
Qed.

(** ** The sequence of diff payloads *)




Lemma payloads_responses (out : list json) :
  Forall (λ j, methodOf j = None) out → payloads out = [].
Proof.
  induction 1 as [| j out Hj _ IH]; [done |].
  unfold payloads in *. simpl. unfold diffPayload. by rewrite Hj.
Qed.

Lemma accumulate_prefix p d t (acc : list string) :
  acc `prefix_of` accumulate p d t acc.
Proof.
  unfold accumulate. split_branches; first [done | by eexists].
Qed.

Lemma diffStep_event (s : State) (e : PiEvent) :
  e ≠ agent_start → diffStep s (translatePiEventToCodex e s).
Proof.
  intros He. unfold diffStep, translatePiEventToCodex, turnIdOrFresh, draw.
  destruct e; try done;
    unfold translate_message_update, translate_message_end, translate_tool_start,
      translate_tool_end, errorNotification, draw, sendCodexNotification.
  all: try (split_branches; simpl;
            first [ exists []; split; [by rewrite app_nil_r |]; split; [done | by left]
                  | eexists [_]; split; [reflexivity |]; split; [done | by left]
                  | eexists [_; _]; split; [by rewrite <- app_assoc |]; split; [done | by left] ]).
  destruct (Js.truthy (currentTurnId s)); simpl;
    (destruct (isFileChange toolName); simpl;
     [| eexists [_]; split; [reflexivity |]; split; [done | by left]]);
    unfold resolvedArgs; simpl;
    match goal with
    | |- context [accumulate ?p ?d ?t ?a] =>
        pose proof (accumulate_prefix p d t a) as Hpre;
        destruct (accumulate p d t a) as [| f l]
    end; simpl.
  all: first [ eexists [_]; split; [reflexivity |]; split; [done | by left]
             | eexists [_; _]; split; [by rewrite <- app_assoc |]; split; [done | by right] ].
Qed.

Lemma diffStep_handler (s s' : State) : handlerStep s s' → diffStep s s'.
Proof.
  intros (_ & _ & Hacc & _ & out & Hout & Hresp).
  exists out. split; [done |]. split; [by rewrite Hacc |].
  left. by apply payloads_responses.
Qed.

Lemma diffStep_step (s : State) (i : Input) :
  isAgentStart i = false → diffStep s (step s i).
Proof.
  intros Hi. destruct i as [req | [r | e] | | k c];
    try (apply diffStep_handler, handlerStep_step; intros e; discriminate).
  apply diffStep_event. by intros ->.
Qed.

Lemma emitted_app (s s' : State) (out : list json) :
  stdout s' = stdout s ++ out → emitted s s' = out.
Proof. intros H. unfold emitted. rewrite H. by rewrite drop_app_length. Qed.

Lemma payloads_app (a b : list json) : payloads (a ++ b) = payloads a ++ payloads b.
Proof. unfold payloads. apply omap_app. Qed.




(** ** Deltas without an open message *)

Lemma notItem_response (j : json) : methodOf j = None → notItem "msg-0" j.
Proof. intros H. unfold notItem, itemLifecycleId. by rewrite H. Qed.

Lemma lifecycleStep_handler (s s' : State) :
  currentMessageId s ≠ Some "msg-0" → handlerStep s s' → lifecycleStep s s'.
Proof.
  intros Hcur (Hw & _ & _ & Hm & out & Hout & Hresp).
  split; [done |]. split; [by rewrite Hm |].
  exists out. split; [done |].
  eapply Forall_impl; [exact Hresp |]. apply notItem_response.
Qed.

Ltac close_item :=
  unfold notItem; simpl;
  first [ discriminate
        | let H := fresh in
          intros H; injection H as H;
          first [ congruence
                | match goal with
                  | Ht : (_ =? _) = false |- _ =>
                      apply String.eqb_neq in Ht; congruence
                  end
                | match goal with
                  | Hc : currentMessageId ?s ≠ _ |- _ =>
                      destruct (currentMessageId s); simpl in *; congruence
                  end ] ].

Lemma lifecycleStep_event (s : State) (e : PiEvent) :
  (∀ n, uuidv4 (world s) n ≠ "msg-0") →
  currentMessageId s ≠ Some "msg-0" →
  usesToolId "msg-0" (InPi (PiEv e)) = false →
  lifecycleStep s (translatePiEventToCodex e s).
Proof.
  intros Huuid Hcur Htool.
  pose proof (Huuid (uuids s)) as Hu0. pose proof (Huuid (S (uuids s))) as Hu1.
  unfold lifecycleStep, translatePiEventToCodex, turnIdOrFresh, draw.
  destruct e; simpl in Htool;
    unfold translate_message_update, translate_message_end, translate_tool_start,
      translate_tool_end, errorNotification, draw, sendCodexNotification.
  all: try apply String.eqb_neq in Htool.
  all: revert Hcur; split_branches; intros Hcur; simpl in *;
       (split; [reflexivity |]); (split; [congruence |]).
  all: try (exists []; split; [by rewrite app_nil_r | constructor]).
  all: try (eexists [_]; split; [reflexivity |]; repeat constructor; close_item).
  all: try (eexists [_; _]; split; [by rewrite <- app_assoc |]; repeat constructor; close_item).
Qed.

Lemma lifecycleStep_step (s : State) (i : Input) :
  (∀ n, uuidv4 (world s) n ≠ "msg-0") →
  currentMessageId s ≠ Some "msg-0" →
  usesToolId "msg-0" i = false →
  lifecycleStep s (step s i).
Proof.
  intros Huuid Hcur Htool. destruct i as [req | [r | e] | | k c];
    try (apply lifecycleStep_handler; [done |];
         apply handlerStep_step; intros e; discriminate).
  by apply lifecycleStep_event.
Qed.

Lemma lifecycle_invariant (w : World) (tr : list Input) :
  (∀ n, uuidv4 w n ≠ "msg-0") →
  Forall (λ i, usesToolId "msg-0" i = false) tr →
  let s := run (boot w) tr in
  world s = w ∧ currentMessageId s ≠ Some "msg-0" ∧
  Forall (notItem "msg-0") (stdout s).
Proof.
  intros Huuid. induction tr as [| i tr IH] using rev_ind; intros Htr; cbv zeta.
  - simpl. repeat split; [done |]. repeat constructor. by unfold notItem.
  - apply Forall_app in Htr as [Htr Hi]. inversion_clear Hi as [| ? ? Hi2 _].
    destruct (IH Htr) as (Hw & Hcur & Hout). rewrite run_snoc.
    destruct (lifecycleStep_step (run (boot w) tr) i) as (Hw2 & Hcur2 & o & Ho & HQ);
      [by rewrite Hw | done | done |].
    split; [congruence |]. split; [done |].
    rewrite Ho. by apply Forall_app.
Qed.

(** C10, as the program behaves: a text_delta that arrives while no
    assistant message is open is still forwarded, as an
    item/agentMessage/delta whose itemId is the literal msg-0. No
    item/started or item/completed carries that identifier as long as the
    agent never uses msg-0 as a tool-call identifier (those are echoed as
    item identifiers) and the identifier generator never returns it: the
    identifiers the bridge makes up itself are generated ones and
    [thinking]. *)
Theorem C10_orphan_delta (w : World) (tr : list Input) (ev : AssistantMessageEvent) :
  (∀ n, uuidv4 w n ≠ "msg-0") →
  Forall (λ i, usesToolId "msg-0" i = false) tr →
  ame_type ev = "text_delta" →
  let s := run (boot w) tr in
  let s' := step s (InPi (PiEv (message_update (Some ev)))) in
  (currentMessageId s = None →
   emitted s s' =
     [orphanDelta (Js.or_else (currentThreadId s) "default") (ame_delta ev)]) ∧
  (∀ j, j ∈ stdout s' → itemLifecycleId j ≠ Some (JStr "msg-0")).
Proof.
  intros Huuid Htr Hty. cbv zeta. split.
  - intros Hnone. apply emitted_app.
    simpl. unfold translatePiEventToCodex, turnIdOrFresh, draw.
    destruct (Js.truthy (currentTurnId _)); simpl;
      unfold translate_message_update; rewrite Hty; simpl; by rewrite Hnone.
  - assert (Htr' : Forall (λ i, usesToolId "msg-0" i = false)
                     (tr ++ [InPi (PiEv (message_update (Some ev)))])).
    { apply Forall_app. split; [done |]. repeat constructor. simpl. by rewrite Hty. }
    destruct (lifecycle_invariant w _ Huuid Htr') as (_ & _ & Hout).
    rewrite run_snoc in Hout. intros j Hj.
    by apply (proj1 (Forall_forall _ _) Hout).
Qed.

Lemma sample_uuid_not_msg0 (n : nat) : uuidv4 Sample.w n ≠ "msg-0".
Proof. intros H. discriminate H. Qed.

Lemma C10_orphan_delta_witness :
  let tr := [InClient (Sample.request 0 "initialize" None); InPi (PiEv agent_start)] in
  let ev := {| ame_type := "text_delta"; ame_delta := Some "Hi";
               ame_content := None; ame_toolCall := None |} in
  let s := run (boot Sample.w) tr in
  (∀ n, uuidv4 Sample.w n ≠ "msg-0") ∧
  Forall (λ i, usesToolId "msg-0" i = false) tr ∧
  ame_type ev = "text_delta" ∧
  emitted s (step s (InPi (PiEv (message_update (Some ev))))) =
    [orphanDelta "default" (Some "Hi")].
Proof.
  cbv zeta.
  assert (Htr : Forall (λ i, usesToolId "msg-0" i = false)
                  [InClient (Sample.request 0 "initialize" None);
                   InPi (PiEv agent_start)]) by (by repeat constructor).
  destruct (C10_orphan_delta Sample.w _
              {| ame_type := "text_delta"; ame_delta := Some "Hi";
                 ame_content := None; ame_toolCall := None |}
              sample_uuid_not_msg0 Htr eq_refl) as [H _].
  split; [exact sample_uuid_not_msg0 |]. split; [exact Htr |].
  split; [reflexivity |]. apply H. vm_compute. reflexivity.
Defined.

(** C10 fails as stated: tool-call identifiers come from the agent and
    are echoed, so a tool call named msg-0 is opened by an item/started
    that carries the identifier the orphan delta uses. *)
Lemma C10_counterexample :
  let tr := [InPi (PiEv (tool_execution_start "bash" "msg-0" None));
             InPi (PiEv (Sample.textDelta "Hi"))] in
  let out := emitted Sample.running (run Sample.running tr) in
  (itemLifecycleId <$> out !! 0%nat) = Some (Some (JStr "msg-0")) ∧
  (methodOf <$> out !! 0%nat) = Some (Some "item/started") ∧
  out !! 1%nat = Some (orphanDelta "default" (Some "Hi")).
Proof. cbv zeta. repeat (split; [vm_compute; reflexivity |]). vm_compute. reflexivity. Qed.

(** ** Requests and their responses *)

Lemma idOf_response id result error : idOf (responseValue id result error) = Some id.
Proof. by destruct id, error as [[? ?] |]. Qed.

Lemma wellFormed_response id result error :
  result ≠ JUndef ∨ is_Some error → wellFormed (responseValue id result error).
Proof.
  intros H. left. destruct id, error as [[? ?] |]; simpl; split; try done;
    destruct H as [H | [? H]]; try done; by destruct result.
Qed.

Lemma idOf_notification method params : idOf (notificationValue method params) = None.
Proof. by destruct params. Qed.

Lemma wellFormed_notification method params :
  wellFormed (notificationValue method params).
Proof. right. by destruct params. Qed.

Lemma answers_app R (a b : list json) : answers R (a ++ b) = (answers R a + answers R b)%nat.
Proof. unfold answers. by rewrite filter_app, length_app. Qed.

Lemma answers_response R id result error :
  answers R [responseValue id result error] = unit_of (bool_decide (id = R)).
Proof.
  unfold answers. rewrite filter_cons, idOf_response.
  destruct (decide (Some id = Some R)) as [[= ->] | Hne].
  - by rewrite bool_decide_true.
  - rewrite bool_decide_false; [done | congruence].
Qed.

Lemma waitingSinks_insert R (m : gmap string Sink) (k : string) (sink : Sink) :
  m !! k = None →
  waitingSinks R (<[k := sink]> m) =
  (waitingSinks R m + unit_of (bool_decide (sinkOwner sink = Some R)))%nat.
Proof.
  intros Hk. unfold waitingSinks. rewrite map_filter_insert. simpl.
  case_decide.
  - rewrite bool_decide_true by done.
    rewrite map_size_insert_None; [simpl; lia |].
    by rewrite map_lookup_filter_None; left.
  - rewrite bool_decide_false by done. rewrite delete_id by done. simpl. lia.
Qed.

Lemma waitingSinks_delete R (m : gmap string Sink) (k : string) (sink : Sink) :
  m !! k = Some sink →
  waitingSinks R m =
  (waitingSinks R (delete k m) + unit_of (bool_decide (sinkOwner sink = Some R)))%nat.
Proof.
  intros Hk. rewrite <- (insert_delete_id m k sink Hk) at 1.
  apply waitingSinks_insert, lookup_delete_eq.
Qed.

Lemma waitingParked_insert R (m : gmap nat Await) (k : nat) (a : Await) :
  m !! k = None →
  waitingParked R (<[k := a]> m) =
  (waitingParked R m + unit_of (bool_decide (awaitOwner a = R)))%nat.
Proof.
  intros Hk. unfold waitingParked. rewrite map_filter_insert. simpl.
  case_decide.
  - rewrite bool_decide_true by done.
    rewrite map_size_insert_None; [simpl; lia |].
    by rewrite map_lookup_filter_None; left.
  - rewrite bool_decide_false by done. rewrite delete_id by done. simpl. lia.
Qed.

Lemma waitingParked_delete R (m : gmap nat Await) (k : nat) (a : Await) :
  m !! k = Some a →
  waitingParked R m =
  (waitingParked R (delete k m) + unit_of (bool_decide (awaitOwner a = R)))%nat.
Proof.
  intros Hk. rewrite <- (insert_delete_id m k a Hk) at 1.
  apply waitingParked_insert, lookup_delete_eq.
Qed.

Arguments responseValue : simpl never.
Arguments notificationValue : simpl never.

Ltac solve_handled :=
  simpl;
  first
    [ eapply (handled_answer _ _ _ _ _ None); simpl;
      [reflexivity | lia | reflexivity | reflexivity | reflexivity | reflexivity
       | reflexivity | exact I]
    | eapply (handled_answer _ _ _ _ _ (Some _)); simpl;
      [reflexivity | lia | reflexivity | reflexivity | reflexivity | reflexivity
       | reflexivity | lia]
    | eapply handled_command; simpl;
      [reflexivity | reflexivity | reflexivity | reflexivity | reflexivity
       | reflexivity | lia]
    | eapply handled_io; simpl;
      [reflexivity | lia | reflexivity | reflexivity | reflexivity | reflexivity
       | reflexivity] ].

Ltac unfold_router :=
  unfold dispatch, turnStart, turnStart_reply, modelList_reply,
    sendPiCommand_detached, sendPiCommand, draw, now, park, respondThrown,
    sendCodexResponse, resolveModel.

Lemma handled_dispatch (req : CodexRequest) (s : State) :
  handled (req_id req) s (dispatch req s).
Proof. unfold_router. simpl. split_branches; solve_handled. Qed.

Lemma handled_resolve (k : Sink) (data : option PiData) (s : State) (id : ReqId) :
  sinkOwner k = Some id → handled id s (resolve k data s).
Proof.
  intros Hk. destruct k; simpl in Hk; try discriminate; injection Hk as <-;
    try apply handled_dispatch; simpl; unfold_router; simpl;
    split_branches; solve_handled.
Qed.

Lemma handled_reject (k : Sink) (message : string) (s : State) (id : ReqId) :
  sinkOwner k = Some id → handled id s (reject k message s).
Proof.
  intros Hk. destruct k; simpl in Hk; try discriminate; injection Hk as <-;
    simpl; unfold_router; simpl; split_branches; solve_handled.
Qed.

Lemma handled_request (req : CodexRequest) (s : State) :
  handled (req_id req) s (handleCodexRequest req s).
Proof.
  unfold handleCodexRequest. destruct (alive s); [apply handled_dispatch |].
  unfold park, spawn. solve_handled.
Qed.

Lemma handled_complete (a : Await) (c : Completion) (s s' : State) :
  complete a c s = Some s' → handled (awaitOwner a) s s'.
Proof.
  destruct a, c as [| [|] | [|]]; simpl; intros [= <-];
    unfold startup_setModel; unfold_router; simpl; split_branches; solve_handled.
Qed.

Lemma passive_event (e : PiEvent) (s : State) :
  passive s (translatePiEventToCodex e s).
Proof.
  unfold passive, translatePiEventToCodex, turnIdOrFresh, draw.
  destruct e;
    unfold translate_message_update, translate_message_end, translate_tool_start,
      translate_tool_end, errorNotification, draw, sendCodexNotification.
  all: split_branches; simpl;
       (split; [reflexivity |]); (split; [lia |]); repeat (split; [reflexivity |]).
  all: first [ exists []; split; [by rewrite app_nil_r | constructor]
             | eexists [_]; split; [reflexivity | repeat constructor; eauto]
             | eexists [_; _]; split; [by rewrite <- app_assoc | repeat constructor; eauto] ].
Qed.

Lemma fresh_key (s : State) (n : nat) :
  Inj (=) (=) (uuidv4 (world s)) → wellKeyed s → (uuids s ≤ n)%nat →
  pendingRequests s !! uuidv4 (world s) n = None.
Proof.
  intros Hinj [Hk _] Hn.
  destruct (pendingRequests s !! uuidv4 (world s) n) as [sink |] eqn:E; [| done].
  destruct (Hk _ _ E) as (m & Hm & Heq). apply Hinj in Heq. lia.
Qed.

Lemma fresh_ticket (s : State) : wellKeyed s → parked s !! parks s = None.
Proof.
  intros [_ Hp]. destruct (parked s !! parks s) as [a |] eqn:E; [| done].
  apply Hp in E. lia.
Qed.

Lemma wellKeyed_insert_sink (s s' : State) (n : nat) (k : Sink) :
  wellKeyed s → world s' = world s → parks s' = parks s → parked s' = parked s →
  pendingRequests s' = <[uuidv4 (world s) n := k]> (pendingRequests s) →
  (uuids s ≤ n < uuids s')%nat → wellKeyed s'.
Proof.
  intros [Hk Hp] Hw Hps Hpd Hpe Hn. split.
  - intros key sink. rewrite Hpe, Hw. intros Hl.
    apply lookup_insert_Some in Hl as [[<- _] | [_ Hl]].
    + exists n. split; [lia | done].
    + destruct (Hk _ _ Hl) as (m & Hm & ->). exists m. split; [lia | done].
  - rewrite Hpd, Hps. exact Hp.
Qed.

Lemma wellKeyed_same_tables (s s' : State) :
  wellKeyed s → world s' = world s → (uuids s ≤ uuids s')%nat →
  parks s' = parks s → parked s' = parked s →
  pendingRequests s' = pendingRequests s → wellKeyed s'.
Proof.
  intros [Hk Hp] Hw Hu Hps Hpd Hpe. split.
  - intros key sink. rewrite Hpe, Hw. intros Hl.
    destruct (Hk _ _ Hl) as (m & Hm & ->). exists m. split; [lia | done].
  - rewrite Hpd, Hps. exact Hp.
Qed.

Lemma handled_accounted (id : ReqId) (s s' : State) :
  Inj (=) (=) (uuidv4 (world s)) → wellKeyed s → handled id s s' →
  accounted (λ R, unit_of (bool_decide (id = R))) s s'.
Proof.
  intros Hinj Hwk H.
  destruct H as [result error extra Hw Hu Hps Hpd Hout Hok Hpe Hn
                | n k Hw Hps Hpd Hout Hpe Hown Hn
                | a Hw Hu Hout Hpe Hpd Hown Hps].
  - split; [| split; [done |]; split].
    + destruct extra as [n |].
      * by eapply wellKeyed_insert_sink.
      * by eapply wellKeyed_same_tables.
    + intros R. unfold balance, waiting. rewrite Hout, Hpd, Hpe, answers_app,
        answers_response.
      destruct extra as [n |]; [| lia].
      rewrite waitingSinks_insert by (apply fresh_key; [done | done | lia]).
      rewrite (bool_decide_false (sinkOwner SinkIgnored = Some R)) by discriminate.
      simpl. lia.
    + eexists. split; [exact Hout |]. apply Forall_cons; split; [| constructor].
      apply wellFormed_response. destruct error; [right; by eexists |].
      left. by destruct result.
  - split; [by eapply wellKeyed_insert_sink |]. split; [done |]. split.
    + intros R. unfold balance, waiting. rewrite Hout, Hpd, Hpe.
      rewrite waitingSinks_insert by (apply fresh_key; [done | done | lia]).
      rewrite Hown.
      destruct (decide (id = R)) as [-> | Hne].
      * rewrite !bool_decide_true by done. lia.
      * rewrite !bool_decide_false by congruence. lia.
    + exists []. split; [by rewrite app_nil_r | constructor].
  - split; [| split; [done |]; split].
    + destruct Hwk as [Hk Hp]. split.
      * intros key sink. rewrite Hpe, Hw. intros Hl.
        destruct (Hk _ _ Hl) as (m & Hm & ->). exists m. split; [lia | done].
      * intros key b. rewrite Hpd, Hps. intros Hl.
        apply lookup_insert_Some in Hl as [[<- _] | [_ Hl]]; [lia |].
        apply Hp in Hl. lia.
    + intros R. unfold balance, waiting. rewrite Hout, Hpd, Hpe.
      rewrite waitingParked_insert by (by apply fresh_ticket).
      rewrite Hown. lia.
    + exists []. split; [by rewrite app_nil_r | constructor].
Qed.

Lemma passive_accounted (s s' : State) :
  wellKeyed s → passive s s' → accounted (λ _, 0%nat) s s'.
Proof.
  intros Hwk (Hw & Hu & Hps & Hpd & Hpe & out & Hout & Hn).
  split; [by eapply wellKeyed_same_tables |]. split; [done |]. split.
  - intros R. unfold balance, waiting. rewrite Hout, Hpd, Hpe, answers_app.
    assert (answers R out = 0%nat) as ->; [| lia].
    clear Hout. induction Hn as [| j out (m & p & ->) _ IH]; [done |].
    unfold answers in *. rewrite filter_cons, idOf_notification.
    by rewrite decide_False.
  - exists out. split; [done |].
    eapply Forall_impl; [exact Hn |]. intros j (m & p & ->).
    apply wellFormed_notification.
Qed.

Lemma accounted_refl (s : State) : wellKeyed s → accounted (λ _, 0%nat) s s.
Proof.
  intros Hwk. split; [done |]. split; [done |]. split; [intros R; lia |].
  exists []. split; [by rewrite app_nil_r | constructor].
Qed.

Lemma accounted_ext (d d' : ReqId → nat) (s s' : State) :
  (∀ R, d R = d' R) → accounted d s s' → accounted d' s s'.
Proof.
  intros Hd (H1 & H2 & H3 & H4). repeat (split; [done |]).
  split; [| done]. intros R. by rewrite <- Hd.
Qed.

Lemma wellKeyed_delete_sink (s : State) (k : string) :
  wellKeyed s → wellKeyed (set_pendingRequests (delete k (pendingRequests s)) s).
Proof.
  intros [Hk Hp]. split; [| done]. simpl. intros key sink Hl.
  apply lookup_delete_Some in Hl as [_ Hl]. eauto.
Qed.

Lemma wellKeyed_delete_parked (s : State) (k : nat) :
  wellKeyed s → wellKeyed (set_parked (delete k (parked s)) s).
Proof.
  intros [Hk Hp]. split; [done |]. simpl. intros key a Hl.
  apply lookup_delete_Some in Hl as [_ Hl]. eauto.
Qed.

(** Settling a stored sink: the handler it stands for moves on. *)
Lemma settle_accounted (s s' : State) (k : string) (sink : Sink) :
  Inj (=) (=) (uuidv4 (world s)) → wellKeyed s →
  pendingRequests s !! k = Some sink →
  let s1 := set_pendingRequests (delete k (pendingRequests s)) s in
  (∀ id, sinkOwner sink = Some id → handled id s1 s') →
  (sinkOwner sink = None → s' = s1) →
  accounted (λ _, 0%nat) s s'.
Proof.
  intros Hinj Hwk Hl s1 Hsome Hnone.
  assert (Hwk1 : wellKeyed s1) by by apply wellKeyed_delete_sink.
  assert (Hbal : ∀ R, balance R s =
            (balance R s1 + unit_of (bool_decide (sinkOwner sink = Some R)))%nat).
  { intros R. unfold balance, waiting. simpl.
    rewrite (waitingSinks_delete R _ k sink Hl). lia. }
  destruct (sinkOwner sink) as [id |] eqn:Hown.
  - destruct (handled_accounted id s1 s' Hinj Hwk1 (Hsome id eq_refl))
      as (A1 & A2 & A3 & A4).
    split; [done |]. split; [done |]. split; [| done].
    intros R. rewrite A3, Hbal.
    destruct (decide (id = R)) as [-> | Hne].
    + rewrite !bool_decide_true by done. lia.
    + rewrite !bool_decide_false by congruence. lia.
  - rewrite (Hnone eq_refl). split; [done |]. split; [done |]. split.
    + intros R. rewrite Hbal. rewrite bool_decide_false by done. simpl. lia.
    + exists []. split; [by rewrite app_nil_r | constructor].
Qed.

Lemma step_accounted (s : State) (i : Input) :
  Inj (=) (=) (uuidv4 (world s)) → wellKeyed s →
  accounted (λ R, unit_of (asks R i)) s (step s i).
Proof.
  intros Hinj Hwk. destruct i as [req | [r | e] | | k c]; simpl.
  - destruct (String.eqb (req_method req) "").
    + eapply accounted_ext; [| by apply accounted_refl].
      intros R. by rewrite andb_false_r.
    + eapply accounted_ext; [| apply handled_accounted, handled_request; done].
      intros R. by rewrite andb_true_r.
  - destruct (Js.truthy (resp_id r)); [| by apply accounted_refl].
    destruct (pendingRequests s !! default "" (resp_id r)) as [sink |] eqn:Hl;
      [| by apply accounted_refl].
    eapply settle_accounted; [done | done | exact Hl | |].
    + intros id Hown. destruct (resp_success r);
        [by apply handled_resolve | by apply handled_reject].
    + intros Hown. destruct sink; try discriminate. by destruct (resp_success r).
  - by apply passive_accounted, passive_event.
  - apply passive_accounted; [done |]. unfold passive. simpl.
    repeat (split; [done |]). exists []. split; [by rewrite app_nil_r | constructor].
  - destruct (parked s !! k) as [a |] eqn:Hl; [| by apply accounted_refl].
    destruct (complete a c _) as [s' |] eqn:Hc; [| by apply accounted_refl].
    apply handled_complete in Hc.
    destruct (handled_accounted _ (set_parked (delete k (parked s)) s) s' Hinj
                (wellKeyed_delete_parked s k Hwk) Hc) as (A1 & A2 & A3 & A4).
    split; [done |]. split; [done |]. split; [| done].
    intros R. rewrite A3. unfold balance, waiting. simpl.
    rewrite (waitingParked_delete R (parked s) k a Hl). lia.
Qed.

Lemma asked_snoc (R : ReqId) (tr : list Input) (i : Input) :
  asked R (tr ++ [i]) = (asked R tr + unit_of (asks R i))%nat.
Proof.
  unfold asked. rewrite filter_app, length_app, filter_cons.
  destruct (asks R i); simpl; by rewrite ?decide_True, ?decide_False.
Qed.

Lemma account_invariant (w : World) (tr : list Input) :
  Inj (=) (=) (uuidv4 w) →
  let s := run (boot w) tr in
  wellKeyed s ∧ world s = w ∧
  (∀ R, balance R s = asked R tr) ∧ Forall wellFormed (stdout s).
Proof.
  intros Hinj. induction tr as [| i tr IH] using rev_ind; cbv zeta.
  - split; [by split |]. split; [done |]. split.
    + intros R. unfold balance, waiting, waitingSinks, waitingParked. simpl.
      by rewrite !map_filter_empty, !map_size_empty.
    + simpl. apply Forall_cons. split; [apply wellFormed_notification | constructor].
  - destruct IH as (Hwk & Hw & Hbal & Hout). rewrite run_snoc.
    destruct (step_accounted (run (boot w) tr) i) as (A1 & A2 & A3 & o & A4 & A5);
      [by rewrite Hw | done |].
    split; [done |]. split; [congruence |]. split.
    + intros R. by rewrite A3, Hbal, asked_snoc.
    + rewrite A4. by apply Forall_app.
Qed.






Lemma sample_uuid_inj : Inj (=) (=) (uuidv4 Sample.w).
Proof.
  intros m n H. simpl in H. apply (inj (String.app "uuid-")) in H.
  by apply (inj pretty) in H.
Qed.



(** ** Child exit and the pending commands *)





(** ** The keys of the registry *)

Ltac registry_step :=
  simpl; split_branches; simpl;
  first [ by left | right; by eexists ].

Lemma registryStep_dispatch (req : CodexRequest) (s : State) :
  registryStep s (dispatch req s).
Proof. unfold registryStep. unfold_router. registry_step. Qed.

Lemma registryStep_step (s : State) (i : Input) : registryStep s (step s i).
Proof.
  destruct i as [req | [r | e] | | k c]; simpl.
  - destruct (String.eqb _ _); [by left |].
    unfold handleCodexRequest. destruct (alive s); [apply registryStep_dispatch |].
    by left.
  - destruct (Js.truthy _); [| by left].
    destruct (pendingRequests s !! _) as [sink |]; [| by left].
    destruct (resp_success r), sink; simpl;
      try apply (registryStep_dispatch _ (set_pendingRequests _ s));
      unfold registryStep; unfold_router; registry_step.
  - unfold registryStep, translatePiEventToCodex, turnIdOrFresh, draw.
    destruct e;
      unfold translate_message_update, translate_message_end, translate_tool_start,
        translate_tool_end, errorNotification, draw, sendCodexNotification;
      registry_step.
  - by left.
  - destruct (parked s !! k) as [a |]; [| by left].
    destruct a, c as [| [|] | [|]]; simpl; unfold registryStep, startup_setModel;
      unfold_router; registry_step.
Qed.

Lemma compositeKeys_record (models : list ModelInfo) (registry : gmap string string) :
  compositeKeys registry → compositeKeys (recordModels models registry).
Proof.
  intros Hreg. induction models as [| m models IH] using rev_ind; [done |].
  rewrite recordModels_snoc. intros k p Hl.
  apply lookup_insert_Some in Hl as [[<- _] | [_ Hl]]; [| by eapply IH].
  apply includes_composite.
Qed.

(** The registry only ever holds composite identifiers, so the lookup of
    an identifier without a separator finds nothing. *)
Lemma registry_keys_composite (w : World) (tr : list Input) :
  compositeKeys (modelProviderMap (run (boot w) tr)).
Proof.
  induction tr as [| i tr IH] using rev_ind; [by intros k p Hl |].
  rewrite run_snoc.
  destruct (registryStep_step (run (boot w) tr) i) as [-> | [models ->]];
    [done | by apply compositeKeys_record].
Qed.

Lemma legacy_lookup_misses (w : World) (tr : list Input) (model : string) :
  Js.includes model "/" = false →
  modelProviderMap (run (boot w) tr) !! model = None.
Proof.
  intros Hm. destruct (modelProviderMap _ !! model) as [p |] eqn:E; [| done].
  apply registry_keys_composite in E. congruence.
Qed.

(** * Further properties of the adapter *)

Ltac split_branches_eq :=
  repeat match goal with
         | |- context [if ?b then _ else _] => destruct b eqn:?
         | |- context [match ?x with _ => _ end] => destruct x eqn:?
         end.

Lemma step_alive (s : State) (req : CodexRequest) (m : string) :
  req_method req = m → m ≠ "" → alive s = true →
  step s (InClient req) = dispatch req s.
Proof.
  intros Hm Hne Ha. rewrite step_client, handle_alive; [done | done |].
  by rewrite Hm.
Qed.

Lemma dispatch_process (req : CodexRequest) (s : State) :
  piProcess (dispatch req s) = piProcess s.
Proof.
  unfold_router. simpl. split_branches_eq; simpl; congruence.
Qed.

Lemma alive_dispatch (req : CodexRequest) (s : State) :
  alive (dispatch req s) = alive s.
Proof. unfold alive. by rewrite dispatch_process. Qed.

Lemma truthy_or_else (o : option string) :
  Js.truthy o = true → Js.or_else o "default" = default "" o ∧ default "" o ≠ "".
Proof.
  destruct o as [x |]; simpl; [| done].
  destruct (String.eqb_spec x ""); [done |]. by intros _.
Qed.

(** ** The command correlator *)

(** X1: a command sent in a reachable state is written to the child under
    an identifier no sink is stored under, and its sink is stored there;
    the answer that carries this identifier removes the sink and continues
    the handler that waited: with the data when it reports success, with
    the error text (or 'Unknown error') when it does not. *)
Theorem command_round_trip (w : World) (tr : list Input) (body : PiCommandBody)
    (k : Sink) (s1 : State) :
  Inj (=) (=) (uuidv4 w) →
  let s := run (boot w) tr in
  let id := uuidv4 w (uuids s) in
  id ≠ "" →
  sendPiCommand body k s = Some s1 →
  piStdin s1 = piStdin s ++ [{| cmd_id := id; cmd_body := body |}] ∧
  pendingRequests s1 = <[id := k]> (pendingRequests s) ∧
  pendingRequests s !! id = None ∧
  (∀ data error,
     step s1 (answer id true data error) =
       resolve k data (set_pendingRequests (pendingRequests s) s1)) ∧
  (∀ data error,
     step s1 (answer id false data error) =
       reject k (Js.or_else error "Unknown error")
         (set_pendingRequests (pendingRequests s) s1)).
Proof.
  intros Hinj. cbv zeta. intros Hid Hsend.
  destruct (account_invariant w tr Hinj) as (Hwk & Hw & _ & _). cbv zeta in *.
  assert (Hfresh : pendingRequests (run (boot w) tr) !! uuidv4 w (uuids (run (boot w) tr)) = None).
  { rewrite <- Hw at 1. apply fresh_key; [by rewrite Hw | done | lia]. }
  unfold sendPiCommand in Hsend.
  destruct (piProcess (run (boot w) tr)) as [p |]; [| discriminate].
  simpl in Hsend. injection Hsend as <-. rewrite Hw.
  split; [done |]. split; [done |]. split; [done |].
  split; intros data error; simpl; rewrite (eqb_false_of_ne _ _ Hid); simpl;
    rewrite lookup_insert_eq; rewrite delete_insert_id by done; done.
Qed.

Lemma sample_uuid_nonempty (n : nat) : uuidv4 Sample.w n ≠ "".
Proof. intros H. discriminate H. Qed.

Lemma running_world : world Sample.running = Sample.w.
Proof. vm_compute. reflexivity. Qed.

Lemma running_uuid_nonempty (n : nat) : uuidv4 (world Sample.running) n ≠ "".
Proof. rewrite running_world. apply sample_uuid_nonempty. Qed.

Lemma command_round_trip_witness :
  let s := run (boot Sample.w) Examples.started in
  let s1 := default s (sendPiCommand abort SinkIgnored s) in
  Inj (=) (=) (uuidv4 Sample.w) ∧ uuidv4 Sample.w (uuids s) ≠ "" ∧
  sendPiCommand abort SinkIgnored s = Some s1 ∧
  pendingRequests s !! uuidv4 Sample.w (uuids s) = None.
Proof.
  cbv zeta.
  assert (H2 : sendPiCommand abort SinkIgnored (run (boot Sample.w) Examples.started)
               = Some (default (run (boot Sample.w) Examples.started)
                         (sendPiCommand abort SinkIgnored
                            (run (boot Sample.w) Examples.started))))
    by (vm_compute; reflexivity).
  destruct (command_round_trip Sample.w Examples.started abort SinkIgnored _
              sample_uuid_inj (sample_uuid_nonempty _) H2) as (_ & _ & H & _).
  split; [exact sample_uuid_inj |]. split; [apply sample_uuid_nonempty |].
  split; [exact H2 | exact H].
Defined.

Lemma handled_stays_absent (id : ReqId) (s s' : State) (m : nat) :
  Inj (=) (=) (uuidv4 (world s)) → handled id s s' → (m < uuids s)%nat →
  pendingRequests s !! uuidv4 (world s) m = None →
  pendingRequests s' !! uuidv4 (world s) m = None.
Proof.
  intros Hinj H Hm Hl.
  assert (Hne : ∀ n, (uuids s ≤ n)%nat → uuidv4 (world s) n ≠ uuidv4 (world s) m).
  { intros n Hn Heq. apply Hinj in Heq. lia. }
  destruct H as [result error extra Hw Hu Hps Hpd Hout Hok Hpe Hn
                | n sink' Hw Hps Hpd Hout Hpe Hown Hn
                | a Hw Hu Hout Hpe Hpd Hown Hps]; rewrite Hpe.
  - destruct extra as [n |]; [| done].
    rewrite lookup_insert_ne; [done | apply Hne; lia].
  - rewrite lookup_insert_ne; [done | apply Hne; lia].
  - done.
Qed.

(** X2: an answer of the agent is consumed once: delivering the same
    answer a second time changes nothing. *)
Theorem answer_consumed_once (w : World) (tr : list Input) (r : PiResponse) :
  Inj (=) (=) (uuidv4 w) →
  let s := run (boot w) tr in
  step (step s (InPi (PiResp r))) (InPi (PiResp r)) = step s (InPi (PiResp r)).
Proof.
  intros Hinj. cbv zeta.
  destruct (account_invariant w tr Hinj) as (Hwk & Hw & _ & _). cbv zeta in *.
  set (s := run (boot w) tr) in *.
  assert (Hgone : Js.truthy (resp_id r) = true →
            pendingRequests (step s (InPi (PiResp r))) !! default "" (resp_id r) = None).
  { intros Ht. simpl. rewrite Ht.
    destruct (pendingRequests s !! default "" (resp_id r)) as [k |] eqn:Hl; [| done].
    destruct Hwk as [Hk Hp]. destruct (Hk _ _ Hl) as (m & Hm & Hkey).
    set (s1 := set_pendingRequests (delete (default "" (resp_id r)) (pendingRequests s)) s).
    assert (Hl1 : pendingRequests s1 !! uuidv4 (world s1) m = None)
      by (simpl; rewrite <- Hkey; apply lookup_delete_eq).
    rewrite Hkey.
    assert (Hws : world s1 = world s) by reflexivity. rewrite <- Hws.
    destruct (sinkOwner k) as [id |] eqn:Hown.
    - destruct (resp_success r);
        (eapply handled_stays_absent;
         [by rewrite Hws, Hw | first [by apply handled_resolve | by apply handled_reject]
         | done | done]).
    - destruct k; try discriminate. by destruct (resp_success r). }
  destruct (Js.truthy (resp_id r)) eqn:Ht.
  - specialize (Hgone eq_refl). simpl. rewrite Ht. simpl in Hgone. rewrite Ht in Hgone.
    by rewrite Hgone.
  - simpl. by rewrite Ht.
Qed.

Lemma answer_consumed_once_witness :
  let s := run (boot Sample.w) Examples.started in
  let r := answer "uuid-0" true None None in
  Inj (=) (=) (uuidv4 Sample.w) ∧ step (step s r) r = step s r.
Proof.
  cbv zeta. split; [exact sample_uuid_inj |].
  exact (answer_consumed_once Sample.w Examples.started
           {| resp_id := Some "uuid-0"; resp_success := true;
              resp_data := None; resp_error := None |} sample_uuid_inj).
Defined.

Ltac solve_keys :=
  let k := fresh "k" in
  let H := fresh "H" in
  intros k H;
  first
    [ by auto
    | repeat match type of H with
             | context [<[?i := _]> _ !! k] =>
                 destruct (decide (i = k)) as [<- |];
                 [ by auto | rewrite lookup_insert_ne in H by done ]
             end;
      first
        [ by auto
        | repeat match type of H with
                 | context [delete ?i _ !! k] =>
                     destruct (decide (i = k)) as [<- |];
                     [ by rewrite lookup_delete_eq in H
                     | rewrite lookup_delete_ne in H by done ]
                 end;
          by auto ] ].

Ltac write_step :=
  simpl; split_branches; simpl;
  (split; [reflexivity |]); (split; [lia |]);
  first [ left; split; [reflexivity | solve_keys]
        | right; eexists _, _; (split; [| split; [reflexivity | solve_keys]]);
          simpl; lia ].

Lemma writeStep_dispatch (req : CodexRequest) (s : State) :
  writeStep s (dispatch req s).
Proof. unfold writeStep. unfold_router. write_step. Qed.

Lemma writeStep_settled (s : State) (id : string) (s' : State) :
  writeStep (set_pendingRequests (delete id (pendingRequests s)) s) s' →
  writeStep s s'.
Proof.
  intros (Hw & Hu & H). split; [done |]. split; [done |].
  destruct H as [[Hp Hk] | (n & body & Hn & Hp & Hk)].
  - left. split; [done |]. intros k Hl. specialize (Hk k Hl). simpl in Hk.
    intros E. apply Hk. destruct (decide (id = k)) as [<- |];
      [apply lookup_delete_eq | by rewrite lookup_delete_ne].
  - right. exists n, body. split; [done |]. split; [done |].
    intros k Hl. destruct (Hk k Hl) as [Hk' | ->]; [left | by right].
    simpl in Hk'. intros E. apply Hk'. destruct (decide (id = k)) as [<- |];
      [apply lookup_delete_eq | by rewrite lookup_delete_ne].
Qed.

Lemma writeStep_step (s : State) (i : Input) : writeStep s (step s i).
Proof.
  destruct i as [req | [r | e] | | k c]; simpl.
  - destruct (String.eqb _ _); [unfold writeStep; write_step |].
    unfold handleCodexRequest. destruct (alive s); [apply writeStep_dispatch |].
    unfold writeStep. write_step.
  - destruct (Js.truthy _); [| unfold writeStep; write_step].
    destruct (pendingRequests s !! _) as [sink |]; [| unfold writeStep; write_step].
    apply (writeStep_settled s (default "" (resp_id r))).
    destruct (resp_success r), sink; simpl;
      try apply writeStep_dispatch;
      unfold writeStep; unfold_router; write_step.
  - unfold writeStep, translatePiEventToCodex, turnIdOrFresh, draw.
    destruct e;
      unfold translate_message_update, translate_message_end, translate_tool_start,
        translate_tool_end, errorNotification, draw, sendCodexNotification;
      write_step.
  - unfold writeStep. write_step.
  - destruct (parked s !! k) as [a |]; [| unfold writeStep; write_step].
    destruct a, c as [| [|] | [|]]; simpl; unfold writeStep, startup_setModel;
      unfold_router; write_step.
Qed.

Lemma commandIds_invariant (w : World) (tr : list Input) :
  Inj (=) (=) (uuidv4 w) →
  let s := run (boot w) tr in
  world s = w ∧ NoDup (commandIds s) ∧
  (∀ k, k ∈ commandIds s → ∃ n, (n < uuids s)%nat ∧ k = uuidv4 w n) ∧
  (∀ k, pendingRequests s !! k ≠ None → k ∈ commandIds s).
Proof.
  intros Hinj. induction tr as [| i tr IH] using rev_ind; cbv zeta.
  - split; [done |]. split; [constructor |].
    split; [by intros k Hk; apply elem_of_nil in Hk |]. by intros k Hk.
  - rewrite run_snoc. cbv zeta in IH. destruct IH as (Hw & Hnd & Hids & Hpend).
    destruct (writeStep_step (run (boot w) tr) i)
      as (Hw' & Hu & [[Hp Hk] | (n & body & Hn & Hp & Hk)]);
      set (s := run (boot w) tr) in *; set (s' := step s i) in *.
    + unfold commandIds in *. rewrite Hp. split; [congruence |].
      split; [done |]. split.
      * intros k Hin. destruct (Hids k Hin) as (m & Hm & ->). exists m. split; [lia | done].
      * intros k Hl. auto.
    + unfold commandIds in *. rewrite Hp, map_app. simpl. rewrite Hw in *.
      split; [congruence |]. split; [| split].
      * apply NoDup_app. split; [done |]. split; [| apply NoDup_singleton].
        intros k Hin Hk'. apply list_elem_of_singleton in Hk'. subst k.
        destruct (Hids _ Hin) as (m & Hm & Heq). apply Hinj in Heq. lia.
      * intros k Hin. apply elem_of_app in Hin. destruct Hin as [Hin | Hin].
        -- destruct (Hids k Hin) as (m & Hm & ->). exists m. split; [lia | done].
        -- apply list_elem_of_singleton in Hin. subst k. exists n. split; [lia | done].
      * intros k Hl. apply elem_of_app. destruct (Hk k Hl) as [Hk' | ->].
        -- left. auto.
        -- right. by apply list_elem_of_singleton.
Qed.

(** X3: the commands written to the agent carry pairwise distinct
    identifiers, and every stored sink is filed under the identifier of a
    command that was written. *)
Theorem command_ids_unique (w : World) (tr : list Input) :
  Inj (=) (=) (uuidv4 w) →
  let s := run (boot w) tr in
  NoDup (commandIds s) ∧
  (∀ k sink, pendingRequests s !! k = Some sink → k ∈ commandIds s) ∧
  (∀ i j c d, piStdin s !! i = Some c → piStdin s !! j = Some d →
              cmd_id c = cmd_id d → i = j).
Proof.
  intros Hinj. cbv zeta.
  destruct (commandIds_invariant w tr Hinj) as (_ & Hnd & _ & Hpend).
  cbv zeta in *. split; [done |]. split.
  - intros k sink Hl. apply Hpend. by rewrite Hl.
  - intros i j c d Hi Hj Heq.
    apply (NoDup_lookup _ i j (cmd_id c) Hnd); unfold commandIds;
      rewrite list_lookup_fmap; [by rewrite Hi | by rewrite Hj, Heq].
Qed.

Lemma command_ids_unique_witness :
  Inj (=) (=) (uuidv4 Sample.w) ∧
  NoDup (commandIds (run (boot Sample.w) Examples.started)).
Proof.
  split; [exact sample_uuid_inj |].
  exact (proj1 (command_ids_unique Sample.w Examples.started sample_uuid_inj)).
Defined.

Lemma dispatch_no_child (req : CodexRequest) (s : State) :
  piProcess s = None → piStdin (dispatch req s) = piStdin s.
Proof.
  intros H. unfold_router. simpl. rewrite ?H. simpl.
  split_branches_eq; simpl in *; first [reflexivity | congruence].
Qed.

Lemma event_frame_stdin (s : State) (e : PiEvent) :
  piStdin (translatePiEventToCodex e s) = piStdin s.
Proof.
  unfold translatePiEventToCodex, turnIdOrFresh, draw.
  destruct e; simpl;
    unfold translate_message_update, translate_message_end, translate_tool_start,
      translate_tool_end, errorNotification, draw;
    split_branches; reflexivity.
Qed.

(** X4: while there is no child, no step writes a command or stores a
    sink, whatever the input. *)
Theorem no_child_no_write (s : State) (i : Input) :
  piProcess s = None →
  piStdin (step s i) = piStdin s ∧
  (∀ k, pendingRequests (step s i) !! k ≠ None → pendingRequests s !! k ≠ None).
Proof.
  intros H.
  assert (Hw : piStdin (step s i) = piStdin s).
  { destruct i as [req | [r | e] | | k c]; simpl.
    - destruct (String.eqb _ _); [done |].
      unfold handleCodexRequest, alive. by rewrite H.
    - destruct (Js.truthy _); [| done].
      destruct (pendingRequests s !! _) as [sink |]; [| done].
      destruct (resp_success r), sink; simpl;
        try (by apply (dispatch_no_child _ (set_pendingRequests _ s)));
        unfold_router; simpl; rewrite ?H; simpl;
        split_branches_eq; simpl in *; first [reflexivity | congruence].
    - apply (event_frame_stdin s e).
    - done.
    - destruct (parked s !! k) as [a |]; [| done].
      destruct a, c as [| [|] | [|]]; simpl; unfold startup_setModel;
        unfold_router; simpl; rewrite ?H; simpl;
        split_branches_eq; simpl in *; first [reflexivity | congruence]. }
  split; [done |].
  destruct (writeStep_step s i) as (_ & _ & [[_ Hk] | (n & body & _ & Hp & _)]);
    [done |].
  rewrite Hw in Hp. exfalso. apply (f_equal List.length) in Hp.
  rewrite length_app in Hp. simpl in Hp. lia.
Qed.

Lemma no_child_no_write_witness :
  let i := InClient (Sample.request 1 "initialize" None) in
  piProcess (boot Sample.w) = None ∧
  piStdin (step (boot Sample.w) i) = piStdin (boot Sample.w).
Proof.
  cbv zeta. split; [reflexivity |].
  exact (proj1 (no_child_no_write (boot Sample.w)
                  (InClient (Sample.request 1 "initialize" None)) eq_refl)).
Defined.

(** ** Starting the child *)

(** X5: start-up, from the request that finds no child to the answer to
    the first set_model. The command names the provider anthropic and the
    current model. When it is answered with success the request is
    dispatched; when it fails the request gets the error and the child
    stays, so that the next request is dispatched at once. The exit
    handler leaves no child behind, so the next request starts one. *)
Theorem startup_cycle (s : State) (req : CodexRequest) (data : option PiData)
    (error : option string) :
  req_method req ≠ "" → alive s = false →
  uuidv4 (world s) (uuids s) ≠ "" →
  let cmd := uuidv4 (world s) (uuids s) in
  let s1 := step s (InClient req) in
  let s2 := step s1 (InDone (parks s) TimerFired) in
  let ok := step s2 (answer cmd true data error) in
  let ko := step s2 (answer cmd false data error) in
  piStdin s2 = piStdin s ++ [command cmd (set_model "anthropic" (currentModel s))] ∧
  stdout s2 = stdout s ∧
  ok = dispatch req (set_pendingRequests (delete cmd (pendingRequests s2)) s2) ∧
  stdout ko = stdout s ++ [thrown (req_id req) (Js.or_else error "Unknown error")] ∧
  piStdin ko = piStdin s2 ∧ alive ko = true ∧ spawns ko = S (spawns s) ∧
  (∀ s0, alive (step s0 InPiExit) = false).
Proof.
  intros Hm Ha Hid. cbv zeta.
  destruct (startup_traffic s req Hm Ha) as (_ & _ & _ & _ & Hout & Hin & Hpend).
  cbv zeta in *.
  rewrite step_client, handle_not_alive in * by done.
  set (s2 := step _ (InDone (parks s) TimerFired)) in *.
  split; [done |]. split; [done |].
  unfold answer. simpl. rewrite (eqb_false_of_ne _ _ Hid). simpl. rewrite Hpend.
  split; [done |]. simpl. rewrite Hout, Hin.
  split; [done |]. split; [done |].
  assert (E : piProcess s2 = Some {| killed := false |} ∧ spawns s2 = S (spawns s)).
  { unfold s2. simpl. rewrite lookup_insert_eq. simpl.
    unfold startup_setModel, sendPiCommand. simpl. done. }
  destruct E as [Ep Es]. unfold alive. simpl. rewrite Ep, Es. done.
Qed.

Lemma startup_cycle_witness :
  let s := boot Sample.w in
  let req := Sample.request 1 "skills/list" None in
  let s2 := step (step s (InClient req)) (InDone (parks s) TimerFired) in
  req_method req ≠ "" ∧ alive s = false ∧ uuidv4 (world s) (uuids s) ≠ "" ∧
  stdout s2 = stdout s.
Proof.
  cbv zeta.
  assert (H1 : req_method (Sample.request 1 "skills/list" None) ≠ "") by discriminate.
  destruct (startup_cycle (boot Sample.w) (Sample.request 1 "skills/list" None)
              None None H1 eq_refl (sample_uuid_nonempty _)) as (_ & H & _).
  split; [exact H1 |]. split; [reflexivity |].
  split; [apply sample_uuid_nonempty | exact H].
Defined.



(** ** Threads and turns *)

(** X7: a turn from turn/start to agent_end, when no model switch is
    needed: the response carries the new turn identifier and the prompt is
    written; agent_start announces turn/started under that identifier and
    empties the diff accumulator; agent_end announces turn/completed under
    it and clears the current turn. *)
Theorem turn_lifecycle (s : State) (req : CodexRequest) :
  req_method req = "turn/start" → alive s = true →
  textOfInput (req_params req ≫= p_input) ≠ "" →
  Js.truthy (req_params req ≫= p_model) = false ∨
    req_params req ≫= p_model = Some (currentModel s) →
  (∀ n, uuidv4 (world s) n ≠ "") →
  let message := textOfInput (req_params req ≫= p_input) in
  let s1 := step s (InClient req) in
  let s2 := step s1 (InPi (PiEv agent_start)) in
  let s3 := step s2 (InPi (PiEv agent_end)) in
  ∃ turn thread cmd,
    currentTurnId s1 = Some turn ∧ currentThreadId s1 = Some thread ∧
    stdout s1 = stdout s ++ [responseValue (req_id req) (turnValue turn) None] ∧
    piStdin s1 = piStdin s ++ [{| cmd_id := cmd; cmd_body := prompt message |}] ∧
    stdout s2 = stdout s1 ++ [turnEvent "turn/started" turn thread "inProgress"] ∧
    accumulatedDiff s2 = [] ∧ isProcessing s2 = true ∧
    stdout s3 = stdout s2 ++ [turnEvent "turn/completed" turn thread "completed"] ∧
    currentTurnId s3 = None ∧ isProcessing s3 = false ∧
    piStdin s3 = piStdin s1.
Proof.
  intros Hm Ha Htext Hmodel Hid. cbv zeta.
  rewrite (step_alive s req _ Hm) by done.
  destruct (alive_process s Ha) as [p Hp].
  assert (Hskip : Js.truthy (req_params req ≫= p_model)
                  && negb (default "" (req_params req ≫= p_model) =? currentModel s)
                  = false).
  { destruct Hmodel as [-> | ->]; [done |]. simpl.
    by rewrite String.eqb_refl, andb_false_r. }
  unfold dispatch. rewrite Hm. simpl. unfold turnStart.
  rewrite (eqb_false_of_ne _ _ Htext).
  set (known := Js.or _ _).
  destruct (Js.truthy known) eqn:Hk; simpl; rewrite Hskip; simpl;
    unfold turnStart_reply, sendPiCommand_detached, sendPiCommand; simpl;
    rewrite Hp; simpl; unfold translatePiEventToCodex, turnIdOrFresh; simpl.
  - destruct (truthy_or_else known Hk) as [Hor Hne].
    rewrite (eqb_false_of_ne _ _ (Hid (uuids s))). simpl.
    rewrite (eqb_false_of_ne _ _ (Hid (uuids s))). simpl.
    rewrite (eqb_false_of_ne _ _ Hne). simpl.
    eexists _, _, _. repeat (split; [reflexivity |]). reflexivity.
  - rewrite (eqb_false_of_ne _ _ (Hid (S (uuids s)))). simpl.
    rewrite (eqb_false_of_ne _ _ (Hid (S (uuids s)))). simpl.
    rewrite (eqb_false_of_ne _ _ (Hid (uuids s))). simpl.
    eexists _, _, _. repeat (split; [reflexivity |]). reflexivity.
Qed.

Lemma turn_lifecycle_witness :
  let req := Examples.turnRequest 2 "hi" None in
  req_method req = "turn/start" ∧ alive Sample.running = true ∧
  textOfInput (req_params req ≫= p_input) ≠ "" ∧
  Js.truthy (req_params req ≫= p_model) = false ∧
  (∃ turn, currentTurnId (step Sample.running (InClient req)) = Some turn).
Proof.
  cbv zeta.
  assert (H2 : textOfInput (req_params (Examples.turnRequest 2 "hi" None) ≫= p_input)
               ≠ "") by discriminate.
  destruct (turn_lifecycle Sample.running (Examples.turnRequest 2 "hi" None)
              eq_refl running_alive H2 (or_introl eq_refl) running_uuid_nonempty)
    as (turn & thread & cmd & H & _).
  split; [reflexivity |]. split; [apply running_alive |]. split; [exact H2 |].
  split; [reflexivity |]. exists turn. exact H.
Defined.

(** X8: a turn/start that names another model writes set_model and answers
    nothing until the agent has answered. On success the turn response and
    the prompt follow. On failure the client gets the error and no prompt
    is written, but the model stays switched: the same request again is
    answered and prompted without a new set_model. *)
Theorem model_switch (s : State) (req : CodexRequest) (model : string)
    (data : option PiData) (error : option string) :
  req_method req = "turn/start" → alive s = true →
  textOfInput (req_params req ≫= p_input) ≠ "" →
  req_params req ≫= p_model = Some model → model ≠ "" → model ≠ currentModel s →
  (∀ n, uuidv4 (world s) n ≠ "") →
  let message := textOfInput (req_params req ≫= p_input) in
  let s1 := step s (InClient req) in
  ∃ cmd,
    let provider := (resolveModel (modelProviderMap s) model).1 in
    let modelId := (resolveModel (modelProviderMap s) model).2 in
    let ok := step s1 (answer cmd true data error) in
    let ko := step s1 (answer cmd false data error) in
    let again := step ko (InClient req) in
    stdout s1 = stdout s ∧
    piStdin s1 =
      piStdin s ++ [{| cmd_id := cmd; cmd_body := set_model provider modelId |}] ∧
    currentModel s1 = model ∧ currentProvider s1 = provider ∧
    (∃ turn cmd',
       stdout ok = stdout s ++ [responseValue (req_id req) (turnValue turn) None] ∧
       currentTurnId ok = Some turn ∧
       piStdin ok = piStdin s1 ++ [{| cmd_id := cmd'; cmd_body := prompt message |}]) ∧
    stdout ko =
      stdout s ++ [thrown (req_id req) (Js.or_else error "Unknown error")] ∧
    piStdin ko = piStdin s1 ∧ currentModel ko = model ∧
    (∃ turn cmd',
       stdout again = stdout ko ++ [responseValue (req_id req) (turnValue turn) None] ∧
       piStdin again = piStdin ko ++ [{| cmd_id := cmd'; cmd_body := prompt message |}]).
Proof.
  intros Hm Ha Htext Hmodel Hne Hcur Hid. cbv zeta.
  rewrite (step_alive s req _ Hm) by done.
  destruct (alive_process s Ha) as [p Hp].
  assert (Hkill : negb (killed p) = true) by (unfold alive in Ha; by rewrite Hp in Ha).
  assert (D : ∀ s0, dispatch req s0 = turnStart (req_id req) (req_params req) s0).
  { intros s0. unfold dispatch. by rewrite Hm. }
  rewrite D. unfold turnStart.
  rewrite (eqb_false_of_ne _ _ Htext), Hmodel.
  set (known := Js.or _ _).
  destruct (resolveModel (modelProviderMap s) model) as [provider modelId] eqn:Hres.
  destruct (Js.truthy known) eqn:Hk; simpl;
    rewrite (eqb_false_of_ne _ _ Hne), (eqb_false_of_ne _ _ Hcur); simpl;
    rewrite Hres; unfold sendPiCommand; simpl; rewrite Hp; simpl.
  - eexists. repeat (split; [reflexivity |]).
    rewrite (eqb_false_of_ne _ _ (Hid (S (uuids s)))). simpl.
    rewrite lookup_insert_eq. simpl.
    unfold turnStart_reply, sendPiCommand_detached, sendPiCommand. simpl.
    rewrite Hp. simpl.
    split; [by eexists _, _ |]. repeat (split; [reflexivity |]).
    rewrite Hm. simpl. unfold handleCodexRequest, alive. simpl. rewrite Hp. simpl.
    rewrite Hkill, D. unfold turnStart. simpl.
    rewrite (eqb_false_of_ne _ _ Htext), Hmodel. simpl.
    assert (Hk' : Js.truthy (Js.or (req_params req ≫= p_threadId) (Some (default "" known))) = true).
    { destruct (truthy_or_else known Hk) as [_ Hd]. unfold Js.or.
      destruct (Js.truthy (req_params req ≫= p_threadId)) eqn:Et; [done |].
      simpl. by rewrite (eqb_false_of_ne _ _ Hd). }
    rewrite Hk'. simpl.
    rewrite (eqb_false_of_ne _ _ Hne), String.eqb_refl. simpl.
    unfold turnStart_reply, sendPiCommand_detached, sendPiCommand. simpl.
    rewrite Hp. simpl. by eexists _, _.
  - eexists. repeat (split; [reflexivity |]).
    rewrite (eqb_false_of_ne _ _ (Hid (S (S (uuids s))))). simpl.
    rewrite lookup_insert_eq. simpl.
    unfold turnStart_reply, sendPiCommand_detached, sendPiCommand. simpl.
    rewrite Hp. simpl.
    split; [by eexists _, _ |]. repeat (split; [reflexivity |]).
    rewrite Hm. simpl. unfold handleCodexRequest, alive. simpl. rewrite Hp. simpl.
    rewrite Hkill, D. unfold turnStart. simpl.
    rewrite (eqb_false_of_ne _ _ Htext), Hmodel. simpl.
    assert (Hk' : Js.truthy (Js.or (req_params req ≫= p_threadId)
                               (Some (uuidv4 (world s) (uuids s)))) = true).
    { unfold Js.or.
      destruct (Js.truthy (req_params req ≫= p_threadId)) eqn:Et; [done |].
      simpl. by rewrite (eqb_false_of_ne _ _ (Hid (uuids s))). }
    rewrite Hk'. simpl.
    rewrite (eqb_false_of_ne _ _ Hne), String.eqb_refl. simpl.
    unfold turnStart_reply, sendPiCommand_detached, sendPiCommand. simpl.
    rewrite Hp. simpl. by eexists _, _.
Qed.

Lemma model_switch_witness :
  let req := Examples.turnRequest 2 "hi" (Some "gpt-4") in
  req_method req = "turn/start" ∧ alive Sample.running = true ∧
  textOfInput (req_params req ≫= p_input) ≠ "" ∧
  req_params req ≫= p_model = Some "gpt-4" ∧ "gpt-4" ≠ "" ∧
  "gpt-4" ≠ currentModel Sample.running ∧
  stdout (step Sample.running (InClient req)) = stdout Sample.running.
Proof.
  cbv zeta.
  assert (H2 : textOfInput
                 (req_params (Examples.turnRequest 2 "hi" (Some "gpt-4")) ≫= p_input)
               ≠ "") by discriminate.
  assert (H3 : "gpt-4" ≠ "") by discriminate.
  assert (H4 : "gpt-4" ≠ currentModel Sample.running) by (vm_compute; discriminate).
  destruct (model_switch Sample.running (Examples.turnRequest 2 "hi" (Some "gpt-4"))
              "gpt-4" None None eq_refl running_alive H2 eq_refl H3 H4
              running_uuid_nonempty) as (cmd & H & _).
  split; [reflexivity |]. split; [apply running_alive |]. split; [exact H2 |].
  split; [reflexivity |]. split; [exact H3 |]. split; [exact H4 | exact H].
Defined.

(** X9: an interrupt writes abort and answers only when the agent has:
    with success, clearing the processing flag and keeping the current
    turn, or with the agent's error, leaving the flag as it was. *)
Theorem interrupt_waits (s : State) (req : CodexRequest) (data : option PiData)
    (error : option string) :
  req_method req = "turn/interrupt" ∨ req_method req = "thread/interrupt" →
  alive s = true → (∀ n, uuidv4 (world s) n ≠ "") →
  let cmd := uuidv4 (world s) (uuids s) in
  let s1 := step s (InClient req) in
  let ok := step s1 (answer cmd true data error) in
  let ko := step s1 (answer cmd false data error) in
  stdout s1 = stdout s ∧ piStdin s1 = piStdin s ++ [command cmd abort] ∧
  isProcessing s1 = isProcessing s ∧
  stdout ok = stdout s ++ [responseValue (req_id req) successResult None] ∧
  isProcessing ok = false ∧ currentTurnId ok = currentTurnId s ∧
  stdout ko = stdout s ++ [thrown (req_id req) (Js.or_else error "Unknown error")] ∧
  isProcessing ko = isProcessing s ∧ piStdin ok = piStdin s1 ∧ piStdin ko = piStdin s1.
Proof.
  intros Hm Ha Hid. cbv zeta.
  destruct (alive_process s Ha) as [p Hp].
  assert (E : step s (InClient req) =
            default s (sendPiCommand abort (SinkAbort (req_id req)) s)).
  { destruct Hm as [Hm | Hm]; rewrite (step_alive s req _ Hm) by done;
      unfold dispatch; rewrite Hm; simpl;
      by destruct (sendPiCommand abort (SinkAbort (req_id req)) s) eqn:Es;
        [| unfold sendPiCommand in Es; rewrite Hp in Es]. }
  rewrite E. unfold sendPiCommand. rewrite Hp. simpl.
  rewrite (eqb_false_of_ne _ _ (Hid (uuids s))). simpl.
  rewrite lookup_insert_eq. simpl. by repeat split.
Qed.

Lemma interrupt_waits_witness :
  let req := Sample.request 3 "turn/interrupt" None in
  (req_method req = "turn/interrupt" ∨ req_method req = "thread/interrupt") ∧
  alive Sample.running = true ∧
  stdout (step Sample.running (InClient req)) = stdout Sample.running.
Proof.
  cbv zeta.
  destruct (interrupt_waits Sample.running (Sample.request 3 "turn/interrupt" None)
              None None (or_introl eq_refl) running_alive running_uuid_nonempty)
    as (H & _).
  split; [by left |]. split; [apply running_alive | exact H].
Defined.

(** X10: thread/start sets a fresh thread and the working directory,
    writes new_session and answers at once; the agent's answer to
    new_session, whatever it is, only removes the sink. *)
Theorem thread_start (s : State) (req : CodexRequest) (success : bool)
    (data : option PiData) (error : option string) :
  req_method req = "thread/start" → alive s = true →
  (∀ n, uuidv4 (world s) n ≠ "") →
  let thread := uuidv4 (world s) (uuids s) in
  let cmd := uuidv4 (world s) (S (uuids s)) in
  let s1 := step s (InClient req) in
  let s2 := step s1 (answer cmd success data error) in
  currentThreadId s1 = Some thread ∧
  cwd s1 = Js.or_else (req_params req ≫= p_cwd) (process_cwd (world s)) ∧
  piStdin s1 = piStdin s ++ [command cmd new_session] ∧
  stdout s1 =
    stdout s ++
      [responseValue (req_id req)
         (JObj [("thread", JObj [("id", JStr thread); ("name", JStr "New Thread");
                                 ("createdAt",
                                  JStr (toISOString (world s) (clock s)))])]) None] ∧
  stdout s2 = stdout s1 ∧ piStdin s2 = piStdin s1 ∧
  currentThreadId s2 = Some thread ∧
  pendingRequests s2 !! cmd = None.
Proof.
  intros Hm Ha Hid. cbv zeta.
  destruct (alive_process s Ha) as [p Hp].
  rewrite (step_alive s req _ Hm) by done.
  assert (E : dispatch req s =
    sendCodexResponse (req_id req)
      (JObj [("thread", JObj [("id", JStr (uuidv4 (world s) (uuids s)));
                              ("name", JStr "New Thread");
                              ("createdAt", JStr (toISOString (world s) (clock s)))])])
      None
      (set_clock (S (clock s))
         (set_piStdin (piStdin s ++ [command (uuidv4 (world s) (S (uuids s))) new_session])
            (set_pendingRequests
               (<[uuidv4 (world s) (S (uuids s)) := SinkIgnored]> (pendingRequests s))
               (set_uuids (S (S (uuids s)))
                  (set_cwd (Js.or_else (req_params req ≫= p_cwd) (process_cwd (world s)))
                     (set_currentThreadId (Some (uuidv4 (world s) (uuids s))) s))))))).
  { unfold dispatch. rewrite Hm. simpl.
    unfold sendPiCommand_detached, sendPiCommand. simpl. rewrite Hp. reflexivity. }
  rewrite E. clear E.
  split; [reflexivity |]. split; [reflexivity |]. split; [reflexivity |].
  split; [reflexivity |].
  unfold answer. cbn [step handlePiMessage resp_id resp_success Js.truthy default].
  rewrite (eqb_false_of_ne _ _ (Hid (S (uuids s)))).
  cbn [negb sendCodexResponse pendingRequests set_stdout set_clock set_piStdin set_pendingRequests].
  rewrite lookup_insert_eq.
  destruct success; cbn; repeat (split; [reflexivity |]); apply lookup_delete_eq.
Qed.

Lemma thread_start_witness :
  let req := Sample.request 3 "thread/start" None in
  req_method req = "thread/start" ∧ alive Sample.running = true ∧
  cwd (step Sample.running (InClient req)) = "/work".
Proof.
  cbv zeta.
  destruct (thread_start Sample.running (Sample.request 3 "thread/start" None)
              true None None eq_refl running_alive running_uuid_nonempty)
    as (_ & H & _).
  split; [reflexivity |]. split; [apply running_alive |].
  rewrite H, running_world. reflexivity.
Defined.

(** X11: thread/resume makes the given thread current, thread/list then
    lists exactly that thread, and after thread/archive thread/list lists
    none. *)
Theorem resume_then_list (s : State) (resume list archive : CodexRequest)
    (params : Params) (thread : string) :
  req_method resume = "thread/resume" → req_method list = "thread/list" →
  req_method archive = "thread/archive" →
  req_params resume = Some params → p_threadId params = Some thread →
  thread ≠ "" → alive s = true →
  let s1 := step s (InClient resume) in
  let s2 := step s1 (InClient list) in
  let s3 := step (step s2 (InClient archive)) (InClient list) in
  currentThreadId s1 = Some thread ∧
  last (stdout s2) =
    Some (responseValue (req_id list)
            (threadListed thread (toISOString (world s) (clock s))) None) ∧
  last (stdout s3) =
    Some (responseValue (req_id list) (JObj [("threads", JArr [])]) None).
Proof.
  intros H1 H2 H3 Hp Ht Hne Ha. cbv zeta.
  rewrite (step_alive s resume _ H1) by done.
  assert (E1 : dispatch resume s =
            sendCodexResponse (req_id resume)
              (JObj [("thread", JObj [("id", JStr thread); ("items", JArr []);
                                      ("status", JStr "ready")])]) None
              (set_currentThreadId (Some thread) s)).
  { unfold dispatch. rewrite H1, Hp. simpl. rewrite Ht. simpl.
    by rewrite (eqb_false_of_ne _ _ Hne). }
  rewrite E1. split; [done |].
  rewrite (step_alive _ list _ H2) by done.
  assert (E2 : ∀ s0, currentThreadId s0 = Some thread →
            dispatch list s0 =
              sendCodexResponse (req_id list)
                (threadListed thread (toISOString (world s0) (clock s0))) None
                (set_clock (S (clock s0)) s0)).
  { intros s0 Hc. unfold dispatch. rewrite H2. simpl. rewrite Hc. simpl.
    rewrite (eqb_false_of_ne _ _ Hne). simpl. by rewrite ?Hc. }
  rewrite E2 by done. split; [unfold sendCodexResponse; simpl; by rewrite last_snoc |].
  rewrite (step_alive _ archive _ H3) by done.
  rewrite (step_alive _ list _ H2) by (done || by rewrite alive_dispatch).
  unfold dispatch at 1. rewrite H2. simpl.
  unfold dispatch. rewrite H3. simpl. by rewrite last_snoc.
Qed.

Lemma resume_then_list_witness :
  let resume := Sample.request 1 "thread/resume" (Some (Examples.threadParams "t1")) in
  req_method resume = "thread/resume" ∧ alive Sample.running = true ∧
  "t1" ≠ "" ∧
  currentThreadId (step Sample.running (InClient resume)) = Some "t1".
Proof.
  cbv zeta.
  assert (H : "t1" ≠ "") by discriminate.
  destruct (resume_then_list Sample.running
              (Sample.request 1 "thread/resume" (Some (Examples.threadParams "t1")))
              (Sample.request 2 "thread/list" None)
              (Sample.request 3 "thread/archive" None)
              (Examples.threadParams "t1") "t1" eq_refl eq_refl eq_refl eq_refl eq_refl
              H running_alive) as (H1 & _).
  split; [reflexivity |]. split; [apply running_alive |]. split; [exact H | exact H1].
Defined.

(** ** The request router *)

(** X12: the requests the adapter answers itself: with a child running,
    each gets its one response at once, and neither the child nor any
    waiting handler, the current turn, the model or the registry is
    touched. *)
Theorem local_requests (s : State) (req : CodexRequest) :
  req_method req ∈ localMethods → alive s = true →
  let s' := step s (InClient req) in
  (∃ result error,
     stdout s' = stdout s ++ [responseValue (req_id req) result error] ∧
     answerOk result error = true) ∧
  piStdin s' = piStdin s ∧ pendingRequests s' = pendingRequests s ∧
  parked s' = parked s ∧ spawns s' = spawns s ∧ piProcess s' = piProcess s ∧
  currentTurnId s' = currentTurnId s ∧ currentModel s' = currentModel s ∧
  modelProviderMap s' = modelProviderMap s.
Proof.
  intros Hin Ha. cbv zeta.
  assert (Hne : req_method req ≠ "").
  { intros E. rewrite E in Hin. unfold localMethods in Hin.
    rewrite !elem_of_cons, elem_of_nil in Hin. intuition discriminate. }
  rewrite step_client, handle_alive by done.
  unfold localMethods in Hin. rewrite !elem_of_cons, elem_of_nil in Hin.
  unfold dispatch.
  destruct Hin as [E | [E | [E | [E | [E | [E | [E | []]]]]]]]; rewrite E; simpl;
    unfold draw, now; split_branches_eq; simpl;
    (split; [eexists _, _; split; [reflexivity | done] |]); done.
Qed.

Lemma local_requests_witness :
  let req := Sample.request 1 "skills/list" None in
  req_method req ∈ localMethods ∧ alive Sample.running = true ∧
  piStdin (step Sample.running (InClient req)) = piStdin Sample.running.
Proof.
  cbv zeta.
  assert (H : req_method (Sample.request 1 "skills/list" None) ∈ localMethods)
    by (unfold localMethods; simpl; repeat (first [by left | right])).
  destruct (local_requests Sample.running (Sample.request 1 "skills/list" None)
              H running_alive) as (_ & H1 & _).
  split; [exact H |]. split; [apply running_alive | exact H1].
Defined.

(** X13: a method that is none of the router's gets the error -32601
    'Method not found: <method>' and changes nothing else. *)
Theorem unknown_method (s : State) (req : CodexRequest) :
  req_method req ∉ routedMethods → req_method req ≠ "" → alive s = true →
  step s (InClient req) =
    set_stdout
      (stdout s ++
         [responseValue (req_id req) JUndef
            (Some ((-32601)%Z, "Method not found: " +:+ req_method req))]) s.
Proof.
  intros Hnot Hne Ha. rewrite (step_alive s req _ eq_refl) by done.
  assert (H : ∀ m, m ∈ routedMethods → String.eqb (req_method req) m = false).
  { intros m Hin. apply String.eqb_neq. by intros <-. }
  unfold dispatch. simpl.
  rewrite !H by (unfold routedMethods; repeat (first [by left | right])).
  done.
Qed.

Lemma unknown_method_witness :
  let req := Sample.request 1 "thread/fork" None in
  (req_method req ∉ routedMethods) ∧ req_method req ≠ "" ∧
  alive Sample.running = true ∧
  spawns (step Sample.running (InClient req)) = spawns Sample.running.
Proof.
  cbv zeta.
  assert (H : req_method (Sample.request 1 "thread/fork" None) ∉ routedMethods).
  { unfold routedMethods. simpl. intros H.
    repeat (apply elem_of_cons in H as [H | H]; [discriminate H |]).
    by apply elem_of_nil in H. }
  assert (H1 : req_method (Sample.request 1 "thread/fork" None) ≠ "") by discriminate.
  split; [exact H |]. split; [exact H1 |]. split; [apply running_alive |].
  rewrite (unknown_method Sample.running (Sample.request 1 "thread/fork" None)
             H H1 running_alive).
  reflexivity.
Defined.

(** X14: model/list writes get_available_models and waits. A successful
    answer is advertised entry by entry and recorded in the registry; while
    the current model is a plain name no entry is marked as the default. A
    failed answer gives the fixed fallback list and leaves the registry as
    it was. *)
Theorem model_list_round_trip (s : State) (req : CodexRequest)
    (data : option PiData) (error : option string) :
  req_method req = "model/list" → alive s = true →
  uuidv4 (world s) (uuids s) ≠ "" →
  let cmd := uuidv4 (world s) (uuids s) in
  let s1 := step s (InClient req) in
  let ok := step s1 (answer cmd true data error) in
  let ko := step s1 (answer cmd false data error) in
  stdout s1 = stdout s ∧ piStdin s1 = piStdin s ++ [command cmd get_available_models] ∧
  stdout ok =
    stdout s ++
      [responseValue (req_id req) (JObj [("data", JArr (modelEntries s data))]) None] ∧
  modelProviderMap ok =
    recordModels (default [] (data ≫= d_models)) (modelProviderMap s) ∧
  (Js.includes (currentModel s) "/" = false →
   Forall (λ e, jget "isDefault" e = JBool false) (modelEntries s data)) ∧
  stdout ko = stdout s ++ [responseValue (req_id req) fallbackModels None] ∧
  modelProviderMap ko = modelProviderMap s ∧
  piStdin ok = piStdin s1 ∧ piStdin ko = piStdin s1.
Proof.
  intros Hm Ha Hid. cbv zeta.
  destruct (alive_process s Ha) as [p Hp].
  rewrite step_client, handle_alive by (done || by rewrite Hm).
  unfold dispatch. rewrite Hm. simpl. unfold sendPiCommand. rewrite Hp. simpl.
  rewrite (eqb_false_of_ne _ _ Hid). simpl. rewrite lookup_insert_eq. simpl.
  repeat (split; [reflexivity |]).
  split; [| by repeat split].
  intros Hplain. unfold modelEntries. apply Forall_map, Forall_forall.
  intros m _. simpl.
  destruct (String.eqb_spec (compositeId m) (currentModel s)) as [E |]; [| done].
  rewrite <- E in Hplain. unfold compositeId in Hplain.
  by rewrite includes_composite in Hplain.
Qed.

Lemma model_list_round_trip_witness :
  let req := Sample.request 8 "model/list" None in
  req_method req = "model/list" ∧ alive Sample.running = true ∧
  uuidv4 (world Sample.running) (uuids Sample.running) ≠ "" ∧
  stdout (step Sample.running (InClient req)) = stdout Sample.running.
Proof.
  cbv zeta.
  destruct (model_list_round_trip Sample.running (Sample.request 8 "model/list" None)
              None None eq_refl running_alive (running_uuid_nonempty _)) as (H & _).
  split; [reflexivity |]. split; [apply running_alive |].
  split; [apply running_uuid_nonempty | exact H].
Defined.

Lemma join_empty (sep : string) (l : list string) :
  sep ≠ "" → Js.join sep l = "" ↔ l = [] ∨ l = [""].
Proof.
  intros Hsep. split.
  - destruct l as [| x [| y l]]; [by left | |].
    + simpl. intros ->. by right.
    + rewrite join_cons by done. destruct x; [| discriminate].
      destruct sep; [done | discriminate].
  - by intros [-> | ->].
Qed.

Theorem text_input_empty (input : option (list InputBlock)) :
  let blocks := List.filter (λ i, Js.eqs (in_type i) "text") (default [] input) in
  textOfInput input = "" ↔
  blocks = [] ∨ ∃ b, blocks = [b] ∧ default "" (in_text b) = "".
Proof.
  cbv zeta. unfold textOfInput.
  assert (E : match input with
              | Some l => List.filter (λ i, Js.eqs (in_type i) "text") l
              | None => []
              end = List.filter (λ i, Js.eqs (in_type i) "text") (default [] input))
    by by destruct input.
  rewrite E. set (blocks := List.filter _ _).
  rewrite join_empty by done. split.
  - intros [H | H].
    + left. by destruct blocks.
    + right. destruct blocks as [| b [| c l]]; try discriminate.
      exists b. split; [done |]. by injection H.
  - intros [-> | (b & -> & Hb)]; [by left |]. right. simpl. by rewrite Hb.
Qed.

(** X15: turn/start is refused with 'No text input provided' exactly when
    its input has no text block, or a single one without text. *)
Theorem turn_start_refusal (s : State) (req : CodexRequest) :
  req_method req = "turn/start" → alive s = true →
  let blocks :=
    List.filter (λ i, Js.eqs (in_type i) "text")
      (default [] (req_params req ≫= p_input)) in
  stdout (step s (InClient req)) = stdout s ++ [noTextError (req_id req)] ↔
  blocks = [] ∨ ∃ b, blocks = [b] ∧ default "" (in_text b) = "".
Proof.
  intros Hm Ha. cbv zeta. rewrite <- text_input_empty.
  destruct (alive_process s Ha) as [p Hp].
  rewrite step_client, handle_alive by (done || by rewrite Hm).
  unfold dispatch. rewrite Hm. simpl. unfold turnStart.
  destruct (String.eqb_spec (textOfInput (req_params req ≫= p_input)) "") as [E | E].
  - split; [done | intros _]. by destruct (Js.truthy _).
  - split; [| done]. intros H. exfalso. revert H.
    destruct (Js.truthy (Js.or _ _)); simpl;
      destruct (_ && _); simpl;
      unfold turnStart_reply, sendPiCommand_detached, sendPiCommand, resolveModel;
      simpl; rewrite ?Hp; simpl;
      repeat match goal with
             | |- context [if ?b then _ else _] => destruct b
             end; simpl; rewrite ?Hp; simpl;
      intros H;
      first [ apply app_inv_head in H; discriminate H
            | apply (f_equal List.length) in H; rewrite length_app in H;
              simpl in H; lia ].
Qed.

Lemma turn_start_refusal_witness :
  let req := Sample.request 5 "turn/start" (Some Examples.noInput) in
  req_method req = "turn/start" ∧ alive Sample.running = true ∧
  stdout (step Sample.running (InClient req)) =
    stdout Sample.running ++ [noTextError (req_id req)].
Proof.
  cbv zeta. split; [reflexivity |]. split; [apply running_alive |].
  apply (turn_start_refusal Sample.running
           (Sample.request 5 "turn/start" (Some Examples.noInput))
           eq_refl running_alive).
  by left.
Defined.

(** X16: no key of the registry is a plain model name, so for such a name
    turn/start never finds a provider there: the provider is always the
    guess. *)
Theorem plain_model_never_registered (w : World) (tr : list Input) (model : string) :
  Js.includes model "/" = false →
  let s := run (boot w) tr in
  modelProviderMap s !! model = None ∧
  resolveModel (modelProviderMap s) model = (guessProvider model, model).
Proof.
  intros Hm. cbv zeta.
  assert (Hl : modelProviderMap (run (boot w) tr) !! model = None).
  { destruct (modelProviderMap _ !! model) as [p |] eqn:E; [| done].
    apply registry_keys_composite in E. congruence. }
  split; [done |]. unfold resolveModel. by rewrite Hm, Hl.
Qed.

Lemma plain_model_never_registered_witness :
  Js.includes "gpt-4" "/" = false ∧
  modelProviderMap (run (boot Sample.w) Examples.started) !! "gpt-4" = None.
Proof.
  split; [reflexivity |].
  exact (proj1 (plain_model_never_registered Sample.w Examples.started "gpt-4"
                  eq_refl)).
Defined.

(** X17: requests, answers to commands, the child's exit and settled
    suspensions write responses only, and leave the tool-args cache, the
    diff accumulator and the open message alone. *)
Theorem handler_frame (s : State) (i : Input) :
  (∀ e, i ≠ InPi (PiEv e)) →
  let s' := step s i in
  toolArgsCache s' = toolArgsCache s ∧ accumulatedDiff s' = accumulatedDiff s ∧
  currentMessageId s' = currentMessageId s ∧
  ∃ out, stdout s' = stdout s ++ out ∧
         Forall (λ j, methodOf j = None ∧ diffPayload j = None ∧
                      itemLifecycleId j = None) out.
Proof.
  intros Hi. cbv zeta.
  destruct (handlerStep_step s i Hi) as (_ & Hc & Hd & Hm & out & Hout & Hall).
  split; [done |]. split; [done |]. split; [done |].
  exists out. split; [done |].
  eapply Forall_impl; [exact Hall |]. intros j Hj. simpl in Hj.
  unfold diffPayload, itemLifecycleId. by rewrite Hj.
Qed.

Lemma handler_frame_witness :
  (∀ e, InPiExit ≠ InPi (PiEv e)) ∧
  accumulatedDiff (step Sample.running InPiExit) = accumulatedDiff Sample.running.
Proof.
  assert (H : ∀ e, InPiExit ≠ InPi (PiEv e)) by (intros e; discriminate).
  destruct (handler_frame Sample.running InPiExit H) as (_ & H1 & _).
  split; [exact H | exact H1].
Defined.

(** ** The event translator *)

(** X18: an event of the agent writes notifications only; it writes nothing
    to the agent and leaves the sinks, the parked handlers, the child, the
    model, the provider, the working directory, the thread and the registry
    alone. *)
Theorem event_frame (s : State) (e : PiEvent) :
  let s' := step s (event e) in
  piStdin s' = piStdin s ∧ pendingRequests s' = pendingRequests s ∧
  parked s' = parked s ∧ piProcess s' = piProcess s ∧ spawns s' = spawns s ∧
  currentModel s' = currentModel s ∧ currentProvider s' = currentProvider s ∧
  cwd s' = cwd s ∧ currentThreadId s' = currentThreadId s ∧
  modelProviderMap s' = modelProviderMap s ∧
  (∃ out, stdout s' = stdout s ++ out ∧
          Forall (λ j, ∃ m, methodOf j = Some m) out).
Proof.
  cbv zeta. unfold event. simpl.
  unfold translatePiEventToCodex, turnIdOrFresh, draw.
  destruct e; simpl;
    unfold translate_message_update, translate_message_end, translate_tool_start,
      translate_tool_end, errorNotification, draw;
    split_branches; simpl;
    repeat (split; [reflexivity |]);
    first
      [ by exists []; rewrite app_nil_r
      | by eexists [_]; split; [reflexivity | repeat constructor; eexists]
      | by eexists [_; _]; split; [rewrite <- ?app_assoc; reflexivity
                                  | repeat constructor; eexists]
      | by eexists [_; _; _]; split; [rewrite <- ?app_assoc; reflexivity
                                  | repeat constructor; eexists] ].
Qed.

(** X19: an assistant message from message_start to message_end, within a
    turn: the item is started, its delta and its completion carry the
    identifier drawn at the start, and the completed text is the text
    blocks of the message joined by line feeds. *)
Theorem message_pairing (s : State) (delta : option string)
    (content : option (list ContentBlock)) :
  (∀ n, uuidv4 (world s) n ≠ "") →
  Js.truthy (currentTurnId s) = true →
  let id := uuidv4 (world s) (uuids s) in
  let thread := Js.or_else (currentThreadId s) "default" in
  let s3 := run s [event (message_start (assistant None None));
                   event (textDeltaEvent delta);
                   event (message_end (assistant content None))] in
  emitted s s3 =
    [messageItem "item/started" thread id [("status", JStr "inProgress")];
     notificationValue "item/agentMessage/delta"
       (Some (JObj [("threadId", JStr thread); ("itemId", JStr id);
                    ("delta", jstr_opt delta)]));
     messageItem "item/completed" thread id
       [("text", JStr (messageText content)); ("status", JStr "completed")]] ∧
  currentMessageId s3 = None.
Proof.
  intros Hid Ht. cbv zeta. split.
  - apply emitted_app. simpl.
    unfold translatePiEventToCodex, turnIdOrFresh. simpl. rewrite Ht. simpl.
    rewrite Ht. simpl. unfold translate_message_update. simpl.
    rewrite (eqb_false_of_ne _ _ (Hid (uuids s))). simpl. rewrite Ht. simpl.
    unfold translate_message_end. simpl.
    rewrite (eqb_false_of_ne _ _ (Hid (uuids s))). simpl.
    rewrite <- !app_assoc. simpl. unfold messageText. by destruct content.
  - simpl. unfold translatePiEventToCodex, turnIdOrFresh. simpl. rewrite Ht. simpl.
    rewrite Ht. simpl. unfold translate_message_update. simpl. rewrite Ht. simpl.
    unfold translate_message_end. simpl.
    by rewrite (eqb_false_of_ne _ _ (Hid (uuids s))).
Qed.

Lemma inTurn_world : world Examples.inTurn = Sample.w.
Proof. vm_compute. reflexivity. Qed.

Lemma inTurn_uuid_nonempty (n : nat) : uuidv4 (world Examples.inTurn) n ≠ "".
Proof. rewrite inTurn_world. apply sample_uuid_nonempty. Qed.

Lemma inTurn_turn : Js.truthy (currentTurnId Examples.inTurn) = true.
Proof. vm_compute. reflexivity. Qed.

Lemma message_pairing_witness :
  let s3 := run Examples.inTurn
              [event (message_start (assistant None None));
               event (textDeltaEvent (Some "Hi"));
               event (message_end (assistant None None))] in
  Js.truthy (currentTurnId Examples.inTurn) = true ∧ currentMessageId s3 = None.
Proof.
  cbv zeta.
  destruct (message_pairing Examples.inTurn (Some "Hi") None inTurn_uuid_nonempty
              inTurn_turn) as (_ & H).
  split; [exact inTurn_turn | exact H].
Defined.



(** X21: with no turn current, the start and the end of the agent's run
    are announced under two different fresh identifiers, and neither
    becomes the current turn. *)
Theorem stray_turn_ids (s : State) :
  Js.truthy (currentTurnId s) = false →
  Inj (=) (=) (uuidv4 (world s)) →
  let thread := Js.or_else (currentThreadId s) "default" in
  let s1 := step s (event agent_start) in
  let s2 := step s1 (event agent_end) in
  let started := uuidv4 (world s) (uuids s) in
  let completed := uuidv4 (world s) (S (uuids s)) in
  stdout s2 =
    stdout s ++ [turnEvent "turn/started" started thread "inProgress";
                 turnEvent "turn/completed" completed thread "completed"] ∧
  started ≠ completed ∧
  currentTurnId s1 = currentTurnId s ∧ currentTurnId s2 = None.
Proof.
  intros Hno Hinj. cbv zeta. unfold event. simpl.
  unfold translatePiEventToCodex, turnIdOrFresh. simpl. rewrite Hno. simpl.
  rewrite Hno. simpl. split; [by rewrite <- app_assoc |].
  split; [| done]. intros E. apply Hinj in E. lia.
Qed.

Lemma running_uuid_inj : Inj (=) (=) (uuidv4 (world Sample.running)).
Proof. rewrite running_world. exact sample_uuid_inj. Qed.

Lemma stray_turn_ids_witness :
  Js.truthy (currentTurnId Sample.running) = false ∧
  Inj (=) (=) (uuidv4 (world Sample.running)) ∧
  currentTurnId (step Sample.running (event agent_start))
    = currentTurnId Sample.running.
Proof.
  assert (H : Js.truthy (currentTurnId Sample.running) = false)
    by (vm_compute; reflexivity).
  destruct (stray_turn_ids Sample.running H running_uuid_inj) as (_ & _ & H1 & _).
  split; [exact H |]. split; [exact running_uuid_inj | exact H1].
Defined.


Lemma tool_end_cached (s : State) (name name' id : string)
    (a : ToolArgs) (result : option ToolResult) (isError : bool)
    (ev1 ev2 : option ToolArgs) :
  let s1 := step s (event (tool_execution_start name id (Some a))) in
  toolArgsCache s1 !! id = Some {| ct_toolName := name; ct_args := Some a |} ∧
  step s1 (event (tool_execution_end name' id result isError ev1)) =
    step s1 (event (tool_execution_end name' id result isError ev2)) ∧
  toolArgsCache (step s1 (event (tool_execution_end name' id result isError ev1)))
    = delete id (toolArgsCache s).
Proof.
  cbv zeta.
  assert (Hc : toolArgsCache (step s (event (tool_execution_start name id (Some a))))
               = <[id := {| ct_toolName := name; ct_args := Some a |}]> (toolArgsCache s))
    by apply step_cache.
  assert (Hr : ∀ ev, resolvedArgs
                       (step s (event (tool_execution_start name id (Some a)))) id ev
                     = Some a).
  { intros ev. unfold resolvedArgs. rewrite Hc, lookup_insert_eq. done. }
  split; [by rewrite Hc, lookup_insert_eq |]. split.
  - set (s1 := step s _) in *. simpl.
    unfold translatePiEventToCodex. destruct (turnIdOrFresh s1) as [turn s2] eqn:Et.
    assert (Hs2 : ∀ ev, resolvedArgs s2 id ev = Some a).
    { intros ev. rewrite <- (Hr ev). unfold turnIdOrFresh, draw in Et.
      destruct (Js.truthy _); by injection Et as _ <-. }
    unfold translate_tool_end. by rewrite !Hs2.
  - rewrite step_cache. rewrite <- (delete_insert_eq (toolArgsCache s) id
                 {| ct_toolName := name; ct_args := Some a |}), <- Hc.
    reflexivity.
Qed.

(** X23: a tool call from its start to its end: the started and the
    completed item agree on identifier, type, command and working
    directory, and the cache entry is gone. The end is translated with the
    arguments of the start: the arguments of the end event make no
    difference. *)
Theorem tool_item_pairing (s : State) (name id : string) (a : ToolArgs)
    (result : option ToolResult) (isError : bool) (ev : option ToolArgs) :
  let s1 := step s (event (tool_execution_start name id (Some a))) in
  let s2 := step s1 (event (tool_execution_end name id result isError ev)) in
  (∀ name' result' isError' ev1 ev2,
     step s1 (event (tool_execution_end name' id result' isError' ev1)) =
     step s1 (event (tool_execution_end name' id result' isError' ev2))) ∧
  ∃ started completed rest,
    emitted s s2 = started :: completed :: rest ∧
    methodOf started = Some "item/started" ∧
    methodOf completed = Some "item/completed" ∧
    jget "id" (itemOf started) = JStr id ∧
    jget "id" (itemOf completed) = jget "id" (itemOf started) ∧
    jget "type" (itemOf completed) = jget "type" (itemOf started) ∧
    jget "toolType" (itemOf completed) = jget "toolType" (itemOf started) ∧
    jget "command" (itemOf completed) = jget "command" (itemOf started) ∧
    jget "cwd" (itemOf completed) = jget "cwd" (itemOf started) ∧
    jget "status" (itemOf started) = JStr "inProgress" ∧
    jget "status" (itemOf completed) = JStr (if isError then "error" else "completed") ∧
    (rest = [] ∨ ∃ d, rest = [d] ∧ methodOf d = Some "turn/diff/updated") ∧
    toolArgsCache s2 = delete id (toolArgsCache s).
Proof.
  cbv zeta. split.
  { intros name' result' isError' ev1 ev2.
    apply (tool_end_cached s name name' id a result' isError' ev1 ev2). }
  unfold event. simpl.
  unfold translatePiEventToCodex, turnIdOrFresh, draw.
  destruct (Js.truthy (currentTurnId s)) eqn:Ht; simpl; rewrite ?Ht; simpl;
    unfold translate_tool_end, resolvedArgs; simpl; rewrite lookup_insert_eq; simpl;
    rewrite delete_insert_eq;
    (destruct (isFileChange name) eqn:Hfc; simpl;
     [destruct (0 <? _)%nat; simpl |]);
    unfold emitted; simpl;
    rewrite <- ?app_assoc; simpl; rewrite drop_app_length;
    eexists _, _, _; (split; [reflexivity |]); simpl;
    repeat (split; [reflexivity |]);
    (split; [| done]); first [by left | right; by eexists].
Qed.

(** X24: a file change that reports neither a diff nor text adds nothing
    to the accumulator; the diff is sent again as it was, or not at all
    when the accumulator is empty. *)
Theorem file_change_without_body (s : State) (toolName id : string)
    (result : option ToolResult) (isError : bool) (args : option ToolArgs) :
  isFileChange toolName = true →
  Js.truthy ((result ≫= r_details) ≫= det_diff) = false →
  Js.or_else (findText (result ≫= r_content) ≫= c_text) "" = "" →
  let s1 := step s (event (tool_execution_end toolName id result isError args)) in
  accumulatedDiff s1 = accumulatedDiff s ∧
  payloads (emitted s s1) =
    match accumulatedDiff s with
    | [] => []
    | _ => [Js.join diffSeparator (accumulatedDiff s)]
    end.
Proof.
  intros Hfc Hd Ht. cbv zeta.
  destruct (tool_end_file_change s toolName id result isError args Hfc) as [Hacc _].
  cbv zeta in Hacc.
  assert (Hsame : accumulatedDiff
                    (step s (event (tool_execution_end toolName id result isError args)))
                  = accumulatedDiff s).
  { unfold event. rewrite Hacc. unfold accumulate. rewrite Hd, Ht. done. }
  split; [done |].
  destruct (diffStep_step s (event (tool_execution_end toolName id result isError args)))
    as (out & Hout & _ & Hp); [done |].
  rewrite (emitted_app _ _ _ Hout).
  revert Hout Hp. unfold event. simpl.
  unfold translatePiEventToCodex, turnIdOrFresh, draw.
  destruct (Js.truthy (currentTurnId s)); simpl;
    unfold translate_tool_end; rewrite Hfc; unfold resolvedArgs; simpl;
    unfold accumulate; rewrite Hd, Ht; simpl;
    destruct (accumulatedDiff s) as [| f l] eqn:Ea; simpl; rewrite ?Ea;
    intros Hout _;
    try (apply app_inv_head in Hout; subst out; reflexivity);
    rewrite <- app_assoc in Hout; apply app_inv_head in Hout; subst out; reflexivity.
Qed.

Lemma file_change_without_body_witness :
  let s1 := step Sample.running
              (event (tool_execution_end "edit" "t1" None false None)) in
  isFileChange "edit" = true ∧ accumulatedDiff s1 = accumulatedDiff Sample.running.
Proof.
  cbv zeta.
  destruct (file_change_without_body Sample.running "edit" "t1" None false None
              eq_refl eq_refl eq_refl) as (H & _).
  split; [reflexivity | exact H].
Defined.

(** X25: agent_start empties the accumulator, so the first diff sent in a
    turn is the fragment of its first file change alone, whatever earlier
    turns accumulated. *)
Theorem first_diff_after_agent_start (s : State) (toolName id body : string)
    (result : option ToolResult) (isError : bool) (args : option ToolArgs) :
  isFileChange toolName = true →
  (result ≫= r_details) ≫= det_diff = Some body → body ≠ "" →
  let s1 := step s (event agent_start) in
  let s2 := step s1 (event (tool_execution_end toolName id result isError args)) in
  let path := argFilePath (resolvedArgs s id args) in
  accumulatedDiff s1 = [] ∧
  payloads (emitted s s2) =
    ["--- a/" +:+ path +:+ Js.nl +:+ "+++ b/" +:+ path +:+ Js.nl +:+ body].
Proof.
  intros Hfc Hd Hne. cbv zeta. unfold event.
  assert (Hs1 : ∃ o, stdout (step s (InPi (PiEv agent_start))) = stdout s ++ [o] ∧
                     payloads [o] = [] ∧
                     toolArgsCache (step s (InPi (PiEv agent_start))) = toolArgsCache s ∧
                     accumulatedDiff (step s (InPi (PiEv agent_start))) = []).
  { simpl. unfold translatePiEventToCodex, turnIdOrFresh, draw.
    destruct (Js.truthy _); simpl; by eexists. }
  destruct Hs1 as (o & Ho & Hpo & Hcache & H1).
  split; [done |].
  set (s1 := step s (InPi (PiEv agent_start))) in *.
  assert (Hr : resolvedArgs s1 id args = resolvedArgs s id args)
    by (unfold resolvedArgs; by rewrite Hcache).
  destruct (tool_end_file_change s1 toolName id result isError args Hfc)
    as [Hacc Hlast].
  cbv zeta in Hacc, Hlast.
  destruct (diffStep_step s1
              (InPi (PiEv (tool_execution_end toolName id result isError args))))
    as (out & Hout & _ & Hp); [done |].
  set (s2 := step s1 _) in *.
  rewrite H1, Hr in Hacc. unfold accumulate in Hacc.
  rewrite Hd, (truthy_some _ Hne) in Hacc. simpl in Hacc.
  assert (Hem : emitted s s2 = [o] ++ out).
  { apply emitted_app. by rewrite Hout, Ho, <- app_assoc. }
  rewrite Hem, payloads_app, Hpo. simpl.
  destruct Hp as [Hp | [_ Hp]].
  - exfalso. rewrite Hacc in Hlast. specialize (Hlast ltac:(done)).
    rewrite Hout in Hlast. destruct out as [| x out _] using rev_ind.
    + rewrite app_nil_r, Ho, last_snoc in Hlast. injection Hlast as ->.
      discriminate Hpo.
    + rewrite app_assoc, last_snoc in Hlast. injection Hlast as ->.
      rewrite payloads_app in Hp. by destruct (payloads out).
  - rewrite Hp, Hacc. unfold joined. simpl. by rewrite suppliedDiff_flat.
Qed.

Lemma first_diff_after_agent_start_witness :
  let result := Some (Sample.textResult "ok" (Some "@@ -1 +1 @@")) in
  isFileChange "edit" = true ∧
  (result ≫= r_details) ≫= det_diff = Some "@@ -1 +1 @@" ∧ "@@ -1 +1 @@" ≠ "" ∧
  accumulatedDiff (step Sample.running (event agent_start)) = [].
Proof.
  cbv zeta.
  assert (H : "@@ -1 +1 @@" ≠ "") by discriminate.
  destruct (first_diff_after_agent_start Sample.running "edit" "t1" "@@ -1 +1 @@"
              (Some (Sample.textResult "ok" (Some "@@ -1 +1 @@"))) false None
              eq_refl eq_refl H) as (H1 & _).
  split; [reflexivity |]. split; [reflexivity |]. split; [exact H | exact H1].
Defined.

(** ** The turn diff panel *)

Lemma prefix_cons (a b : ascii) (p s : string) :
  String.prefix (String a p) (String b s) =
  if Ascii.ascii_dec a b then String.prefix p s else false.
Proof. reflexivity. Qed.

Lemma includes_char_cons (c a : ascii) (r : string) :
  Js.includes (String a r) (String c "") =
  Ascii.eqb a c || Js.includes r (String c "").
Proof.
  change (Js.includes (String a r) (String c ""))
    with ((if Ascii.ascii_dec c a then String.prefix "" r else false)
          || Js.includes r (String c "")).
  destruct (Ascii.ascii_dec c a) as [<- | Hne].
  - by rewrite prefix_empty, Ascii.eqb_refl.
  - destruct (Ascii.eqb_spec a c) as [-> | _]; [by destruct Hne | done].
Qed.

Lemma split_one (c : ascii) (s : string) :
  Js.includes s (String c "") = false → Js.split c s = [s].
Proof.
  induction s as [| a r IH]; [done |]. rewrite includes_char_cons, split_cons.
  intros H. apply orb_false_iff in H as [-> H]. by rewrite (IH H).
Qed.

Lemma split_app (c : ascii) (a b : string) :
  Js.split c (a +:+ String c b) = Js.split c a ++ Js.split c b.
Proof.
  induction a as [| x a IH].
  - change ("" +:+ String c b) with (String c b).
    by rewrite split_cons, Ascii.eqb_refl.
  - change (String x a +:+ String c b) with (String x (a +:+ String c b)).
    rewrite !split_cons, IH. destruct (Ascii.eqb x c); [done |].
    pose proof (split_nonempty c a). by destruct (Js.split c a).
Qed.

Lemma split_lines (c : ascii) (s : string) :
  Forall (λ l, Js.includes l (String c "") = false) (Js.split c s).
Proof.
  induction s as [| a r IH]; [by repeat constructor |].
  rewrite split_cons. destruct (Ascii.eqb a c) eqn:E; [by constructor |].
  destruct (Js.split c r) as [| h t].
  - repeat constructor. by rewrite includes_char_cons, E.
  - apply Forall_cons in IH as [Hh Ht]. constructor; [| done].
    by rewrite includes_char_cons, E.
Qed.

Lemma split_join (c : ascii) (ls : list string) :
  ls ≠ [] → Forall (λ l, Js.includes l (String c "") = false) ls →
  Js.split c (Js.join (String c "") ls) = ls.
Proof.
  induction ls as [| l ls IH]; [done |]. intros _ Hall.
  apply Forall_cons in Hall as [Hl Hls]. destruct ls as [| l' ls].
  - simpl. by apply split_one.
  - rewrite join_cons by done.
    change (String c "" +:+ Js.join (String c "") (l' :: ls))
      with (String c (Js.join (String c "") (l' :: ls))).
    rewrite split_app, IH by done. by rewrite split_one.
Qed.

Lemma parseLine_plus (l : string) :
  Js.startsWith l "++ " = false →
  Panel.parseLine ("+" +:+ l) = Some {| Panel.type := Panel.add; Panel.text := l |}.
Proof.
  intros H. unfold Panel.parseLine, Js.startsWith in *.
  change ("+" +:+ l) with (String "+"%char l).
  rewrite !prefix_cons.
  destruct (Ascii.ascii_dec "-" "+") as [E | _]; [discriminate E |].
  destruct (Ascii.ascii_dec "+" "+") as [_ | E]; [| by destruct E].
  destruct (Ascii.ascii_dec "@" "+") as [E | _]; [discriminate E |].
  rewrite H, prefix_empty. done.
Qed.

Lemma parseLine_plus_header (l : string) :
  Js.startsWith l "++ " = true →
  Panel.parseLine ("+" +:+ l) =
    Some {| Panel.type := Panel.header; Panel.text := "+" +:+ l |}.
Proof.
  intros H. unfold Panel.parseLine, Js.startsWith in *.
  change ("+" +:+ l) with (String "+"%char l).
  rewrite !prefix_cons.
  destruct (Ascii.ascii_dec "-" "+") as [E | _]; [discriminate E |].
  destruct (Ascii.ascii_dec "+" "+") as [_ | E]; [| by destruct E].
  by rewrite H.
Qed.

Lemma parseSimpleDiff_app (a b : string) :
  Panel.parseSimpleDiff (a +:+ Js.nl +:+ b) =
  Panel.parseSimpleDiff a ++ Panel.parseSimpleDiff b.
Proof.
  unfold Panel.parseSimpleDiff.
  change (a +:+ Js.nl +:+ b) with (a +:+ String Js.nl_char b).
  by rewrite split_app, omap_app.
Qed.

(** X26: the panel reads the accumulated diff fragment by fragment: what
    it parses from the joined payload is what it parses from each fragment,
    in order; so a payload that extends the previous one only adds lines
    to the panel. *)
Theorem panel_reads_fragments (acc acc' : list string) :
  Panel.parseSimpleDiff (joined acc) = List.concat (map Panel.parseSimpleDiff acc) ∧
  (acc `prefix_of` acc' →
   Panel.parseSimpleDiff (joined acc) `prefix_of` Panel.parseSimpleDiff (joined acc')).
Proof.
  assert (H : ∀ l, Panel.parseSimpleDiff (joined l) = List.concat (map Panel.parseSimpleDiff l)).
  { induction l as [| x l IH]; [done |]. destruct l as [| y l].
    - simpl. by rewrite app_nil_r.
    - unfold joined in *. rewrite join_cons by done.
      set (rest := Js.join diffSeparator (y :: l)) in *. unfold diffSeparator.
      rewrite append_assoc, parseSimpleDiff_app.
      change (Js.nl +:+ rest) with ("" +:+ Js.nl +:+ rest).
      by rewrite parseSimpleDiff_app, IH. }
  split; [apply H |]. intros [k ->]. rewrite !H, map_app, concat_app. by eexists.
Qed.

Lemma oneLine_app (p s : string) :
  Js.includes p Js.nl = false → Js.includes s Js.nl = false →
  Js.includes (p +:+ s) Js.nl = false.
Proof.
  unfold Js.nl. intros Hp Hs. induction p as [| a p IH]; [done |].
  change (String a p +:+ s) with (String a (p +:+ s)).
  rewrite includes_char_cons in *. apply orb_false_iff in Hp as [-> Hp].
  by rewrite IH.
Qed.

Lemma oneLine_digits (x : N) (s : string) :
  Js.includes s Js.nl = false → Js.includes (pretty_N_go x s) Js.nl = false.
Proof.
  revert s. induction (N.lt_wf_0 x) as [x _ IH]; intros s Hs.
  assert (x = 0 ∨ 0 < x)%N as [-> | Hx] by lia; [by rewrite pretty_N_go_0 |].
  rewrite pretty_N_go_step by done. apply IH; [by apply N.div_lt |].
  unfold Js.nl in *. rewrite includes_char_cons, Hs, orb_false_r.
  unfold pretty_N_char. by repeat case_match.
Qed.

Lemma oneLine_pretty (n : nat) : Js.includes (pretty n) Js.nl = false.
Proof.
  unfold pretty, pretty_nat, pretty, pretty_N.
  destruct (decide (N.of_nat n = 0%N)); [done |]. by apply oneLine_digits.
Qed.

Lemma parseLine_header (r : string) :
  Panel.parseLine ("+++ " +:+ r) =
  Some {| Panel.type := Panel.header; Panel.text := "+++ " +:+ r |}.
Proof.
  unfold Panel.parseLine, Js.startsWith.
  change ("+++ " +:+ r)
    with (String "+"%char (String "+"%char (String "+"%char (String " "%char r)))).
  rewrite !prefix_cons.
  destruct (Ascii.ascii_dec "-" "+") as [E | _]; [discriminate E |].
  destruct (Ascii.ascii_dec "+" "+") as [_ | E]; [| by destruct E].
  destruct (Ascii.ascii_dec " " " ") as [_ | E]; [| by destruct E].
  by rewrite prefix_empty.
Qed.

Lemma parseLine_hunk (r : string) :
  Panel.parseLine ("@@" +:+ r) =
  Some {| Panel.type := Panel.hunk; Panel.text := "@@" +:+ r |}.
Proof.
  unfold Panel.parseLine, Js.startsWith.
  change ("@@" +:+ r) with (String "@"%char (String "@"%char r)).
  rewrite !prefix_cons.
  destruct (Ascii.ascii_dec "-" "@") as [E | _]; [discriminate E |].
  destruct (Ascii.ascii_dec "+" "@") as [E | _]; [discriminate E |].
  destruct (Ascii.ascii_dec "@" "@") as [_ | E]; [| by destruct E].
  by rewrite prefix_empty.
Qed.

Lemma parseSimpleDiff_one (l : string) (d : Panel.SimpleDiffLine) :
  Js.includes l Js.nl = false → Panel.parseLine l = Some d →
  Panel.parseSimpleDiff l = [d].
Proof.
  intros Hl Hd. unfold Panel.parseSimpleDiff.
  rewrite (split_one Js.nl_char l Hl). simpl. by rewrite Hd.
Qed.

Lemma parse_added (ls : list string) :
  Forall (λ l, Js.startsWith l "++ " = false) ls →
  omap Panel.parseLine (map (String.append "+") ls) =
  map (λ l, {| Panel.type := Panel.add; Panel.text := l |}) ls.
Proof.
  induction 1 as [| l ls Hl _ IH]; [done |]. csimpl.
  change (String.append "+" l) with ("+" +:+ l).
  rewrite (parseLine_plus l Hl). csimpl. by rewrite IH.
Qed.

(** X27: the panel reads back a file the adapter rendered as an addition:
    two header lines, the hunk line, and every line of the file as an added
    line with its text, provided no line of the file starts with '++ '. *)
Theorem panel_reads_addition (path content : string) :
  Js.includes path Js.nl = false →
  let lines := Js.split Js.nl_char content in
  (Forall (λ l, Js.startsWith l "++ " = false) lines →
   Panel.parseSimpleDiff (additionDiff path content) =
     [ {| Panel.type := Panel.header; Panel.text := "--- /dev/null" |};
       {| Panel.type := Panel.header; Panel.text := "+++ b/" +:+ path |};
       {| Panel.type := Panel.hunk;
          Panel.text := "@@ -0,0 +1," +:+ pretty (List.length lines) +:+ " @@" |} ]
     ++ map (λ l, {| Panel.type := Panel.add; Panel.text := l |}) lines) ∧
  (∀ l, Js.startsWith l "++ " = true →
        Panel.parseLine ("+" +:+ l) =
          Some {| Panel.type := Panel.header; Panel.text := "+" +:+ l |}).
Proof.
  intros Hpath. cbv zeta. split; [intros Hlines | apply parseLine_plus_header].
  set (n := pretty (List.length (Js.split Js.nl_char content))).
  set (body := Js.join Js.nl (map (String.append "+") (Js.split Js.nl_char content))).
  assert (Hn : Js.includes n Js.nl = false) by apply oneLine_pretty.
  assert (E : additionDiff path content =
              "--- /dev/null" +:+ Js.nl +:+
              (("+++ b/" +:+ path) +:+ Js.nl +:+
               (("@@ -0,0 +1," +:+ n +:+ " @@") +:+ Js.nl +:+ body))).
  { rewrite additionDiff_flat. fold n. fold body. by rewrite !append_assoc. }
  rewrite E, !parseSimpleDiff_app.
  rewrite (parseSimpleDiff_one "--- /dev/null" _ eq_refl eq_refl).
  rewrite (parseSimpleDiff_one ("+++ b/" +:+ path) _
             (oneLine_app "+++ b/" path eq_refl Hpath) (parseLine_header _)).
  rewrite (parseSimpleDiff_one ("@@ -0,0 +1," +:+ n +:+ " @@") _
             (oneLine_app "@@ -0,0 +1," _ eq_refl (oneLine_app n " @@" Hn eq_refl))
             (parseLine_hunk _)).
  simpl. do 3 f_equal.
  unfold Panel.parseSimpleDiff, body. unfold Js.nl at 1.
  rewrite split_join.
  - by apply parse_added.
  - pose proof (split_nonempty Js.nl_char content). by destruct (Js.split _ content).
  - apply Forall_map. eapply Forall_impl; [apply split_lines |].
    intros l Hl. simpl. by apply (oneLine_app "+" l eq_refl).
Qed.

Lemma panel_reads_addition_witness :
  let content := "x" +:+ Js.nl +:+ "y" in
  Js.includes "a.txt" Js.nl = false ∧
  Forall (λ l, Js.startsWith l "++ " = false) (Js.split Js.nl_char content) ∧
  List.length (Panel.parseSimpleDiff (additionDiff "a.txt" content)) = 5%nat.
Proof.
  cbv zeta.
  assert (H1 : Js.includes "a.txt" Js.nl = false) by (vm_compute; reflexivity).
  assert (H2 : Forall (λ l, Js.startsWith l "++ " = false)
                 (Js.split Js.nl_char ("x" +:+ Js.nl +:+ "y")))
    by (by repeat constructor).
  split; [exact H1 |]. split; [exact H2 |].
  rewrite (proj1 (panel_reads_addition "a.txt" ("x" +:+ Js.nl +:+ "y") H1) H2).
  reflexivity.
Defined.

(** ** Usage limits and credentials *)

(** X28: where the usage query takes its token from. A token in pi's
    auth.json is the one used, whatever Claude's credentials file holds:
    when it has expired the query fails without asking the network, and an
    error of the network is the error of the query. Without credentials
    the network is not asked. The query succeeds only when credentials
    were found and the network answered with success and a body. *)
Theorem rate_limits_sources (h : Host) :
  (∀ a claude,
     piAuthFile h = Some (Some a) → Js.truthy (pa_access a) = true →
     fetchClaudeRateLimits (with_claudeCredFile claude h) = fetchClaudeRateLimits h ∧
     (truthyNum (pa_expires a) = true → (default 0 (pa_expires a) < dateNow h)%Z →
      fetchClaudeRateLimits h = inl "Claude OAuth token expired") ∧
     (truthyNum (pa_expires a) = false ∨ (dateNow h ≤ default 0 (pa_expires a))%Z →
      ∀ r, fetchUsage h ("Bearer " +:+ default "" (pa_access a)) = inl r →
           fetchClaudeRateLimits h = inl r)) ∧
  (loadClaudeCredentials h = None →
   ∀ net, fetchClaudeRateLimits (with_fetchUsage net h) =
          inl "No Claude OAuth credentials found") ∧
  (∀ r, fetchClaudeRateLimits h = inr r →
        ∃ creds response usage,
          loadClaudeCredentials h = Some creds ∧
          fetchUsage h ("Bearer " +:+ access creds) = inr response ∧
          ok response = true ∧ body response = inr usage).
Proof.
  split; [| split].
  - intros a claude Hpi Ht.
    assert (L : ∀ c, loadClaudeCredentials (with_claudeCredFile c h) =
                     Some {| access := default "" (pa_access a);
                             refresh := pa_refresh a; expires := pa_expires a |}).
    { intros c. unfold loadClaudeCredentials. simpl. rewrite Hpi. simpl. by rewrite Ht. }
    assert (L0 : loadClaudeCredentials h =
                 Some {| access := default "" (pa_access a);
                         refresh := pa_refresh a; expires := pa_expires a |}).
    { unfold loadClaudeCredentials. rewrite Hpi. simpl. by rewrite Ht. }
    unfold fetchClaudeRateLimits. rewrite L, L0. simpl. split; [done |]. split.
    + intros He Hlt. rewrite He. simpl.
      by destruct (Z.ltb_spec (default 0%Z (pa_expires a)) (dateNow h)); [| lia].
    + intros Hlive r Hr.
      assert (E : truthyNum (pa_expires a)
                  && (default 0 (pa_expires a) <? dateNow h)%Z = false).
      { destruct Hlive as [-> | Hle]; [done |]. apply andb_false_iff. right.
        by apply Z.ltb_ge. }
      by rewrite E, Hr.
  - intros Hnone net. unfold fetchClaudeRateLimits.
    assert (L : loadClaudeCredentials (with_fetchUsage net h) = loadClaudeCredentials h)
      by done.
    by rewrite L, Hnone.
  - intros r. unfold fetchClaudeRateLimits.
    destruct (loadClaudeCredentials h) as [creds |]; [| discriminate].
    destruct (_ && _); [discriminate |].
    destruct (fetchUsage h _) as [m | response] eqn:Ef; [discriminate |].
    destruct (ok response) eqn:Eok; simpl; [| discriminate].
    destruct (body response) as [m | usage] eqn:Eb; [discriminate |].
    intros _. by exists creds, response, usage.
Qed.

(** X29: account/rateLimits, from the request to its response: the handler
    waits for the usage query and writes nothing to the agent. When the
    query fails the response holds primary, secondary and credits, all
    null, at top level; when it succeeds they stand under rateLimits, with
    windows of 300 and 10080 minutes and credits never unlimited. *)
Theorem rate_limits_request (s : State) (req : CodexRequest) (h : Host) :
  req_method req = "account/rateLimits" ∨ req_method req = "account/rateLimits/read" →
  alive s = true →
  let s1 := step s (InClient req) in
  let s2 := step s1 (InDone (parks s) (usageDone h)) in
  stdout s1 = stdout s ∧ parked s1 !! parks s = Some (AwaitRateLimits (req_id req)) ∧
  piStdin s2 = piStdin s ∧ pendingRequests s2 = pendingRequests s ∧
  parked s2 !! parks s = None ∧
  ∃ result,
    stdout s2 = stdout s ++ [responseValue (req_id req) result None] ∧
    match fetchClaudeRateLimits h with
    | inl _ => result = noLimits
    | inr limits =>
        result = JObj [("rateLimits", limits)] ∧
        (jget "primary" limits = JNull ∨
         jget "windowMinutes" (jget "primary" limits) = JNum 300) ∧
        (jget "secondary" limits = JNull ∨
         jget "windowMinutes" (jget "secondary" limits) = JNum 10080) ∧
        jget "unlimited" (jget "credits" limits) = JBool false ∧
        (jget "hasCredits" (jget "credits" limits) = JBool false →
         jget "balance" (jget "credits" limits) = JNull)
    end.
Proof.
  intros Hm Ha. cbv zeta.
  assert (E : step s (InClient req) = park (AwaitRateLimits (req_id req)) s).
  { destruct Hm as [Hm | Hm];
      rewrite step_client, handle_alive by (done || by rewrite Hm);
      unfold dispatch; by rewrite Hm. }
  rewrite E. simpl. rewrite lookup_insert_eq. simpl.
  split; [done |]. split; [done |].
  destruct (fetchClaudeRateLimits h) as [m | limits] eqn:Ef; simpl;
    rewrite lookup_delete_eq; repeat (split; [done |]);
    eexists; (split; [done |]); [done |].
  split; [done |]. revert Ef. unfold fetchClaudeRateLimits.
  destruct (loadClaudeCredentials h) as [creds |]; [| discriminate].
  destruct (_ && _); [discriminate |].
  destruct (fetchUsage h _) as [m | response]; [discriminate |].
  destruct (ok response); simpl; [| discriminate].
  destruct (body response) as [m | usage]; [discriminate |].
  intros [= <-]. simpl. unfold usageCredits.
  split; [destruct (five_hour usage); simpl; [by right | by left] |].
  split; [destruct (seven_day usage); simpl; [by right | by left] |].
  by destruct (default false (extra_usage usage ≫= is_enabled)).
Qed.

Lemma rate_limits_request_witness :
  let req := Sample.request 6 "account/rateLimits" None in
  (req_method req = "account/rateLimits" ∨ req_method req = "account/rateLimits/read") ∧
  alive Sample.running = true ∧
  stdout (step Sample.running (InClient req)) = stdout Sample.running.
Proof.
  cbv zeta.
  destruct (rate_limits_request Sample.running
              (Sample.request 6 "account/rateLimits" None) Examples.expiredHost
              (or_introl eq_refl) running_alive) as (H & _).
  split; [by left |]. split; [apply running_alive | exact H].
Defined.

Lemma providersOf_names (h : AuthHost) (k : nat)
    (entries : list (string * StoredCredential)) (ps : list Provider) :
  providersOf h k entries = inr ps →
  map pr_name ps = map fst entries ∧ Forall (λ p, pr_authenticated p = true) ps.
Proof.
  revert k ps. induction entries as [| [name cred] r IH]; intros k ps.
  - intros [= <-]. by split.
  - simpl. destruct (truthyNum (cred_expires cred));
      [destruct (validTime _); [| discriminate] |];
      (destruct (providersOf h _ r) as [m | ps'] eqn:E; [discriminate |]);
      intros [= <-]; destruct (IH _ ps' E) as [Hn Ha]; simpl;
      (split; [by rewrite Hn | by constructor]).
Qed.

Lemma existsb_name (acc : list Provider) (p : string) :
  existsb (λ pr, String.eqb (pr_name pr) p) acc = bool_decide (p ∈ map pr_name acc).
Proof.
  induction acc as [| a acc IH]; [done |]. simpl. rewrite IH.
  destruct (String.eqb_spec (pr_name a) p) as [<- | Hne]; simpl.
  - symmetry. apply bool_decide_eq_true. by left.
  - apply bool_decide_ext. rewrite elem_of_cons. intuition congruence.
Qed.

Lemma filter_agree {A} (P Q : A → Prop) `{∀ x, Decision (P x)} `{∀ x, Decision (Q x)}
    (l : list A) :
  (∀ x, x ∈ l → (P x ↔ Q x)) → filter P l = filter Q l.
Proof.
  induction l as [| a l IH]; intros Hl; [done |].
  assert (Ha : P a ↔ Q a) by (apply Hl; by left).
  assert (Hr : filter P l = filter Q l).
  { apply IH. intros x Hx. apply Hl. by right. }
  destruct (decide (P a)) as [HP | HP].
  - rewrite !filter_cons_True by tauto. by rewrite Hr.
  - rewrite !filter_cons_False by tauto. done.
Qed.

Lemma addKnown_spec (known : list string) (providers : list Provider) :
  NoDup known →
  addKnown known providers =
  providers ++
    map unauthenticated (filter (λ p, p ∉ map pr_name providers) known).
Proof.
  intros Hnd. revert providers.
  induction Hnd as [| p known Hp Hnd IH]; intros providers.
  - simpl. by rewrite app_nil_r.
  - unfold addKnown in *. simpl. rewrite existsb_name.
    destruct (bool_decide_reflect (p ∈ map pr_name providers)) as [Hin | Hout].
    + rewrite IH. by rewrite filter_cons_False by (by intros Hn; apply Hn).
    + rewrite IH, filter_cons_True by done. simpl. rewrite <- app_assoc. simpl.
      do 3 f_equal. apply filter_agree. intros q Hq.
      rewrite map_app, elem_of_app. simpl. rewrite list_elem_of_singleton.
      split; [tauto |]. intros Hn [Hin | ->]; [by apply Hn | by apply Hp].
Qed.

Lemma knownProviders_NoDup : NoDup knownProviders.
Proof.
  unfold knownProviders.
  repeat (apply NoDup_cons; split;
          [rewrite ?elem_of_cons, elem_of_nil; intuition discriminate |]).
  apply NoDup_nil_2.
Qed.

Lemma providersOf_range (h : AuthHost) (k : nat)
    (entries : list (string * StoredCredential)) :
  match providersOf h k entries with
  | inr _ =>
      forallb (λ e, negb (truthyNum (cred_expires e.2))
                    || validTime (default 0%Z (cred_expires e.2))) entries = true
  | inl _ =>
      forallb (λ e, negb (truthyNum (cred_expires e.2))
                    || validTime (default 0%Z (cred_expires e.2))) entries = false
  end.
Proof.
  revert k. induction entries as [| [name cred] r IH]; intros k; [done |]. simpl.
  destruct (truthyNum (cred_expires cred)); simpl;
    [destruct (validTime _); simpl; [| done]; specialize (IH (S k))
    | specialize (IH k)];
    by destruct (providersOf h _ r).
Qed.

(** X30: auth/status, from the request to its response: the credentials of
    the file in the file's order, all authenticated, then the known
    providers the file does not have, none authenticated; every known
    provider is listed, and none twice when the file's names are distinct.
    An expiry outside the range of dates gives the empty list. *)
Theorem auth_status_request (s : State) (req : CodexRequest) (h : AuthHost)
    (entries : list (string * StoredCredential)) :
  req_method req = "auth/status" → alive s = true →
  authEntries h = inr entries →
  let s1 := step s (InClient req) in
  let s2 := step s1 (InDone (parks s) (authDone h)) in
  let names := map fst entries in
  let inRange :=
    forallb (λ e, negb (truthyNum (cred_expires e.2))
                  || validTime (default 0%Z (cred_expires e.2))) entries in
  stdout s1 = stdout s ∧ piStdin s2 = piStdin s ∧
  if inRange then
    ∃ providers,
      stdout s2 =
        stdout s ++
          [responseValue (req_id req)
             (JObj [("providers", JArr (map providerJson providers))]) None] ∧
      map pr_name providers =
        names ++ filter (λ p, p ∉ names) knownProviders ∧
      (∀ p, p ∈ knownProviders → p ∈ map pr_name providers) ∧
      (∀ i p, providers !! i = Some p →
              pr_authenticated p = bool_decide (i < List.length entries)%nat) ∧
      (NoDup names → NoDup (map pr_name providers))
  else
    stdout s2 =
      stdout s ++ [responseValue (req_id req) (JObj [("providers", JArr [])]) None].
Proof.
  intros Hm Ha He. cbv zeta.
  assert (E : step s (InClient req) = park (AwaitAuthFile (req_id req)) s).
  { rewrite step_client, handle_alive by (done || by rewrite Hm).
    unfold dispatch. by rewrite Hm. }
  rewrite E. unfold authDone.
  assert (Hs : authStatus h =
               match providersOf h 0 entries with
               | inl m => inl m
               | inr ps => inr (JArr (map providerJson (addKnown knownProviders ps)))
               end) by (unfold authStatus; by rewrite He).
  pose proof (providersOf_range h 0 entries) as Hr.
  destruct (providersOf h 0 entries) as [m | ps] eqn:Ep; rewrite Hs, Hr;
    simpl; rewrite lookup_insert_eq; simpl; (split; [done |]); [done |].
  split; [done |].
  destruct (providersOf_names h 0 entries ps Ep) as [Hn Hall].
  exists (addKnown knownProviders ps). split; [done |].
  rewrite (addKnown_spec _ _ knownProviders_NoDup), Hn.
  set (missing := filter (λ p, p ∉ map fst entries) knownProviders).
  assert (Hnames : map pr_name (ps ++ map unauthenticated missing)
                   = map fst entries ++ missing).
  { rewrite map_app, Hn. f_equal. rewrite map_map. simpl. apply map_id. }
  split; [done |]. split; [| split].
  - intros p Hp. rewrite Hnames, elem_of_app.
    destruct (decide (p ∈ map fst entries)) as [Hin | Hout]; [by left | right].
    by apply list_elem_of_filter.
  - intros i p Hl.
    assert (Hlen : List.length ps = List.length entries).
    { by rewrite <- (length_map pr_name ps), Hn, length_map. }
    destruct (decide (i < List.length entries)%nat) as [Hlt | Hge].
    + rewrite lookup_app_l in Hl by lia.
      rewrite Forall_forall in Hall. rewrite (Hall p) by (by eapply list_elem_of_lookup_2).
      symmetry. by apply bool_decide_eq_true.
    + rewrite lookup_app_r in Hl by lia. apply list_lookup_fmap_Some in Hl as (q & -> & _).
      symmetry. by apply bool_decide_eq_false.
  - intros Hnd. rewrite Hnames. apply NoDup_app. split; [done |]. split.
    + intros p Hin Hmiss. apply list_elem_of_filter in Hmiss as [Hout _]. by apply Hout.
    + apply NoDup_filter, knownProviders_NoDup.
Qed.

Lemma auth_status_request_witness :
  let req := Sample.request 7 "auth/status" None in
  req_method req = "auth/status" ∧ alive Sample.running = true ∧
  stdout (step Sample.running (InClient req)) = stdout Sample.running.
Proof.
  cbv zeta.
  destruct (auth_status_request Sample.running (Sample.request 7 "auth/status" None)
              Examples.authHost _ eq_refl running_alive eq_refl) as (H & _).
  split; [reflexivity |]. split; [apply running_alive | exact H].
Defined.
